(** * Batch file renamer: a shallow embedding of the renaming engine

    The embedded program is the Python application made of
    [file_manager.py] (directory discovery and the rename pass),
    [excel_parser.py] (name generation from spreadsheet rows),
    [gui_drag_and_drop.py] (template builder), [gui_batch_renamer.py]
    (the four-stage wizard), [pdf_splitter.py] (the split of a single
    PDF file) and [gui_paginated_selection.py] (the column selector).

    Conventions of the embedding:
    - a Python [str] is a [list ascii]; one [ascii] stands for one code
      point below 256 (not for one byte of an encoding), and the character
      tables below are given for that range;
    - an exception is a value of [exn]; a function that may raise returns
      [result A];
    - the file system and the spreadsheet loader are outside the
      repository: file-system calls are parameters of the functions that
      use them, and a spreadsheet is the table it loads into. *)

From Stdlib Require Import ZArith List Ascii String Lia Bool DecimalString.
From Stdlib Require Import Floats.SpecFloat Sorting.Sorted.
From stdpp Require Import gmap strings list.

Local Open Scope Z_scope.

(* ================================================================== *)
(** * Part I: definitions                                              *)
(* ================================================================== *)

(** ** Text *)

Abbreviation str := (list ascii).

(** A literal of the source text. *)
Definition lit (s : string) : str := list_ascii_of_string s.

Definition ord (c : ascii) : N := N_of_ascii c.

Definition in_range (lo hi : N) (c : ascii) : bool :=
  ((lo <=? ord c) && (ord c <=? hi))%N.

Definition is_ascii_digit (c : ascii) : bool := in_range 48 57 c.

(** [str.isalnum] on one code point below 256; this is also what the
    regular-expression class [\w] accepts, apart from the underscore. *)
Definition py_isalnum (c : ascii) : bool :=
  in_range 48 57 c || in_range 65 90 c || in_range 97 122 c
  || in_range 170 170 c || in_range 178 179 c || in_range 181 181 c
  || in_range 185 186 c || in_range 188 190 c
  || in_range 192 214 c || in_range 216 246 c || in_range 248 255 c.

(** [str.isspace] on one code point below 256. *)
Definition py_isspace (c : ascii) : bool :=
  in_range 9 13 c || in_range 28 32 c || in_range 133 133 c
  || in_range 160 160 c.

(** [str.lower] on one code point below 256. *)
Definition lower_char (c : ascii) : ascii :=
  if in_range 65 90 c || in_range 192 214 c || in_range 216 222 c
  then ascii_of_N (ord c + 32) else c.

Definition lower (s : str) : str := map lower_char s.

Definition eqc (a b : ascii) : bool := bool_decide (a = b).

Fixpoint startswith (s p : str) {struct p} : bool :=
  match p, s with
  | [], _ => true
  | a :: p', b :: s' => eqc a b && startswith s' p'
  | _ :: _, [] => false
  end.

(** [c in s] for a one-character [c]. *)
Definition char_in (c : ascii) (s : str) : bool := existsb (eqc c) s.

(** [sub in s]: [sub] occurs in [s] as a contiguous run. *)
Fixpoint contains (s sub : str) : bool :=
  startswith s sub ||
  match s with
  | [] => false
  | _ :: s' => contains s' sub
  end.

(** [str.replace old new] for a non-empty [old]: scan from the left; at
    an occurrence of [old] emit [new] and jump over the occurrence
    ([skip] counts the characters of it still to be jumped over),
    otherwise copy one character. *)
Fixpoint replace_from (old new : str) (skip : nat) (s : str) : str :=
  match s with
  | [] => []
  | c :: s' =>
      match skip with
      | S k => replace_from old new k s'
      | O =>
          if startswith s old
          then new ++ replace_from old new (length old - 1)%nat s'
          else c :: replace_from old new 0%nat s'
      end
  end.

(** [s.replace(old, new)].  With an empty [old], Python inserts [new]
    before every character and at the end. *)
Definition replace (s old new : str) : str :=
  match old with
  | [] => new ++ flat_map (fun c => c :: new) s
  | _ :: _ => replace_from old new 0%nat s
  end.

Fixpoint lstrip (s : str) : str :=
  match s with
  | c :: s' => if py_isspace c then lstrip s' else s
  | [] => []
  end.

Definition rstrip (s : str) : str := rev (lstrip (rev s)).

(** [s.strip()] *)
Definition strip (s : str) : str := rstrip (lstrip s).

Fixpoint rfind_from (c : ascii) (s : str) (i acc : Z) : Z :=
  match s with
  | [] => acc
  | x :: s' => rfind_from c s' (i + 1) (if eqc x c then i else acc)
  end.

(** [s.rfind(c)] for a one-character [c]: the last index, or [-1]. *)
Definition rfind (s : str) (c : ascii) : Z := rfind_from c s 0 (-1).

(** [s[i:j]] for non-negative [i] and [j]. *)
Definition slice (s : str) (i j : Z) : str :=
  take (Z.to_nat j - Z.to_nat i)%nat (drop (Z.to_nat i) s).

(** [str(n)] for an [int]. *)
Definition str_of_int (n : Z) : str :=
  lit (NilZero.string_of_int (Z.to_int n)).

(** [", ".join(l)] and the like. *)
Fixpoint join (sep : str) (l : list str) : str :=
  match l with
  | [] => []
  | [x] => x
  | x :: l' => x ++ sep ++ join sep l'
  end.

(** ** Exceptions and results *)

(** The [OSError] that [os.rename] raises carries the error number and
    both file names. *)
Record os_error := OsError {
  errno : Z;
  filename : str;
  filename2 : str
}.

Inductive exn :=
| ValueError (msg : str)
| KeyError (key : str)
| FileNotFoundError (msg : str)
| NotADirectoryError (msg : str)
| AttributeError
| OSError (e : os_error).

Inductive result (A : Type) :=
| Ok (a : A)
| Raise (e : exn).
Arguments Ok {A} a.
Arguments Raise {A} e.

(** Sequencing: an exception ends the computation. *)
Global Instance result_bind : MBind result := fun A B k m =>
  match m with
  | Ok a => k a
  | Raise e => Raise e
  end.

(** [[f(x) for x in l]] where [f] may raise: the first exception ends
    the comprehension. *)
Fixpoint for_each {A B} (f : A -> result B) (l : list A) : result (list B) :=
  match l with
  | [] => Ok []
  | x :: l' => y ← f x; ys ← for_each f l'; Ok (y :: ys)
  end.

(** ** [os.path.splitext] *)

Inductive flavour := Posix | Nt.

Definition sep_index (fl : flavour) (p : str) : Z :=
  match fl with
  | Posix => rfind p "/"%char
  | Nt => Z.max (rfind p "\"%char) (rfind p "/"%char)
  end.

(** [genericpath._splitext]: split at the last dot that comes after the
    last separator, unless only dots stand between them. *)
Definition splitext (fl : flavour) (p : str) : str * str :=
  let sepIndex := sep_index fl p in
  let dotIndex := rfind p "."%char in
  if (sepIndex <? dotIndex)
     && existsb (fun c => negb (eqc c "."%char)) (slice p (sepIndex + 1) dotIndex)
  then (take (Z.to_nat dotIndex) p, drop (Z.to_nat dotIndex) p)
  else (p, []).

(** ** [pathlib] paths (POSIX flavour, Python 3.12) *)

(** A parsed path: the root is [""], ["/"] or ["//"]; the parts are the
    components after it. *)
Record PurePath := MkPath {
  root : str;
  parts : list str
}.

(** [s.split(c)] for a one-character separator. *)
Fixpoint split_on (c : ascii) (s : str) : list str :=
  match s with
  | [] => [[]]
  | x :: s' =>
      if eqc x c then [] :: split_on c s'
      else match split_on c s' with
           | h :: t => (x :: h) :: t
           | [] => [[x]]
           end
  end.

(** [posixpath.splitroot], the root only. *)
Definition parse_root (s : str) : str :=
  if negb (startswith s (lit "/")) then []
  else if negb (startswith (drop 1 s) (lit "/")) || startswith (drop 2 s) (lit "/")
       then lit "/"
       else lit "//".

(** [Path(s)]: empty components and ["."] are dropped. *)
Definition Path (s : str) : PurePath :=
  {| root := parse_root s;
     parts := filter (fun x => x <> [] /\ x <> lit ".") (split_on "/" s) |}.

(** [str(p)] *)
Definition path_str (p : PurePath) : str :=
  match root p, parts p with
  | [], [] => lit "."
  | r, t => r ++ join (lit "/") t
  end.

(** [p.name] *)
Definition name (p : PurePath) : str := List.last (parts p) [].

(** [p.suffix]: from the last dot of the name, unless that dot is the
    first or the last character. *)
Definition suffix (p : PurePath) : str :=
  let n := name p in
  let i := rfind n "." in
  if (0 <? i) && (i <? Z.of_nat (length n) - 1) then drop (Z.to_nat i) n else [].

(** [p.parent] *)
Definition parent (p : PurePath) : PurePath :=
  match parts p with
  | [] => p
  | _ :: _ => {| root := root p; parts := removelast (parts p) |}
  end.

(** [p / key]: an absolute [key] replaces [p]. *)
Definition joinpath (p : PurePath) (key : str) : PurePath :=
  let q := Path key in
  match root q with
  | [] => {| root := root p; parts := parts p ++ parts q |}
  | _ :: _ => q
  end.

(** The child that [iterdir] yields for a directory entry [entry]. *)
Definition make_child (p : PurePath) (entry : str) : PurePath :=
  {| root := root p; parts := parts p ++ [entry] |}.

(** ** Natural sort ([natsort.natsorted], default algorithm) *)

(** The key of a string: the string is normalised to NFD, split at its
    numbers, and the pieces become integers and texts.  A string of the
    model holds code points below 256; normalisation gives combining
    marks above 256, so the key works on code points. *)
Inductive chunk :=
| Txt (s : list N)
| Num (n : N).

(** [unicodedata.normalize("NFD", c)] for a code point below 256: a
    letter with a diacritic becomes the letter and the combining mark,
    every other character stays. *)
Definition nfd (c : N) : list N :=
  match c with
  | 192 => [65; 768] | 193 => [65; 769] | 194 => [65; 770]
  | 195 => [65; 771] | 196 => [65; 776] | 197 => [65; 778]
  | 199 => [67; 807] | 200 => [69; 768] | 201 => [69; 769]
  | 202 => [69; 770] | 203 => [69; 776] | 204 => [73; 768]
  | 205 => [73; 769] | 206 => [73; 770] | 207 => [73; 776]
  | 209 => [78; 771] | 210 => [79; 768] | 211 => [79; 769]
  | 212 => [79; 770] | 213 => [79; 771] | 214 => [79; 776]
  | 217 => [85; 768] | 218 => [85; 769] | 219 => [85; 770]
  | 220 => [85; 776] | 221 => [89; 769] | 224 => [97; 768]
  | 225 => [97; 769] | 226 => [97; 770] | 227 => [97; 771]
  | 228 => [97; 776] | 229 => [97; 778] | 231 => [99; 807]
  | 232 => [101; 768] | 233 => [101; 769] | 234 => [101; 770]
  | 235 => [101; 776] | 236 => [105; 768] | 237 => [105; 769]
  | 238 => [105; 770] | 239 => [105; 776] | 241 => [110; 771]
  | 242 => [111; 768] | 243 => [111; 769] | 244 => [111; 770]
  | 245 => [111; 771] | 246 => [111; 776] | 249 => [117; 768]
  | 250 => [117; 769] | 251 => [117; 770] | 252 => [117; 776]
  | 253 => [121; 769] | 255 => [121; 776]
  | _ => [c]
  end%N.

(** No two marks of the result are adjacent, so the normal form of a
    string is the normal forms of its characters, one after the other. *)
Definition normalize (s : str) : list N := flat_map (fun c => nfd (ord c)) s.

(** [\d]: the decimal digits, below 256 the digits [0-9]. *)
Definition is_decimal (c : N) : bool := ((48 <=? c) && (c <=? 57))%N.

(** The digits that are no decimals, with [unicodedata.digit] of them:
    below 256 the superscripts two, three and one. *)
Definition other_digit (c : N) : option N :=
  match c with
  | 178 => Some 2
  | 179 => Some 3
  | 185 => Some 1
  | _ => None
  end%N.

(** What [re.split] gives for the pattern of the numbers, a run of
    decimals or one other digit, once the empty strings are dropped. *)
Inductive piece :=
| Decimals (s : list N)
| Digit (c : N)
| Text (s : list N).

Definition push (c : N) (l : list piece) : list piece :=
  if is_decimal c then
    match l with
    | Decimals s :: l' => Decimals (c :: s) :: l'
    | _ => Decimals [c] :: l
    end
  else
    match other_digit c with
    | Some _ => Digit c :: l
    | None =>
        match l with
        | Text s :: l' => Text (c :: s) :: l'
        | _ => Text [c] :: l
        end
    end.

Fixpoint pieces (s : list N) : list piece :=
  match s with
  | [] => []
  | c :: s' => push c (pieces s')
  end.

Definition int_of_digits (s : list N) : N :=
  fold_left (fun acc c => (10 * acc + (c - 48))%N) s 0%N.

(** [try_int]: a run of decimals is read by [int], one other digit by
    [unicodedata.digit], a text stays. *)
Definition component (p : piece) : chunk :=
  match p with
  | Decimals s => Num (int_of_digits s)
  | Digit c => Num (default 0%N (other_digit c))
  | Text s => Txt s
  end.

Definition is_num (k : chunk) : bool :=
  match k with Num _ => true | Txt _ => false end.

(** [sep_inserter]: an empty text goes before a leading number and
    between two adjacent numbers, so that text and numbers alternate. *)
Fixpoint sep_inserter_from (prev_num : bool) (l : list chunk) : list chunk :=
  match l with
  | [] => []
  | x :: l' =>
      (if prev_num && is_num x then [Txt []] else [])
      ++ x :: sep_inserter_from (is_num x) l'
  end.

Definition natsort_key (s : str) : list chunk :=
  sep_inserter_from true (map component (pieces (normalize s))).

(** Comparison of sequences as Python compares strings and tuples: the
    first difference decides, a proper prefix is smaller. *)
Fixpoint lex_compare {A} (cmp : A -> A -> comparison) (a b : list A) : comparison :=
  match a, b with
  | [], [] => Eq
  | [], _ :: _ => Lt
  | _ :: _, [] => Gt
  | x :: a', y :: b' =>
      match cmp x y with
      | Eq => lex_compare cmp a' b'
      | c => c
      end
  end.

(** Texts compare by code point. *)
Definition text_compare : list N -> list N -> comparison :=
  lex_compare N.compare.

(** Two keys always hold the same kind of chunk at the same index; the
    order given here between a number and a text is never consulted. *)
Definition chunk_compare (a b : chunk) : comparison :=
  match a, b with
  | Txt s, Txt t => text_compare s t
  | Num m, Num n => N.compare m n
  | Num _, Txt _ => Lt
  | Txt _, Num _ => Gt
  end.

Definition key_compare : list chunk -> list chunk -> comparison :=
  lex_compare chunk_compare.

Definition natural_leb (a b : str) : bool :=
  match key_compare (natsort_key a) (natsort_key b) with
  | Gt => false
  | _ => true
  end.

Definition natural_le (a b : str) : Prop := natural_leb a b = true.

(** A stable sort: an element stays before the later elements that
    compare equal to it. *)
Fixpoint insert_by {A} (leb : A -> A -> bool) (x : A) (l : list A) : list A :=
  match l with
  | [] => [x]
  | y :: l' => if leb x y then x :: l else y :: insert_by leb x l'
  end.

Fixpoint sort_by {A} (leb : A -> A -> bool) (l : list A) : list A :=
  match l with
  | [] => []
  | x :: l' => insert_by leb x (sort_by leb l')
  end.

Definition natsorted (l : list str) : list str := sort_by natural_leb l.

(** ** [file_manager.get_file_paths_and_extension] *)

(** What the function asks of the file system, by path string. *)
Record FsView := {
  fs_exists : str -> bool;
  fs_is_dir : str -> bool;
  fs_listdir : str -> list str;
  fs_is_file : str -> bool;
  fs_resolve : str -> str
}.

(** [repr] of a list of strings that need no escaping. *)
Definition repr_list (l : list str) : str :=
  lit "[" ++ join (lit ", ") (map (fun s => lit "'" ++ s ++ lit "'") l) ++ lit "]".

(** The regular files of the directory, as [iterdir] and [is_file] give
    them. *)
Definition directory_files (v : FsView) (directory : PurePath) : list PurePath :=
  filter (fun file => fs_is_file v (path_str file))
         (map (make_child directory) (fs_listdir v (path_str directory))).

Definition get_file_paths_and_extension
    (v : FsView) (directory_path : str) (allowed_extensions : list str)
  : result (list str * str) :=
  let directory := Path directory_path in
  if negb (fs_exists v (path_str directory)) then
    Raise (FileNotFoundError (lit "Directory not found: " ++ path_str directory))
  else if negb (fs_is_dir v (path_str directory)) then
    Raise (NotADirectoryError (lit "Not a directory: " ++ path_str directory))
  else
    let files := directory_files v directory in
    match files with
    | [] => Raise (ValueError (lit "No files found in the directory."))
    | _ :: _ =>
        (* the set of extensions: only its size and its sole element are used *)
        let extensions := remove_dups (map (fun file => lower (suffix file)) files) in
        match extensions with
        | [ext] =>
            let allowed_extensions_lower := map lower allowed_extensions in
            if bool_decide (ext ∉ allowed_extensions_lower) then
              Raise (ValueError (lit "Extension not allowed: " ++ ext
                                 ++ lit ". Allowed: " ++ repr_list allowed_extensions))
            else
              let file_paths := map (fun file => fs_resolve v (path_str file)) files in
              Ok (natsorted file_paths, ext)
        | _ => Raise (ValueError (lit "Error: Mixed file extensions in the directory."))
        end
    end.

(** ** [file_manager.rename_files] *)

Definition count_mismatch_message : str :=
  lit "The number of original files and new names does not match.".

Section RenameExecutor.
(** The state of the file system and the [rename] system call: it
    answers with an error number and changes nothing, or with the new
    state.  The log line written before each call is left out. *)
Context {FS : Type}.
Variable os_rename : str -> str -> FS -> Z + FS.

(** The body of the loop: [original_path.rename(new_path)].  The call
    is made for every pair: a path that holds a NUL character, which
    [Path.rename] refuses with a [ValueError] before the call, is left
    out. *)
Definition rename_one (original new : str) (fs : FS) : result unit * FS :=
  let original_path := Path original in
  let new_file_name := new ++ suffix original_path in
  let new_path := joinpath (parent original_path) new_file_name in
  match os_rename (path_str original_path) (path_str new_path) fs with
  | inr fs' => (Ok tt, fs')
  | inl e =>
      (Raise (OSError {| errno := e;
                         filename := path_str original_path;
                         filename2 := path_str new_path |}), fs)
  end.

Fixpoint rename_loop (pairs : list (str * str)) (fs : FS) : result unit * FS :=
  match pairs with
  | [] => (Ok tt, fs)
  | (original, new) :: rest =>
      match rename_one original new fs with
      | (Ok _, fs') => rename_loop rest fs'
      | (Raise e, fs') => (Raise e, fs')
      end
  end.

(** The first new name is discarded when it is empty. *)
Definition discard_first_empty (new_names : list str) : list str :=
  match new_names with
  | [] :: rest => rest
  | _ => new_names
  end.

Definition rename_files (original_files new_names : list str) (fs : FS)
  : result unit * FS :=
  let new_names := discard_first_empty new_names in
  if bool_decide (length original_files <> length new_names) then
    (Raise (ValueError count_mismatch_message), fs)
  else rename_loop (zip original_files new_names) fs.
End RenameExecutor.

(** A small file system for examples: the set of the paths that exist.
    Renaming a path that does not exist fails with [ENOENT]; otherwise
    the source disappears and the destination exists. *)
Definition ENOENT : Z := 2.

Definition flat_rename (src dst : str) (fs : list str) : Z + list str :=
  if bool_decide (src ∈ fs)
  then inr (dst :: filter (fun p => p <> src /\ p <> dst) fs)
  else inl ENOENT.

(** ** [excel_parser.generate_formatted_names] *)

(** A cell of the table: text, an integer or a float. *)
Inductive value :=
| VStr (s : str)
| VInt (n : Z)
| VFloat (f : spec_float).

(** A row maps column names to cells; a table is its column names and
    its rows, in the order of the spreadsheet. *)
Record DataFrame := {
  columns : list str;
  rows : list (gmap str value)
}.

(** [f.is_integer()] *)
Definition is_integer (f : spec_float) : bool :=
  match f with
  | S754_zero _ => true
  | S754_finite _ m e =>
      if 0 <=? e then true else Z.pos m mod 2 ^ (- e) =? 0
  | S754_infinity _ | S754_nan => false
  end.

(** [int(f)] for a float that is an integer. *)
Definition int_of_float (f : spec_float) : Z :=
  match f with
  | S754_finite s m e =>
      let a := if 0 <=? e then Z.pos m * 2 ^ e else Z.pos m / 2 ^ (- e) in
      if s then - a else a
  | _ => 0
  end.

Section NameGenerator.
(** [str(f)] for a float; Python prints the shortest decimal that
    reads back as [f]. *)
Variable float_repr : spec_float -> str.

(** [str(value)] *)
Definition str_of_value (v : value) : str :=
  match v with
  | VStr s => s
  | VInt n => str_of_int n
  | VFloat f => float_repr f
  end.

(** The text put in place of a field name: a float that is an integer
    is turned into that integer first, and the text is stripped. *)
Definition value_str (v : value) : str :=
  let v :=
    match v with
    | VFloat f => if is_integer f then VInt (int_of_float f) else v
    | _ => v
    end in
  strip (str_of_value v).

(** [row[col]] *)
Definition getitem (row : gmap str value) (col : str) : result value :=
  match row !! col with
  | Some v => Ok v
  | None => Raise (KeyError col)
  end.

(** The inner loop over the columns. *)
Fixpoint substitute (row : gmap str value) (cols : list str) (temp_name : str)
  : result str :=
  match cols with
  | [] => Ok temp_name
  | col :: cols' =>
      v ← getitem row col;
      substitute row cols' (replace temp_name col (value_str v))
  end.

Definition generate_formatted_names
    (fl : flavour) (df : DataFrame) (cols : list str) (format_string : str)
  : result (list str) :=
  let base_string := (splitext fl format_string).1 in
  for_each (fun row => substitute row cols base_string) (rows df).
End NameGenerator.

(** ** [gui_drag_and_drop]: the template builder *)

Definition ALLOWED_CHARS : str := lit "-_,; ".

Definition CELL_WIDTH : Z := 120.

(** A draggable label: its text and the index it was created with,
    which tells apart two labels with the same text. *)
Record DraggableLabel := {
  text : str;
  pair_index : nat
}.

Global Instance DraggableLabel_eq_dec : EqDecision DraggableLabel.
Proof. solve_decision. Defined.

(** The builder window: the labels in their current order, the text of
    the entries (one fewer than the labels), the extension, and the
    grid column of each label. *)
Record DragAndDropFixedInputs := {
  labels : list DraggableLabel;
  entries : list str;
  extension : str;
  grid : list (DraggableLabel * Z);
  final_filename : option str
}.

(** The window as created for [words] and [extension]. *)
Definition new_builder (words : list str) (ext : str) : DragAndDropFixedInputs :=
  let lbls := imap (fun i w => {| text := w; pair_index := i |}) words in
  {| labels := lbls;
     entries := replicate (length words - 1)%nat [];
     extension := if startswith ext (lit ".") then ext else lit "." ++ ext;
     grid := imap (fun i lbl => (lbl, Z.of_nat i * 2)) lbls;
     final_filename := None |}.

(** The check run on the text of an entry at every edit. *)
Definition validate_input (new_value : str) : bool :=
  if bool_decide (new_value = []) then true
  else forallb (fun ch => char_in ch ALLOWED_CHARS) new_value.

(** An edit that would leave [new_value] in entry [i]: the entry takes
    it only when the check accepts it. *)
Definition edit_entry (i : nat) (new_value : str) (b : DragAndDropFixedInputs)
  : DragAndDropFixedInputs :=
  if validate_input new_value then
    {| labels := labels b;
       entries := <[i := new_value]> (entries b);
       extension := extension b;
       grid := grid b;
       final_filename := final_filename b |}
  else b.

(** [round(a / b)] for integers [a] and [b > 0]: the nearest integer,
    a tie going to the even one.  (The quotient of the source is a
    float; for pixel coordinates it rounds as the exact quotient.) *)
Definition round_div (a b : Z) : Z :=
  let q := a / b in
  let r := a mod b in
  if 2 * r <? b then q
  else if b <? 2 * r then q + 1
  else if Z.even q then q else q + 1.

(** [l.remove(x)]: the first element equal to [x] goes. *)
Fixpoint list_remove {A} `{EqDecision A} (x : A) (l : list A) : list A :=
  match l with
  | [] => []
  | y :: l' => if decide (x = y) then l' else y :: list_remove x l'
  end.

(** [l.insert(i, x)] for [i >= 0]: past the end, [x] is appended. *)
Definition list_insert_at {A} (i : nat) (x : A) (l : list A) : list A :=
  take i l ++ x :: drop i l.

(** The slot a drop position falls on. *)
Definition target_index (n : nat) (drop_x : Z) : Z :=
  let target_index := round_div drop_x (CELL_WIDTH * 2) in
  Z.max 0 (Z.min target_index (Z.of_nat n - 1)).

Definition regrid (lbls : list DraggableLabel) : list (DraggableLabel * Z) :=
  imap (fun i lbl => (lbl, Z.of_nat i * 2)) lbls.

Definition reorder_label (b : DragAndDropFixedInputs) (label : DraggableLabel)
    (drop_x : Z) : DragAndDropFixedInputs :=
  let target_index := target_index (length (labels b)) drop_x in
  let lbls :=
    if bool_decide (label ∈ labels b) then list_remove label (labels b)
    else labels b in
  let lbls := list_insert_at (Z.to_nat target_index) label lbls in
  {| labels := lbls;
     entries := entries b;
     extension := extension b;
     grid := regrid lbls;
     final_filename := final_filename b |}.

(** The loop of [build_filename], from index [i] on. *)
Fixpoint build_from (i : nat) (lbls : list DraggableLabel) (ents : list str) : str :=
  match lbls with
  | [] => []
  | label :: rest =>
      let label_text := text label in
      let entry_text := default [] (ents !! i) in
      label_text ++ entry_text ++ build_from (S i) rest ents
  end.

Definition build_filename (b : DragAndDropFixedInputs) : str :=
  build_from 0 (labels b) (entries b) ++ extension b.

(** [on_accept]: the file name is kept when the user confirms it. *)
Definition on_accept (confirmed : bool) (b : DragAndDropFixedInputs)
  : DragAndDropFixedInputs :=
  let final_name := build_filename b in
  if confirmed then
    {| labels := labels b;
       entries := entries b;
       extension := extension b;
       grid := grid b;
       final_filename := Some final_name |}
  else b.

(** ** [gui_batch_renamer]: the wizard *)

(** The character class [[\w\-. ]] of the format check. *)
Definition format_class (c : ascii) : bool :=
  py_isalnum c || eqc c "_" || eqc c "-" || eqc c "." || eqc c " ".

Definition LF : ascii := ascii_of_N 10.

(** [match_class_plus matched s] reads [s] with [[...]+$]; [matched]
    tells that a character of the class has been read already.  The
    class is taken as far as it goes; then [$] needs the end of the
    text, or a line feed that ends it. *)
Fixpoint match_class_plus (matched : bool) (s : str) : bool :=
  match s with
  | [] => matched
  | c :: s' =>
      if format_class c then match_class_plus true s'
      else matched && eqc c LF && bool_decide (s' = [])
  end.

(** [re.match(r"^[\w\-. ]+$", format_str)] as a truth value. *)
Definition format_matches (format_str : str) : bool :=
  match_class_plus false format_str.

Inductive button_state := NORMAL | DISABLED.

Global Instance button_state_eq_dec : EqDecision button_state.
Proof. solve_decision. Defined.

Definition DIRECTORY_DEFAULT : str := lit "No folder selected".
Definition EXCEL_DEFAULT : str := lit "No file selected".
Definition VALID_EXTENSIONS : list str := [lit ".xls"; lit ".xlsx"].

(** The method bound to the main button. *)
Inductive command :=
| CmdSelectDirectory
| CmdLoadOriginalNames
| CmdSelectExcelFile
| CmdShowItemSelector
| CmdShowFilenameSelector
| CmdStartRenaming.

(** The fields of [Application] that the wizard logic reads and writes,
    with the state of the two pager buttons and of the main button. *)
Record Application := MkApp {
  directory_path : str;
  excel_file_path : str;
  original_files_list : list str;
  dataframe : option DataFrame;
  new_names_list : list str;
  available_options : list str;
  selected_options : list str;
  extension_from_files : str;
  final_filename_format : str;
  current_page_index : Z;
  prev_button : button_state;
  next_button : button_state;
  button_command : command;
  button : button_state
}.

(** Assignments to the fields. *)
Definition set_directory_path (v : str) (app : Application) : Application :=
  let 'MkApp _ ep fl df nn ao so ef ff ci pb nb bc bs := app in
  MkApp v ep fl df nn ao so ef ff ci pb nb bc bs.

Definition set_excel_file_path (v : str) (app : Application) : Application :=
  let 'MkApp dp _ fl df nn ao so ef ff ci pb nb bc bs := app in
  MkApp dp v fl df nn ao so ef ff ci pb nb bc bs.

Definition set_files (files : list str) (ext : str) (app : Application) : Application :=
  let 'MkApp dp ep _ df nn ao so _ ff ci pb nb bc bs := app in
  MkApp dp ep files df nn ao so ext ff ci pb nb bc bs.

Definition set_extension (ext : str) (app : Application) : Application :=
  let 'MkApp dp ep fl df nn ao so _ ff ci pb nb bc bs := app in
  MkApp dp ep fl df nn ao so ext ff ci pb nb bc bs.

Definition set_dataframe (d : DataFrame) (options : list str) (app : Application)
  : Application :=
  let 'MkApp dp ep fl _ nn _ so ef ff ci pb nb bc bs := app in
  MkApp dp ep fl (Some d) nn options so ef ff ci pb nb bc bs.

Definition set_new_names (l : list str) (app : Application) : Application :=
  let 'MkApp dp ep fl df _ ao so ef ff ci pb nb bc bs := app in
  MkApp dp ep fl df l ao so ef ff ci pb nb bc bs.

Definition set_selected_options (l : list str) (app : Application) : Application :=
  let 'MkApp dp ep fl df nn ao _ ef ff ci pb nb bc bs := app in
  MkApp dp ep fl df nn ao l ef ff ci pb nb bc bs.

Definition set_final_filename_format (v : str) (app : Application) : Application :=
  let 'MkApp dp ep fl df nn ao so ef _ ci pb nb bc bs := app in
  MkApp dp ep fl df nn ao so ef v ci pb nb bc bs.

Definition set_page (i : Z) (app : Application) : Application :=
  let 'MkApp dp ep fl df nn ao so ef ff _ pb nb bc bs := app in
  MkApp dp ep fl df nn ao so ef ff i pb nb bc bs.

Definition set_pager_buttons (p n : button_state) (app : Application) : Application :=
  let 'MkApp dp ep fl df nn ao so ef ff ci _ _ bc bs := app in
  MkApp dp ep fl df nn ao so ef ff ci p n bc bs.

Definition set_command (c : command) (app : Application) : Application :=
  let 'MkApp dp ep fl df nn ao so ef ff ci pb nb _ bs := app in
  MkApp dp ep fl df nn ao so ef ff ci pb nb c bs.

(** [_set_loading_state]: the main button is disabled while loading. *)
Definition set_loading_state (is_loading : bool) (app : Application) : Application :=
  let 'MkApp dp ep fl df nn ao so ef ff ci pb nb bc _ := app in
  MkApp dp ep fl df nn ao so ef ff ci pb nb bc (if is_loading then DISABLED else NORMAL).

(** [len(self.pages)] *)
Definition pages_count : Z := 4.

(** The window as [__init__] leaves it: stage 1 is shown, both pager
    buttons are disabled. *)
Definition initial_application : Application :=
  {| directory_path := DIRECTORY_DEFAULT;
     excel_file_path := EXCEL_DEFAULT;
     original_files_list := [];
     dataframe := None;
     new_names_list := [];
     available_options := [];
     selected_options := [];
     extension_from_files := [];
     final_filename_format := [];
     current_page_index := 0;
     prev_button := DISABLED;
     next_button := DISABLED;
     button_command := CmdSelectDirectory;
     button := NORMAL |}.

(** [bool(l)] for a list or a string *)
Definition nonempty {A} (l : list A) : bool :=
  match l with [] => false | _ :: _ => true end.

Definition is_stage_ready (app : Application) : bool :=
  if current_page_index app =? 0 then
    bool_decide (directory_path app <> DIRECTORY_DEFAULT)
    && (1 <? Z.of_nat (length (original_files_list app)))
  else if current_page_index app =? 1 then
    bool_decide (excel_file_path app <> EXCEL_DEFAULT)
    && nonempty (selected_options app)
  else if current_page_index app =? 2 then
    nonempty (final_filename_format app)
  else false.

Definition get_prev_button_state (app : Application) : button_state :=
  if 0 <? current_page_index app then NORMAL else DISABLED.

Definition get_next_button_state (app : Application) : button_state :=
  if is_stage_ready app then NORMAL else DISABLED.

Definition update_buttons (app : Application) : Application :=
  set_pager_buttons (get_prev_button_state app) (get_next_button_state app) app.

(** [self.pages[i]()]: showing a stage binds the main button. *)
Definition show_page (i : Z) (app : Application) : Application :=
  if i =? 0 then set_command CmdSelectDirectory app
  else if i =? 1 then set_command CmdSelectExcelFile app
  else if i =? 2 then set_command CmdShowFilenameSelector app
  else set_command CmdStartRenaming app.

Definition change_page (direction : Z) (app : Application) : Application :=
  let new_index := current_page_index app + direction in
  if (0 <=? new_index) && (new_index <? pages_count)
  then
    let app := set_page new_index app in
    let app := update_buttons app in
    show_page (current_page_index app) app
  else app.

(** What [start_renaming] tells the user. *)
Inductive report :=
| MissingColumns (message : str)
| InvalidCharacters
| NoNames
| Renamed
| Failed (e : exn).

(** An answer to the question whether to split a single PDF, with the
    answer to the question for the pages per file. *)
Inductive split_dialog :=
| SplitCancelled
| SplitConfirmed (pages_per_chunk : option Z).

(** The dialogs that follow a click on the main button, as the user
    answers them. *)
Inductive dialogs :=
| DirectoryDialogs (folder : str) (splits : list split_dialog)
| SplitDialogs (splits : list split_dialog)
| FileDialog (file_path : str)
| ItemSelector (selected_items : list str)
| FilenameSelector (final_filename : option str)
| NoDialogs.

Inductive event :=
| ClickPrevious
| ClickNext
| ClickButton (answers : dialogs).

(** [os.path.join(a, b)] *)
Definition path_join (a b : str) : str :=
  if startswith b (lit "/") then b
  else if negb (nonempty a) || startswith (rev a) (lit "/") then a ++ b
  else a ++ lit "/" ++ b.

Section Wizard.
(** The world outside the program: the file system as discovery reads
    it, access rights, the PDF splitter, the spreadsheet reader and the
    [rename] system call. *)
Context {W : Type}.
Variable fs_view : W -> FsView.
Variable writable : W -> str -> bool.
Variable readable : W -> str -> bool.
Variable split_pdf : str -> str -> Z -> W -> bool * W.
Variable read_excel : W -> str -> result DataFrame.
Variable os_rename : str -> str -> W -> Z + W.
Variable float_repr : spec_float -> str.
Variable fl : flavour.

(** The end of [load_original_names] when no split is made. *)
Definition files_loaded (app : Application) : Application :=
  if nonempty (original_files_list app) && nonempty (extension_from_files app) then
    let ext := (splitext fl (default [] (head (original_files_list app)))).2 in
    let app := set_extension ext app in
    let app := set_loading_state false app in
    let app := set_command CmdSelectDirectory app in
    update_buttons app
  else
    let app := set_loading_state false app in
    set_command CmdLoadOriginalNames app.

(** [load_original_names]; [splits] answers the split dialogs of this
    call and of the calls it makes after a split.  There is no result
    when a dialog is left without an answer. *)
Fixpoint load_original_names (splits : list split_dialog) (app : Application) (w : W)
  : option (Application * W) :=
  let app := set_loading_state true app in
  match get_file_paths_and_extension (fs_view w) (directory_path app) [lit ".pdf"] with
  | Raise _ => Some (set_loading_state false app, w)
  | Ok (files, ext) =>
      let app := set_files files ext app in
      if bool_decide (length files = 1%nat) && bool_decide (lower ext = lit ".pdf") then
        match splits with
        | [] => None
        | SplitCancelled :: _ =>
            let app := set_directory_path DIRECTORY_DEFAULT app in
            let app := set_files [] [] app in
            Some (set_loading_state false app, w)
        | SplitConfirmed None :: _ => Some (files_loaded app, w)
        | SplitConfirmed (Some pages_per_chunk) :: rest =>
            let output_folder := path_join (directory_path app) (lit "split") in
            let app := set_directory_path output_folder app in
            let '(success, w') :=
              split_pdf (default [] (head files)) output_folder pages_per_chunk w in
            if success then load_original_names rest app w'
            else Some (app, w')
        end
      else Some (files_loaded app, w)
  end.

(** [select_directory]; an empty [folder] is a cancelled dialog. *)
Definition select_directory (folder : str) (splits : list split_dialog)
    (app : Application) (w : W) : option (Application * W) :=
  if negb (nonempty folder) then Some (app, w)
  else if negb (writable w folder) then Some (app, w)
  else
    let app := set_directory_path folder app in
    let app := update_buttons app in
    load_original_names splits app w.

(** [excel_parser.load_excel_dataframe] *)
Definition load_excel_dataframe (w : W) (excel_path : str)
  : result (DataFrame * list str) :=
  let excel_file := Path excel_path in
  if negb (fs_exists (fs_view w) (path_str excel_file)) then
    Raise (FileNotFoundError (lit "File not found: " ++ path_str excel_file))
  else
    df ← read_excel w (path_str excel_file);
    Ok (df, columns df).

(** [df.empty] *)
Definition df_empty (df : DataFrame) : bool :=
  negb (nonempty (rows df)) || negb (nonempty (columns df)).

Definition load_dataframe (app : Application) (w : W) : Application :=
  let app := set_loading_state true app in
  match load_excel_dataframe w (excel_file_path app) with
  | Raise _ => set_loading_state false app
  | Ok (df, options) =>
      let app := set_dataframe df options app in
      if nonempty options && negb (df_empty df) then
        set_command CmdShowItemSelector (set_loading_state false app)
      else set_loading_state false app
  end.

Definition select_excel_file (file_path : str) (app : Application) (w : W)
  : Application :=
  if negb (nonempty file_path) then app
  else
    let ext := (splitext fl (lower file_path)).2 in
    if bool_decide (ext ∉ VALID_EXTENSIONS) then app
    else if negb (readable w file_path) then app
    else
      let app := set_excel_file_path file_path app in
      let app := update_buttons app in
      load_dataframe app w.

(** [_process_selection] *)
Definition process_selection (selected_items : list str) (app : Application)
  : Application :=
  update_buttons (set_selected_options selected_items app).

(** [_process_drag_and_drop] *)
Definition process_drag_and_drop (final_filename : option str) (app : Application)
  : Application :=
  match final_filename with
  | Some (c :: f) => update_buttons (set_final_filename_format (c :: f) app)
  | _ => update_buttons (set_final_filename_format [] app)
  end.

(** The table, or the [AttributeError] of using [None] as one. *)
Definition loaded (app : Application) : result DataFrame :=
  match dataframe app with
  | Some df => Ok df
  | None => Raise AttributeError
  end.

(** The list of the selected columns that the table does not have;
    the table is only looked at when a column is selected. *)
Definition missing_columns (app : Application) : result (list str) :=
  match selected_options app with
  | [] => Ok []
  | _ :: _ =>
      df ← loaded app;
      Ok (filter (fun col => col ∉ columns df) (selected_options app))
  end.

Definition missing_columns_message (missing : list str) : str :=
  lit "The following columns were not found in the Excel file: "
  ++ join (lit ", ") missing.

(** [start_renaming]; an exception of any step is caught and shown.
    (The main button is enabled again on every way out; that part of
    the state is set by the caller below.) *)
Definition start_renaming (app : Application) (fs : W)
  : report * Application * W :=
  match missing_columns app with
  | Raise e => (Failed e, app, fs)
  | Ok missing =>
      if nonempty missing then
        (MissingColumns (missing_columns_message missing), app, fs)
      else
        let format_str := final_filename_format app in
        if negb (format_matches format_str) then (InvalidCharacters, app, fs)
        else
          match df ← loaded app;
                generate_formatted_names float_repr fl df
                  (selected_options app) format_str with
          | Raise e => (Failed e, app, fs)
          | Ok names =>
              let app := set_new_names names app in
              if negb (nonempty names) then (NoNames, app, fs)
              else
                match rename_files os_rename (original_files_list app) names fs with
                | (Ok _, fs') => (Renamed, app, fs')
                | (Raise e, fs') => (Failed e, app, fs')
                end
          end
  end.

(** A click on the main button runs the bound method when the button is
    enabled and the dialogs answered are those of that method.  The
    method is run to its end: the selector and the builder, windows
    that the method opens and waits for while the main window stays
    live, are closed before the next click is taken. *)
Definition click_button (answers : dialogs) (app : Application) (w : W)
  : option (Application * W) :=
  match button app with
  | DISABLED => Some (app, w)
  | NORMAL =>
      match button_command app, answers with
      | CmdSelectDirectory, DirectoryDialogs folder splits =>
          select_directory folder splits app w
      | CmdLoadOriginalNames, SplitDialogs splits =>
          load_original_names splits app w
      | CmdSelectExcelFile, FileDialog file_path =>
          Some (select_excel_file file_path app w, w)
      | CmdShowItemSelector, ItemSelector selected_items =>
          Some (process_selection selected_items app, w)
      | CmdShowFilenameSelector, FilenameSelector final_filename =>
          Some (process_drag_and_drop final_filename app, w)
      | CmdStartRenaming, NoDialogs =>
          let '(_, app', w') := start_renaming app w in
          Some (set_loading_state false app', w')
      | _, _ => None
      end
  end.

(** The commands of the two pager buttons; a disabled button does not
    run its command. *)
Definition click_prev (app : Application) : Application :=
  if decide (prev_button app = NORMAL) then change_page (-1) app else app.

Definition click_next (app : Application) : Application :=
  if decide (next_button app = NORMAL) then change_page 1 app else app.

Definition step (e : event) (st : Application * W) : option (Application * W) :=
  match e with
  | ClickPrevious => Some (click_prev st.1, st.2)
  | ClickNext => Some (click_next st.1, st.2)
  | ClickButton answers => click_button answers st.1 st.2
  end.

Fixpoint run (events : list event) (st : Application * W) : option (Application * W) :=
  match events with
  | [] => Some st
  | e :: rest => st' ← step e st; run rest st'
  end.
End Wizard.

(** ** The template builder under the events of its window *)

(** What the user does in the builder window: drops a label at a
    position ([stop_drag] calls [reorder_label]), or makes an edit that
    would leave a text in an entry (the entry runs [validate_input]). *)
Inductive builder_event :=
| DropLabel (label : DraggableLabel) (drop_x : Z)
| KeyInEntry (i : nat) (new_value : str).

Definition builder_step (b : DragAndDropFixedInputs) (e : builder_event)
  : DragAndDropFixedInputs :=
  match e with
  | DropLabel label drop_x => reorder_label b label drop_x
  | KeyInEntry i new_value => edit_entry i new_value b
  end.

Definition builder_run (events : list builder_event) (b : DragAndDropFixedInputs)
  : DragAndDropFixedInputs :=
  fold_left builder_step events b.

(** ** The wizard and the builder window *)

(** [show_filename_selector]: the builder is made for the selected
    columns and the extension of the files; [events] is what the user
    does in its window, and [accepted] tells whether the window was
    closed by a confirmed Accept (a declined Accept leaves the window as
    it is, open).  [_process_drag_and_drop] then reads
    [final_filename]. *)
Definition show_filename_selector (events : list builder_event) (accepted : bool)
    (app : Application) : Application :=
  let selector := new_builder (selected_options app) (extension_from_files app) in
  let selector := builder_run events selector in
  let selector := if accepted then on_accept true selector else selector in
  process_drag_and_drop (final_filename selector) app.

(** ** [pdf_splitter.split_pdf] *)

Module PdfSplitter.

(** [len(range(start, stop, step))] for a step other than zero. *)
Definition range_length (start stop step : Z) : Z :=
  if 0 <? step then
    if start <? stop then (stop - start - 1) / step + 1 else 0
  else
    if stop <? start then (start - stop - 1) / (- step) + 1 else 0.

(** [range(start, stop, step)]; a step of zero raises [ValueError],
    which is [None] here. *)
Definition range (start stop step : Z) : option (list Z) :=
  if step =? 0 then None
  else Some (map (fun k => start + Z.of_nat k * step)
                 (seq 0 (Z.to_nat (range_length start stop step)))).

Section Splitter.
(** The world outside: whether a path exists, [os.makedirs], the pages
    of a PDF file ([None] when opening or reading it raises) and the
    writing of pages to a new PDF file.  The two that write tell
    whether they ended without an exception, and give the state they
    left. *)
Context {W Page : Type}.
Variable path_exists : W -> str -> bool.
Variable makedirs : str -> W -> bool * W.
Variable read_pages : W -> str -> option (list Page).
Variable write_pdf : str -> list Page -> W -> bool * W.

(** [reader.pages[j]]: a negative index counts from the end, an index
    out of range raises. *)
Definition page_at (pages : list Page) (j : Z) : option Page :=
  let n := Z.of_nat (length pages) in
  let j := if j <? 0 then j + n else j in
  if (0 <=? j) && (j <? n) then pages !! Z.to_nat j else None.

(** The pages that the inner loop adds to a writer. *)
Definition chunk_pages (pages : list Page) (i stop : Z) : option (list Page) :=
  js ← range i stop 1; mapM (page_at pages) js.

Definition output_filename (output_folder_path : str) (i pages_per_chunk : Z) : str :=
  path_join output_folder_path
    (lit "split_" ++ str_of_int (i / pages_per_chunk + 1) ++ lit ".pdf").

(** The outer loop over the first pages of the chunks; an exception
    ends it. *)
Fixpoint write_chunks (pages : list Page) (output_folder_path : str)
    (pages_per_chunk : Z) (starts : list Z) (w : W) : bool * W :=
  match starts with
  | [] => (true, w)
  | i :: rest =>
      let total_pages := Z.of_nat (length pages) in
      match chunk_pages pages i (Z.min (i + pages_per_chunk) total_pages) with
      | None => (false, w)
      | Some chunk =>
          match write_pdf (output_filename output_folder_path i pages_per_chunk)
                  chunk w with
          | (true, w') =>
              write_chunks pages output_folder_path pages_per_chunk rest w'
          | (false, w') => (false, w')
          end
      end
  end.

(** [split_pdf]: [True] when no step raised.  (The pages are read as
    the loop asks for them in the source; here they are read at once.) *)
Definition split_pdf (input_pdf_path output_folder_path : str) (pages_per_chunk : Z)
    (w : W) : bool * W :=
  let '(made, w) :=
    if negb (path_exists w output_folder_path) then makedirs output_folder_path w
    else (true, w) in
  if negb made then (false, w)
  else
    match read_pages w input_pdf_path with
    | None => (false, w)
    | Some pages =>
        match range 0 (Z.of_nat (length pages)) pages_per_chunk with
        | None => (false, w)
        | Some starts =>
            write_chunks pages output_folder_path pages_per_chunk starts w
        end
    end.

End Splitter.

End PdfSplitter.

(** ** [gui_paginated_selection.PaginatedSelector] *)

Module PaginatedSelection.

(** [math.ceil(a / b)] for integers; [None] stands for the
    [ZeroDivisionError] of a zero [b].  (The quotient of the source is
    a float; for list lengths it rounds as the exact quotient.) *)
Definition ceil_div (a b : Z) : option Z :=
  if b =? 0 then None else Some (- ((- a) / b)).

(** An index of a slice, brought into [0 .. n] as Python does. *)
Definition slice_index (n i : Z) : Z :=
  if i <? 0 then Z.max 0 (i + n) else Z.min i n.

(** [l[start:stop]] *)
Definition py_slice {A} (l : list A) (start stop : Z) : list A :=
  let n := Z.of_nat (length l) in
  let a := slice_index n start in
  let b := slice_index n stop in
  take (Z.to_nat (b - a)) (drop (Z.to_nat a) l).

(** The fields of the window that its methods read and write.
    [variables] holds the value of the [IntVar] of each option;
    [column_frames] holds, for each column frame, the checkbuttons in
    it, each with its option and its grid row; [closed] tells that the
    window is destroyed. *)
Record PaginatedSelector := MkSelector {
  all_options : list str;
  filtered_options : list str;
  num_columns : Z;
  items_per_page : Z;
  current_page : Z;
  selected_items : gset str;
  variables : gmap str Z;
  total_items : Z;
  total_pages : Z;
  column_frames : list (list (str * Z));
  closed : bool
}.

(** Assignments to the fields. *)
Definition set_filtered_options (l : list str) (s : PaginatedSelector)
  : PaginatedSelector :=
  let 'MkSelector ao _ nc ip cp si vs ti tp cf cl := s in
  MkSelector ao l nc ip cp si vs ti tp cf cl.

Definition set_current_page (p : Z) (s : PaginatedSelector) : PaginatedSelector :=
  let 'MkSelector ao fo nc ip _ si vs ti tp cf cl := s in
  MkSelector ao fo nc ip p si vs ti tp cf cl.

Definition set_selected_items (x : gset str) (s : PaginatedSelector)
  : PaginatedSelector :=
  let 'MkSelector ao fo nc ip cp _ vs ti tp cf cl := s in
  MkSelector ao fo nc ip cp x vs ti tp cf cl.

Definition set_variables (m : gmap str Z) (s : PaginatedSelector)
  : PaginatedSelector :=
  let 'MkSelector ao fo nc ip cp si _ ti tp cf cl := s in
  MkSelector ao fo nc ip cp si m ti tp cf cl.

Definition set_totals (items pages : Z) (s : PaginatedSelector) : PaginatedSelector :=
  let 'MkSelector ao fo nc ip cp si vs _ _ cf cl := s in
  MkSelector ao fo nc ip cp si vs items pages cf cl.

Definition set_column_frames (frames : list (list (str * Z))) (s : PaginatedSelector)
  : PaginatedSelector :=
  let 'MkSelector ao fo nc ip cp si vs ti tp _ cl := s in
  MkSelector ao fo nc ip cp si vs ti tp frames cl.

Definition set_closed (b : bool) (s : PaginatedSelector) : PaginatedSelector :=
  let 'MkSelector ao fo nc ip cp si vs ti tp cf _ := s in
  MkSelector ao fo nc ip cp si vs ti tp cf b.

Definition update_total_pages (s : PaginatedSelector) : option PaginatedSelector :=
  let total_items := Z.of_nat (length (filtered_options s)) in
  total_pages ← ceil_div total_items (items_per_page s);
  Some (set_totals total_items total_pages s).

(** The options of the current page. *)
Definition page_options (s : PaginatedSelector) : list str :=
  let start_index := (current_page s - 1) * items_per_page s in
  let end_index := current_page s * items_per_page s in
  py_slice (filtered_options s) start_index end_index.

(** [frames[col]] as a position: a negative index counts from the end,
    an index out of range raises [IndexError]. *)
Definition frame_index (n col : Z) : option nat :=
  let col := if col <? 0 then col + n else col in
  if (0 <=? col) && (col <? n) then Some (Z.to_nat col) else None.

(** The loop of [create_buttons] from [index] on; [None] stands for an
    exception: the [ZeroDivisionError] of [index // rows], the
    [IndexError] of [column_frames[col]] and the [KeyError] of
    [variables[opt]]. *)
Fixpoint place_options (rows index : Z) (page_options : list str)
    (s : PaginatedSelector) : option PaginatedSelector :=
  match page_options with
  | [] => Some s
  | opt :: rest =>
      if rows =? 0 then None
      else
        let col := index / rows in
        let row := index mod rows in
        s ← (if bool_decide (opt ∈ selected_items s) then
               _ ← variables s !! opt;
               Some (set_variables (<[opt := 1]> (variables s)) s)
             else Some s);
        c ← frame_index (Z.of_nat (length (column_frames s))) col;
        _ ← variables s !! opt;
        let frames :=
          alter (fun frame => frame ++ [(opt, row)]) c (column_frames s) in
        place_options rows (index + 1) rest (set_column_frames frames s)
  end.

Definition create_buttons (s : PaginatedSelector) : option PaginatedSelector :=
  let s := set_column_frames (map (fun _ => []) (column_frames s)) s in
  let page_options := page_options s in
  if negb (nonempty page_options) then Some s
  else
    rows ← ceil_div (Z.of_nat (length page_options)) (num_columns s);
    place_options rows 0 page_options s.

(** [__init__] *)
Definition init (options : list str) (items_per_page num_columns : Z)
  : option PaginatedSelector :=
  let s := {| all_options := options;
              filtered_options := options;
              num_columns := num_columns;
              items_per_page := items_per_page;
              current_page := 1;
              selected_items := ∅;
              variables := ∅;
              total_items := 0;
              total_pages := 0;
              column_frames := [];
              closed := false |} in
  s ← update_total_pages s;
  let s := set_column_frames (replicate (Z.to_nat num_columns) []) s in
  let s := set_variables
             (foldl (fun m opt => <[opt := 0]> m) ∅ options) s in
  create_buttons s.

Definition select_option (opt : str) (s : PaginatedSelector)
  : option PaginatedSelector :=
  v ← variables s !! opt;
  if negb (v =? 0) then Some (set_selected_items ({[opt]} ∪ selected_items s) s)
  else Some (set_selected_items (selected_items s ∖ {[opt]}) s).

Definition prev_page (s : PaginatedSelector) : option PaginatedSelector :=
  if 1 <? current_page s
  then create_buttons (set_current_page (current_page s - 1) s)
  else Some s.

Definition next_page (s : PaginatedSelector) : option PaginatedSelector :=
  if current_page s <? total_pages s
  then create_buttons (set_current_page (current_page s + 1) s)
  else Some s.

(** [filter_options]; [search_text] is the text of the search entry. *)
Definition filter_options (search_text : str) (s : PaginatedSelector)
  : option PaginatedSelector :=
  let query := lower search_text in
  let s :=
    if nonempty query then
      set_filtered_options
        (filter (fun opt => contains (lower opt) query = true) (all_options s)) s
    else set_filtered_options (all_options s) s in
  let s := set_current_page 1 s in
  s ← update_total_pages s;
  create_buttons s.

(** [accept]: the window is closed when the user confirms. *)
Definition accept (confirmed : bool) (s : PaginatedSelector) : PaginatedSelector :=
  if confirmed then set_closed true s else s.

Definition cancel (s : PaginatedSelector) : PaginatedSelector := set_closed true s.

(** The options of the checkbuttons on display. *)
Definition displayed (s : PaginatedSelector) : list str :=
  concat (map (map fst) (column_frames s)).

(** A click on the checkbutton of [opt], which is on display: the
    checkbutton switches its variable between 1 and 0 and then calls
    [select_option]. *)
Definition click_checkbutton (opt : str) (s : PaginatedSelector)
  : option PaginatedSelector :=
  if bool_decide (opt ∈ displayed s) then
    v ← variables s !! opt;
    let s := set_variables (<[opt := if v =? 1 then 0 else 1]> (variables s)) s in
    select_option opt s
  else Some s.

(** What the user does in the window. *)
Inductive selector_event :=
| ClickCheckbutton (opt : str)
| ClickPrevPage
| ClickNextPage
| KeyRelease (search_text : str)
| ClickAccept (confirmed : bool)
| ClickCancel.

(** A closed window takes no event. *)
Definition selector_step (e : selector_event) (s : PaginatedSelector)
  : option PaginatedSelector :=
  if closed s then Some s
  else
    match e with
    | ClickCheckbutton opt => click_checkbutton opt s
    | ClickPrevPage => prev_page s
    | ClickNextPage => next_page s
    | KeyRelease search_text => filter_options search_text s
    | ClickAccept confirmed => Some (accept confirmed s)
    | ClickCancel => Some (cancel s)
    end.

Fixpoint selector_run (events : list selector_event) (s : PaginatedSelector)
  : option PaginatedSelector :=
  match events with
  | [] => Some s
  | e :: rest => s' ← selector_step e s; selector_run rest s'
  end.

End PaginatedSelection.

(** [show_item_selector]: the selector is made for the columns of the
    table, with its default page size and columns; [wait_window]
    returns when the window is closed, so there is no result when the
    events leave it open, nor when a method of the selector raises.
    [list_of] is the order in which [list(selector.selected_items)]
    lists the set. *)
Definition show_item_selector (list_of : gset str -> list str)
    (events : list PaginatedSelection.selector_event) (app : Application)
  : option Application :=
  selector ← PaginatedSelection.init (available_options app) 20 3;
  selector ← PaginatedSelection.selector_run events selector;
  if PaginatedSelection.closed selector
  then Some (process_selection (list_of (PaginatedSelection.selected_items selector)) app)
  else None.

(* ================================================================== *)
(** * Part II: vocabulary of the statements                            *)
(* ================================================================== *)

(** [sub] occurs in [s]. *)
Definition occurs (sub s : str) : Prop := exists p q, s = p ++ sub ++ q.

(** Some non-empty end of [a] is a beginning of [b]. *)
Fixpoint has_border (a b : str) : bool :=
  match a with
  | [] => false
  | _ :: a' => startswith b a || has_border a' b
  end.

(** Neither text occurs in the other, and no non-empty end of one is a
    beginning of the other.  Both texts are then non-empty. *)
Definition overlap_free (a b : str) : bool :=
  negb (contains a b) && negb (contains b a)
  && negb (has_border a b) && negb (has_border b a).

(** A failure detail names the count [n] when the decimal text of [n]
    occurs in it. *)
Definition names_count (msg : str) (n : nat) : bool :=
  contains msg (str_of_int (Z.of_nat n)).

(** The file names that one pair of the rename loop hands to the
    system call. *)
Definition source (original : str) : str := path_str (Path original).

Definition destination_path (original new : str) : PurePath :=
  joinpath (parent (Path original)) (new ++ suffix (Path original)).

Definition destination (original new : str) : str :=
  path_str (destination_path original new).

Definition rename_plan (original_files new_names : list str) : list (str * str) :=
  zip_with (fun original new => (source original, destination original new))
           original_files new_names.

Section RenameVocabulary.
Context {FS : Type}.
Variable os_rename : str -> str -> FS -> Z + FS.

(** [renamed_through calls fs fs']: the system calls [calls], made one
    after the other from [fs], all succeed and leave [fs']. *)
Inductive renamed_through : list (str * str) -> FS -> FS -> Prop :=
| through_nil fs : renamed_through [] fs fs
| through_cons src dst calls fs fs1 fs2 :
    os_rename src dst fs = inr fs1 ->
    renamed_through calls fs1 fs2 ->
    renamed_through ((src, dst) :: calls) fs fs2.

(** The index of the first call of [calls] that fails, counting from
    [i]. *)
Fixpoint failing_index (calls : list (str * str)) (fs : FS) (i : nat) : option nat :=
  match calls with
  | [] => None
  | (src, dst) :: rest =>
      match os_rename src dst fs with
      | inr fs' => failing_index rest fs' (S i)
      | inl _ => Some i
      end
  end.
End RenameVocabulary.

(** Every occurrence of a non-empty [old] in [s], found from the left
    and without overlap, is replaced by [new]; the result is [r]. *)
Inductive replaces_all (old new : str) : str -> str -> Prop :=
| replaces_none s :
    ~ occurs old s -> replaces_all old new s s
| replaces_first p s r :
    (forall p' q', p ++ old ++ s = p' ++ old ++ q' -> (length p <= length p')%nat) ->
    replaces_all old new s r ->
    replaces_all old new (p ++ old ++ s) (p ++ new ++ r).

(** The same for any [old]: Python finds the empty text before every
    character and at the end. *)
Definition every_occurrence_replaced (old new s r : str) : Prop :=
  match old with
  | [] => r = new ++ flat_map (fun c => c :: new) s
  | _ :: _ => replaces_all old new s r
  end.

Section NameVocabulary.
Variable float_repr : spec_float -> str.

(** The text a cell is shown as in a name: a float without fractional
    part as its integer, anything else as [str] gives it, stripped. *)
Inductive cell_text : value -> str -> Prop :=
| text_whole_float f :
    is_integer f = true ->
    cell_text (VFloat f) (strip (str_of_int (int_of_float f)))
| text_other_float f :
    is_integer f = false ->
    cell_text (VFloat f) (strip (float_repr f))
| text_int n : cell_text (VInt n) (strip (str_of_int n))
| text_str s : cell_text (VStr s) (strip s).

(** [expands row cols t name]: [name] comes from [t] by replacing, for
    each field of [cols] in turn, every occurrence of its name by the
    text of the cell of [row]. *)
Inductive expands (row : gmap str value) : list str -> str -> str -> Prop :=
| expands_nil t : expands row [] t t
| expands_cons col cols v txt t t' name :
    row !! col = Some v ->
    cell_text v txt ->
    every_occurrence_replaced col txt t t' ->
    expands row cols t' name ->
    expands row (col :: cols) t name.

(** Every field of [cols] has a cell in [row]. *)
Definition has_fields (cols : list str) (row : gmap str value) : Prop :=
  Forall (fun col => is_Some (row !! col)) cols.

(** In the row, no name of a selected field overlaps the text of a cell
    of a selected field. *)
Definition separated (cols : list str) (row : gmap str value) : bool :=
  forallb (fun col =>
    forallb (fun col' =>
      match row !! col' with
      | Some v => overlap_free col (value_str float_repr v)
      | None => true
      end) cols) cols.
End NameVocabulary.

(** The float [2020.0] *)
Definition float_2020 : spec_float := S754_finite false 8884053952430080 (-42).

(** The allow-list as the specification words it: alphanumerics,
    hyphen, underscore, comma, semicolon, space. *)
Definition allow_listed (c : ascii) : bool :=
  py_isalnum c || char_in c (lit "-_,; ").

(** A three-way comparison that describes an order. *)
Class CmpOrder {A} (cmp : A -> A -> comparison) := {
  cmp_opp x y : cmp y x = CompOpp (cmp x y);
  cmp_eq_l x y z : cmp x y = Eq -> cmp x z = cmp y z;
  cmp_lt_trans x y z : cmp x y = Lt -> cmp y z = Lt -> cmp x z = Lt
}.

(** The Previous button shows what [_get_prev_button_state] says. *)
Definition prev_button_fresh (app : Application) : Prop :=
  prev_button app = get_prev_button_state app.

(** [keeps app app']: the stage is the same, and the Previous button
    has stayed right if it was. *)
Definition keeps (app app' : Application) : Prop :=
  current_page_index app' = current_page_index app
  /\ (prev_button_fresh app -> prev_button_fresh app').

(** A directory tree for examples: [/a] holds three PDF files and [/b]
    holds one. *)
Definition sample_view : FsView :=
  {| fs_exists := fun p => bool_decide (p ∈ [lit "/a"; lit "/b"]);
     fs_is_dir := fun p => bool_decide (p ∈ [lit "/a"; lit "/b"]);
     fs_listdir := fun p =>
       if bool_decide (p = lit "/a")
       then [lit "file10.pdf"; lit "file2.PDF"; lit "file1.pdf"]
       else if bool_decide (p = lit "/b") then [lit "only.pdf"] else [];
     fs_is_file := fun _ => true;
     fs_resolve := fun p => p |}.

(** A directory [/l] that holds the file [a.pdf] and a symbolic link
    [b.pdf] to it: both are regular files for [is_file], and both
    resolve to the path of [a.pdf]. *)
Definition linked_view : FsView :=
  {| fs_exists := fun p => bool_decide (p = lit "/l");
     fs_is_dir := fun p => bool_decide (p = lit "/l");
     fs_listdir := fun p =>
       if bool_decide (p = lit "/l") then [lit "a.pdf"; lit "b.pdf"] else [];
     fs_is_file := fun _ => true;
     fs_resolve := fun p =>
       if bool_decide (p = lit "/l/b.pdf") then lit "/l/a.pdf" else p |}.

(** Names outside ASCII: [e] with an acute accent, and [a] followed by
    the superscript two. *)
Definition e_acute_pdf : str := ascii_of_N 233 :: lit ".pdf".

Definition a_squared : str := [ascii_of_N 97; ascii_of_N 178].

(** A world for examples that never changes: [sample_view], every path
    accessible, a splitter and a [rename] that fail, and a spreadsheet
    reader that raises. *)
Definition sample_step (e : event) (st : Application * unit)
  : option (Application * unit) :=
  step (fun _ => sample_view) (fun _ _ => true) (fun _ _ => true)
       (fun _ _ _ w => (false, w)) (fun _ _ => Raise AttributeError)
       (fun _ _ _ => inl ENOENT) (fun _ => lit "nan") Posix e st.

Definition sample_run (events : list event) (st : Application * unit)
  : option (Application * unit) :=
  run (fun _ => sample_view) (fun _ _ => true) (fun _ _ => true)
      (fun _ _ _ w => (false, w)) (fun _ _ => Raise AttributeError)
      (fun _ _ _ => inl ENOENT) (fun _ => lit "nan") Posix events st.

(** ** Inputs of the examples *)

Definition three_files : list str :=
  [lit "/d/a.pdf"; lit "/d/b.pdf"; lit "/d/c.pdf"].

Definition no_float_text : spec_float -> str := fun _ => lit "nan".

Definition two_names : DataFrame :=
  {| columns := [lit "Name"];
     rows := [ {[ lit "Name" := VStr (lit "Alpha") ]};
               {[ lit "Name" := VStr (lit "Beta") ]} ] |}.

Definition year_and_name : DataFrame :=
  {| columns := [lit "Year"; lit "Name"];
     rows := [ <[ lit "Year" := VFloat float_2020 ]>
                 {[ lit "Name" := VStr (lit "Alpha") ]} ] |}.

Definition year_and_nina : DataFrame :=
  {| columns := [lit "Year"; lit "Name"];
     rows := [ <[ lit "Year" := VFloat float_2020 ]>
                 {[ lit "Name" := VStr (lit "Nina") ]} ] |}.

Definition three_selected : Application :=
  {| directory_path := lit "/d";
     excel_file_path := lit "/d/names.xlsx";
     original_files_list := [lit "/d/a.pdf"; lit "/d/b.pdf"];
     dataframe := Some two_names;
     new_names_list := [];
     available_options := [lit "Name"];
     selected_options := [lit "Year"; lit "Name"; lit "Code"];
     extension_from_files := lit ".pdf";
     final_filename_format := lit "Year-Name-Code.pdf";
     current_page_index := 3;
     prev_button := NORMAL;
     next_button := DISABLED;
     button_command := CmdStartRenaming;
     button := NORMAL |}.

(** ** Vocabulary of the further properties *)

(** The labels that an event drops are labels of the window. *)
Definition drops_within (lbls : list DraggableLabel) (e : builder_event) : Prop :=
  match e with
  | DropLabel label _ => label ∈ lbls
  | KeyInEntry _ _ => True
  end.

(** The stage on which each method is bound to the main button. *)
Definition stage_of_command (c : command) : Z :=
  match c with
  | CmdSelectDirectory | CmdLoadOriginalNames => 0
  | CmdSelectExcelFile | CmdShowItemSelector => 1
  | CmdShowFilenameSelector => 2
  | CmdStartRenaming => 3
  end.

(** What holds of the window at rest in every run from the initial
    one, as proved below. *)
Record wizard_invariant (app : Application) : Prop := {
  inv_stage : 0 <= current_page_index app < pages_count;
  inv_command : stage_of_command (button_command app) = current_page_index app;
  inv_selector : button_command app = CmdShowItemSelector -> dataframe app <> None;
  inv_selected : selected_options app <> [] -> dataframe app <> None;
  inv_next_1 : current_page_index app = 1 ->
               next_button app = get_next_button_state app;
  inv_next_2 : current_page_index app = 2 ->
               next_button app = get_next_button_state app;
  inv_past_1 : 2 <= current_page_index app ->
               selected_options app <> [] /\ excel_file_path app <> EXCEL_DEFAULT;
  inv_past_2 : 3 <= current_page_index app -> final_filename_format app <> []
}.

(** What the methods of the first stage leave alone. *)
Definition folder_frame (app app' : Application) : Prop :=
  current_page_index app' = current_page_index app
  /\ dataframe app' = dataframe app
  /\ selected_options app' = selected_options app
  /\ excel_file_path app' = excel_file_path app
  /\ final_filename_format app' = final_filename_format app
  /\ (button_command app' = button_command app
      \/ stage_of_command (button_command app') = 0).

Section SplitterVocabulary.
Context {W Page : Type}.
Variable path_exists : W -> str -> bool.
Variable makedirs : str -> W -> bool * W.
Variable write_pdf : str -> list Page -> W -> bool * W.

(** The world that [split_pdf] starts to write in. *)
Definition with_folder (output_folder_path : str) (w : W) : bool * W :=
  if negb (path_exists w output_folder_path) then makedirs output_folder_path w
  else (true, w).

(** Writing the files of a list in turn, up to the first that fails. *)
Fixpoint write_all (files : list (str * list Page)) (w : W) : bool * W :=
  match files with
  | [] => (true, w)
  | (file, pages) :: rest =>
      match write_pdf file pages w with
      | (true, w') => write_all rest w'
      | (false, w') => (false, w')
      end
  end.
End SplitterVocabulary.

(** The files that a split into chunks of [pages_per_chunk] pages is
    to write: [split_1.pdf], [split_2.pdf], ... with the pages of each. *)
Definition split_plan {Page} (pages : list Page) (output_folder_path : str)
    (pages_per_chunk : Z) : list (str * list Page) :=
  map (fun k =>
         (path_join output_folder_path
            (lit "split_" ++ str_of_int (Z.of_nat k + 1) ++ lit ".pdf"),
          take (Z.to_nat pages_per_chunk) (drop (k * Z.to_nat pages_per_chunk) pages)))
      (seq 0 (Z.to_nat ((Z.of_nat (length pages) + pages_per_chunk - 1)
                        / pages_per_chunk))).

(** What holds of a selector made for [options] with a page size
    [ipp] and [nc] columns, as proved below: the page shown is one of
    the pages there are (the first when nothing matches), the
    checkbuttons on display are those of the options of that page, and
    the variable of an option is 1 exactly when the option is
    selected. *)
Record selector_invariant (options : list str) (ipp nc : Z)
    (s : PaginatedSelection.PaginatedSelector) : Prop := {
  sel_all : PaginatedSelection.all_options s = options;
  sel_ipp : PaginatedSelection.items_per_page s = ipp;
  sel_nc : PaginatedSelection.num_columns s = nc;
  sel_frames : Z.of_nat (length (PaginatedSelection.column_frames s)) = nc;
  sel_filtered : PaginatedSelection.filtered_options s `sublist_of` options;
  sel_total_items :
    PaginatedSelection.total_items s
    = Z.of_nat (length (PaginatedSelection.filtered_options s));
  sel_total_pages :
    PaginatedSelection.total_pages s
    = (PaginatedSelection.total_items s + ipp - 1) / ipp;
  sel_page :
    1 <= PaginatedSelection.current_page s
      <= Z.max 1 (PaginatedSelection.total_pages s);
  sel_vars :
    forall o, is_Some (PaginatedSelection.variables s !! o) <-> o ∈ options;
  sel_ticks :
    forall o, o ∈ PaginatedSelection.selected_items s
              <-> PaginatedSelection.variables s !! o = Some 1;
  sel_displayed :
    PaginatedSelection.displayed s ≡ₚ PaginatedSelection.page_options s
}.

(** ** Further inputs of the examples *)

(** A directory [/m] that holds a PDF file and a text file. *)
Definition mixed_view : FsView :=
  {| fs_exists := fun p => bool_decide (p = lit "/m");
     fs_is_dir := fun p => bool_decide (p = lit "/m");
     fs_listdir := fun p =>
       if bool_decide (p = lit "/m") then [lit "a.pdf"; lit "b.txt"] else [];
     fs_is_file := fun _ => true;
     fs_resolve := fun p => p |}.

(** A world for examples in which every step can succeed: the folders
    of [sample_view], every other path existing as a file, a
    spreadsheet that reads as [two_names], and the files of a flat file
    system. *)
Definition office_view : FsView :=
  {| fs_exists := fun _ => true;
     fs_is_dir := fs_is_dir sample_view;
     fs_listdir := fs_listdir sample_view;
     fs_is_file := fun _ => true;
     fs_resolve := fun p => p |}.

Definition office_run (events : list event) (st : Application * list str)
  : option (Application * list str) :=
  run (fun _ => office_view) (fun _ _ => true) (fun _ _ => true)
      (fun _ _ _ w => (false, w)) (fun _ _ => Ok two_names)
      flat_rename (fun _ => lit "nan") Posix events st.

(** The clicks that lead from the initial window to the last stage. *)
Definition to_last_stage : list event :=
  [ClickButton (DirectoryDialogs (lit "/a") []);
   ClickNext;
   ClickButton (FileDialog (lit "/d/names.xlsx"));
   ClickButton (ItemSelector [lit "Name"]);
   ClickNext;
   ClickButton (FilenameSelector (Some (lit "Name.pdf")));
   ClickNext].

(** A document of five pages in a world that records the files written,
    for examples: the folder exists and every write succeeds. *)
Definition sample_split (pages_per_chunk : Z) : bool * list (str * list nat) :=
  PdfSplitter.split_pdf (fun _ _ => true) (fun _ w => (true, w))
    (fun _ _ => Some [1; 2; 3; 4; 5]%nat) (fun file pages w => (true, w ++ [(file, pages)]))
    (lit "/in/doc.pdf") (lit "/in/split") pages_per_chunk [].

(** A selector for examples: five options listed, pages of two. *)
Definition sample_selector : PaginatedSelection.PaginatedSelector :=
  {| PaginatedSelection.all_options :=
       [lit "A"; lit "B"; lit "C"; lit "D"; lit "E"];
     PaginatedSelection.filtered_options :=
       [lit "A"; lit "B"; lit "C"; lit "D"; lit "E"];
     PaginatedSelection.num_columns := 3;
     PaginatedSelection.items_per_page := 2;
     PaginatedSelection.current_page := 1;
     PaginatedSelection.selected_items := ∅;
     PaginatedSelection.variables := ∅;
     PaginatedSelection.total_items := 0;
     PaginatedSelection.total_pages := 0;
     PaginatedSelection.column_frames := [];
     PaginatedSelection.closed := false |}.

(** A table whose first row has a blank cell. *)
Definition blank_first : DataFrame :=
  {| columns := [lit "Name"];
     rows := [ {[ lit "Name" := VStr (lit " ") ]};
               {[ lit "Name" := VStr (lit "Beta") ]} ] |}.

(* ================================================================== *)
(** * Part III: properties                                             *)
(* ================================================================== *)

(** ** Text *)

Lemma eqc_true a b : eqc a b = true <-> a = b.
Proof. unfold eqc. by rewrite bool_decide_eq_true. Qed.

Lemma eqc_false a b : eqc a b = false <-> a <> b.
Proof. unfold eqc. by rewrite bool_decide_eq_false. Qed.

Lemma startswith_spec s p : startswith s p = true <-> exists q, s = p ++ q.
Proof.
  revert s. induction p as [|a p IH]; intros s; simpl.
  - split; [intros _; by exists s | done].
  - destruct s as [|b s].
    + split; [done | by intros [q Hq]].
    + rewrite andb_true_iff, eqc_true, IH. split.
      * intros [-> [q ->]]. by exists q.
      * intros [q [= -> ->]]. split; [done | by exists q].
Qed.

Lemma startswith_app p q : startswith (p ++ q) p = true.
Proof. apply startswith_spec. by exists q. Qed.

Lemma contains_spec s sub : contains s sub = true <-> occurs sub s.
Proof.
  induction s as [|x s IH]; simpl.
  - rewrite orb_false_r, startswith_spec. split.
    + intros [q Hq]. by exists [], q.
    + intros (p & q & H). destruct p; simpl in H.
      * by exists q.
      * done.
  - rewrite orb_true_iff, startswith_spec, IH. split.
    + intros [[q Hq]|(p & q & ->)].
      * by exists [], q.
      * by exists (x :: p), q.
    + intros (p & q & H). destruct p as [|y p]; simpl in H.
      * left. by exists q.
      * right. injection H as -> ->. by exists p, q.
Qed.

Lemma contains_false s sub : contains s sub = false <-> ~ occurs sub s.
Proof. rewrite <- contains_spec. by destruct (contains s sub). Qed.

Lemma contains_cons_true x s sub :
  contains s sub = true -> contains (x :: s) sub = true.
Proof. intros H. simpl. rewrite H. apply orb_true_r. Qed.

Lemma contains_app_true p s sub :
  contains s sub = true -> contains (p ++ s) sub = true.
Proof. induction p; simpl; [done|]. intros H. rewrite (IHp H). apply orb_true_r. Qed.

Lemma contains_startswith s sub :
  startswith s sub = true -> contains s sub = true.
Proof. intros H. destruct s; simpl in *; by rewrite H. Qed.

(** Jumping over the rest of an occurrence. *)
Lemma replace_from_skip old new x s :
  replace_from old new (length x) (x ++ s) = replace_from old new 0 s.
Proof. induction x; simpl; [by destruct s | done]. Qed.

(** The two equations of the scan. *)
Lemma replace_from_match old new s :
  old <> [] ->
  replace_from old new 0 (old ++ s) = new ++ replace_from old new 0 s.
Proof.
  destruct old as [|a old]; [done|]. intros _.
  change ((a :: old) ++ s) with (a :: (old ++ s)).
  assert (H : startswith (a :: (old ++ s)) (a :: old) = true)
    by apply (startswith_app (a :: old) s).
  cbn [replace_from]. rewrite H.
  f_equal. replace (length (a :: old) - 1)%nat with (length old) by (simpl; lia).
  apply replace_from_skip.
Qed.

Lemma replace_from_copy old new x s :
  startswith (x :: s) old = false ->
  replace_from old new 0 (x :: s) = x :: replace_from old new 0 s.
Proof. intros H. cbn [replace_from]. by rewrite H. Qed.

Lemma replace_from_replaces_all old new s :
  old <> [] -> replaces_all old new s (replace_from old new 0 s).
Proof.
  intros Hold. remember (length s) as n eqn:Hn. revert s Hn.
  induction n as [n IH] using lt_wf_ind. intros s ->.
  destruct s as [|x s1].
  - simpl. apply replaces_none. intros (p & q & H).
    destruct p; [by destruct old | done].
  - destruct (startswith (x :: s1) old) eqn:E.
    + apply startswith_spec in E as [q Hq]. rewrite Hq.
      rewrite replace_from_match by done.
      apply (replaces_first old new [] q).
      * intros p' q' _. simpl. lia.
      * apply (IH (length q)); [|done].
        apply (f_equal length) in Hq. rewrite length_app in Hq.
        destruct old; [done|]. simpl in *. lia.
    + rewrite replace_from_copy by done.
      assert (IHs : replaces_all old new s1 (replace_from old new 0 s1))
        by (apply (IH (length s1)); [simpl; lia | done]).
      remember (replace_from old new 0 s1) as r1 eqn:Hr. clear Hr.
      destruct IHs as [s Hno | p s r Hleft Hrest].
      * apply replaces_none. intros (p & q & H).
        destruct p as [|y p]; simpl in H.
        -- rewrite H, startswith_app in E. done.
        -- injection H as -> ->. apply Hno. by exists p, q.
      * apply (replaces_first old new (x :: p) s r); [|done].
        intros p' q' H. destruct p' as [|y p']; simpl in H.
        -- rewrite H, startswith_app in E. done.
        -- injection H as -> H. apply Hleft in H. simpl. lia.
Qed.

Lemma replace_every_occurrence s old new :
  every_occurrence_replaced old new s (replace s old new).
Proof.
  destruct old as [|a old]; simpl; [done|].
  by apply replace_from_replaces_all.
Qed.

(** The relation fixes the result. *)
Lemma replaces_all_functional old new s r1 r2 :
  old <> [] ->
  replaces_all old new s r1 -> replaces_all old new s r2 -> r1 = r2.
Proof.
  intros Hold H1. revert r2.
  induction H1 as [s Hno | p s r Hleft Hrest IH]; intros r2 H2.
  - inversion H2 as [|p' s' r' _ _ Es]; subst; [done|].
    exfalso. apply Hno. by exists p', s'.
  - remember (p ++ old ++ s) as t eqn:Et.
    destruct H2 as [t Hno | p' s' r' Hleft' Hrest'].
    + exfalso. apply Hno. subst. by exists p, s.
    + assert (Hlen : length p = length p').
      { apply Nat.le_antisymm.
        - by apply (Hleft p' s').
        - apply (Hleft' p s). done. }
      apply app_inj_1 in Et as [-> Et]; [|done].
      apply app_inv_head in Et as ->. f_equal. f_equal. by apply IH.
Qed.

(** The decimal text of a count starts with a digit. *)
Lemma str_of_count_head n :
  exists c rest, str_of_int (Z.of_nat n) = c :: rest /\ is_ascii_digit c = true.
Proof.
  unfold str_of_int. destruct (Z.of_nat n) as [|p|p] eqn:E; [by eexists _, _| |lia].
  simpl. destruct (Pos.to_uint p); by eexists _, _.
Qed.

(** A text without digits names no count. *)
Lemma names_count_no_digit msg n :
  forallb (fun c => negb (is_ascii_digit c)) msg = true ->
  names_count msg n = false.
Proof.
  intros Hmsg. unfold names_count. apply contains_false. intros (p & q & E).
  destruct (str_of_count_head n) as (c & rest & Hs & Hc). rewrite Hs in E.
  rewrite forallb_forall in Hmsg.
  assert (Hin : In c msg).
  { rewrite E. apply in_or_app. right. by left. }
  apply Hmsg in Hin. by rewrite Hc in Hin.
Qed.

(** ** The rename pass *)

Section RenameFacts.
Context {FS : Type}.
Variable os_rename : str -> str -> FS -> Z + FS.

Lemma rename_plan_zip original_files new_names :
  rename_plan original_files new_names =
  map (fun p => (source p.1, destination p.1 p.2)) (zip original_files new_names).
Proof.
  revert new_names.
  induction original_files as [|o files IH]; intros [|n names]; simpl; try done.
  by rewrite <- IH.
Qed.

Lemma rename_plan_lookup original_files new_names i original new :
  original_files !! i = Some original ->
  new_names !! i = Some new ->
  rename_plan original_files new_names !! i
  = Some (source original, destination original new).
Proof.
  intros Ho Hn. unfold rename_plan.
  rewrite lookup_zip_with, Ho. simpl. by rewrite Hn.
Qed.

Lemma rename_loop_through pairs fs fs' :
  renamed_through os_rename
    (map (fun p => (source p.1, destination p.1 p.2)) pairs) fs fs' ->
  rename_loop os_rename pairs fs = (Ok tt, fs').
Proof.
  revert fs. induction pairs as [|[o n] pairs IH]; intros fs H; simpl in *.
  - by inversion H.
  - inversion H as [|src dst calls f f1 f2 Hcall Hrest]; subst.
    unfold rename_one. fold (source o). fold (destination_path o n).
    fold (destination o n). rewrite Hcall. by apply IH.
Qed.

Lemma rename_loop_failure pairs k src dst e fs fs_k :
  map (fun p => (source p.1, destination p.1 p.2)) pairs !! k = Some (src, dst) ->
  renamed_through os_rename
    (take k (map (fun p => (source p.1, destination p.1 p.2)) pairs)) fs fs_k ->
  os_rename src dst fs_k = inl e ->
  rename_loop os_rename pairs fs
  = (Raise (OSError {| errno := e; filename := src; filename2 := dst |}), fs_k).
Proof.
  revert k fs. induction pairs as [|[o n] pairs IH]; intros k fs Hk Hpre Hfail.
  - by destruct k.
  - destruct k as [|k]; simpl in *.
    + inversion Hpre; subst. injection Hk as <- <-.
      unfold rename_one. fold (source o). fold (destination_path o n).
      fold (destination o n). by rewrite Hfail.
    + inversion Hpre as [|s d calls f f1 f2 Hcall Hrest]; subst.
      unfold rename_one. fold (source o). fold (destination_path o n).
      fold (destination o n). rewrite Hcall. by eapply IH.
Qed.

(** One entry at most is discarded, and only an empty first one. *)
Lemma discard_first_empty_cases new_names :
  discard_first_empty new_names = new_names
  \/ new_names = [] :: discard_first_empty new_names.
Proof. destruct new_names as [|[|c n] rest]; simpl; auto. Qed.

End RenameFacts.

(** ** Paths *)

(** No component of a split holds the separator. *)
Lemma split_on_no_sep c s x : x ∈ split_on c s -> c ∉ x.
Proof.
  revert x. induction s as [|y s IH]; intros x; simpl.
  - intros ->%list_elem_of_singleton. apply not_elem_of_nil.
  - destruct (eqc y c) eqn:E.
    + intros [->|H]%elem_of_cons; [apply not_elem_of_nil | by apply IH].
    + destruct (split_on c s) as [|h t] eqn:Es.
      * intros ->%list_elem_of_singleton.
        apply eqc_false in E. intros [->|[]%not_elem_of_nil]%elem_of_cons. done.
      * intros [->|H]%elem_of_cons.
        -- apply eqc_false in E.
           intros [->|Hin]%elem_of_cons; [done|].
           by apply (IH h); [left|].
        -- apply IH. by right.
Qed.

(** A text without the separator is its own single component. *)
Lemma split_on_single c s : c ∉ s -> split_on c s = [s].
Proof.
  induction s as [|y s IH]; intros H; simpl; [done|].
  apply not_elem_of_cons in H as [Hne Hs].
  destruct (eqc y c) eqn:E; [by apply eqc_true in E|].
  by rewrite (IH Hs).
Qed.

Lemma rfind_from_spec c s i acc :
  let r := rfind_from c s i acc in
  r = acc \/ (i <= r < i + Z.of_nat (length s)
              /\ s !! Z.to_nat (r - i) = Some c).
Proof.
  revert i acc. induction s as [|x s IH]; intros i acc; simpl; [by left|].
  destruct (IH (i + 1) (if eqc x c then i else acc)) as [H|[Hr Hl]].
  - rewrite H. destruct (eqc x c) eqn:E; [|by left].
    right. apply eqc_true in E as ->. split; [lia|].
    by replace (i - i) with 0 by lia.
  - right. split; [lia|].
    replace (Z.to_nat (rfind_from c s (i + 1) (if eqc x c then i else acc) - i))
      with (S (Z.to_nat (rfind_from c s (i + 1) (if eqc x c then i else acc) - (i + 1))))
      by lia.
    done.
Qed.

Lemma rfind_spec s c :
  0 <= rfind s c ->
  rfind s c < Z.of_nat (length s) /\ s !! Z.to_nat (rfind s c) = Some c.
Proof.
  intros H. unfold rfind in *.
  destruct (rfind_from_spec c s 0 (-1)) as [E|[Hr Hl]]; [lia|].
  split; [lia|]. by replace (rfind_from c s 0 (-1) - 0) with (rfind_from c s 0 (-1)) in Hl by lia.
Qed.

Lemma Path_parts_no_sep s x : x ∈ parts (Path s) -> "/"%char ∉ x.
Proof.
  simpl. intros [_ H]%list_elem_of_filter. by eapply split_on_no_sep.
Qed.

Lemma name_no_sep s : "/"%char ∉ name (Path s).
Proof.
  unfold name. destruct (parts (Path s)) as [|x l] eqn:E using rev_ind.
  - apply not_elem_of_nil.
  - rewrite last_last. apply (Path_parts_no_sep s). rewrite E.
    apply elem_of_app. right. by left.
Qed.

(** A non-empty suffix is a dot followed by at least one character, and
    holds no separator. *)
Lemma suffix_shape s :
  suffix (Path s) <> [] ->
  exists rest, suffix (Path s) = "."%char :: rest /\ rest <> []
               /\ "/"%char ∉ suffix (Path s).
Proof.
  unfold suffix.
  set (n := name (Path s)).
  destruct ((0 <? rfind n ".") && (rfind n "." <? Z.of_nat (length n) - 1)) eqn:E;
    [|done].
  intros _. apply andb_true_iff in E as [E1%Z.ltb_lt E2%Z.ltb_lt].
  destruct (rfind_spec n ".") as [Hlt Hl]; [lia|].
  set (i := Z.to_nat (rfind n ".")) in *.
  assert (Hd : drop i n = "."%char :: drop (S i) n) by by apply drop_S.
  exists (drop (S i) n). split; [done|]. split.
  - intros Hnil. apply (f_equal length) in Hnil.
    rewrite length_drop in Hnil. simpl in Hnil. lia.
  - intros Hin. apply (name_no_sep s). fold n.
    rewrite <- (take_drop i n). apply elem_of_app. by right.
Qed.

(** Such a suffix parses as one relative component. *)
Lemma Path_of_suffix rest :
  rest <> [] -> "/"%char ∉ ("."%char :: rest) ->
  Path ("."%char :: rest) = {| root := []; parts := ["."%char :: rest] |}.
Proof.
  intros Hne Hsep. unfold Path. f_equal.
  rewrite (split_on_single _ _ Hsep), filter_cons.
  rewrite decide_True; [done|]. split; [done|].
  destruct rest; [done|]. unfold lit. simpl. congruence.
Qed.

(** Joining a non-empty suffix to a directory gives a path of that
    directory whose name is the suffix. *)
Lemma joinpath_suffix s (dir : PurePath) :
  suffix (Path s) <> [] ->
  name (joinpath dir (suffix (Path s))) = suffix (Path s)
  /\ parent (joinpath dir (suffix (Path s))) = dir.
Proof.
  intros H. destruct (suffix_shape s H) as (rest & E & Hne & Hsep).
  rewrite E in *. unfold joinpath. rewrite (Path_of_suffix rest Hne Hsep). simpl.
  split.
  - unfold name. simpl. apply last_last.
  - unfold parent. simpl.
    destruct (parts dir ++ ["."%char :: rest]) eqn:Ep.
    + by destruct (parts dir).
    + rewrite <- Ep, removelast_last. by destruct dir.
Qed.

(** ** The rename pass: claims *)

Section RenameClaims.
Context {FS : Type}.
Variable os_rename : str -> str -> FS -> Z + FS.

(** A run of system calls either gets through all of them or stops at
    a first one that fails. *)
Lemma renamed_through_or_fails calls fs :
  (exists fs', renamed_through os_rename calls fs fs')
  \/ (exists k src dst e fs_k,
        calls !! k = Some (src, dst)
        /\ renamed_through os_rename (take k calls) fs fs_k
        /\ os_rename src dst fs_k = inl e).
Proof.
  revert fs. induction calls as [|[s d] calls IH]; intros fs.
  - left. exists fs. constructor.
  - destruct (os_rename s d fs) as [e|fs1] eqn:E.
    + right. exists 0%nat, s, d, e, fs.
      split; [done|]. split; [constructor|done].
    + destruct (IH fs1) as [[fs' H]|(k & src & dst & e & fs_k & Hk & Hpre & Hf)].
      * left. exists fs'. by econstructor.
      * right. exists (S k), src, dst, e, fs_k.
        split; [done|]. split; [|done]. simpl. by econstructor.
Qed.

(** C1 (as amended).  When, after an empty first new name has been
    discarded, the two lists differ in length, [rename_files] raises
    the [ValueError] of a count mismatch, whose detail is one fixed
    text for all counts and names no count at all, and the file system
    is left as it was: no system call is made, whatever [os_rename]
    is. *)
Theorem rename_files_count_mismatch original_files new_names fs :
  length original_files <> length (discard_first_empty new_names) ->
  rename_files os_rename original_files new_names fs
  = (Raise (ValueError count_mismatch_message), fs)
  /\ forall n, names_count count_mismatch_message n = false.
Proof.
  intros H. split.
  - unfold rename_files. by rewrite bool_decide_eq_true_2.
  - intros n. by apply names_count_no_digit.
Qed.

(** C7 (as amended).  For lists of equal length (after an empty first
    new name has been discarded) the pass makes one system call per
    positional pair, in order; the call for a pair renames the
    original path to (its parent) / (new name + its own suffix).  When
    all calls succeed the pass returns with the state they lead to.
    When the calls before index [k] succeed and the call at [k] fails,
    the pass raises the [OSError] of that call, which carries the
    error number and the source and destination of the failing pair
    (no index); the state is the one the calls before [k] led to, so no
    later pair is tried and nothing is rolled back.  One of the two
    cases always applies. *)
Theorem rename_files_in_order original_files new_names fs :
  length original_files = length (discard_first_empty new_names) ->
  let names := discard_first_empty new_names in
  let calls := rename_plan original_files names in
  length calls = length original_files
  /\ (forall i original new,
        original_files !! i = Some original -> names !! i = Some new ->
        calls !! i
        = Some (path_str (Path original),
                path_str (joinpath (parent (Path original))
                                   (new ++ suffix (Path original)))))
  /\ (forall fs',
        renamed_through os_rename calls fs fs' ->
        rename_files os_rename original_files new_names fs = (Ok tt, fs'))
  /\ (forall k src dst e fs_k,
        calls !! k = Some (src, dst) ->
        renamed_through os_rename (take k calls) fs fs_k ->
        os_rename src dst fs_k = inl e ->
        rename_files os_rename original_files new_names fs
        = (Raise (OSError {| errno := e; filename := src; filename2 := dst |}),
           fs_k))
  /\ ((exists fs', renamed_through os_rename calls fs fs')
      \/ (exists k src dst e fs_k,
            calls !! k = Some (src, dst)
            /\ renamed_through os_rename (take k calls) fs fs_k
            /\ os_rename src dst fs_k = inl e)).
Proof.
  intros Hlen names calls.
  assert (Hrf : rename_files os_rename original_files new_names fs
                = rename_loop os_rename (zip original_files names) fs).
  { unfold rename_files. fold names. by rewrite bool_decide_eq_false_2 by auto. }
  repeat split.
  - unfold calls, rename_plan. rewrite length_zip_with. unfold names. lia.
  - intros i original new Ho Hn. by apply rename_plan_lookup.
  - intros fs' H. rewrite Hrf. apply rename_loop_through.
    by rewrite <- rename_plan_zip.
  - intros k src dst e fs_k Hk Hpre Hf. rewrite Hrf.
    unfold calls in *. rewrite rename_plan_zip in Hk, Hpre.
    by eapply rename_loop_failure.
  - apply renamed_through_or_fails.
Qed.

(** C10.  Only an empty first new name is discarded.  An empty new
    name at a later position [S j] is kept (at index [j] or [S j] of
    the names used, as the first one was discarded or not), and the
    file paired with it is renamed to (its parent) / (its own suffix):
    the empty name is used as it is.  When that suffix is not empty,
    the destination has the suffix as its whole name and the parent
    of the original as its parent.  The pass makes exactly the calls
    of the plan that holds this destination. *)
Theorem rename_files_inner_empty_name original_files new_names j fs :
  new_names !! S j = Some [] ->
  length original_files = length (discard_first_empty new_names) ->
  let names := discard_first_empty new_names in
  let calls := rename_plan original_files names in
  (names = new_names \/ new_names = [] :: names)
  /\ exists i original,
       (i = j \/ i = S j)
       /\ names !! i = Some []
       /\ original_files !! i = Some original
       /\ calls !! i
          = Some (path_str (Path original),
                  path_str (joinpath (parent (Path original))
                                     (suffix (Path original))))
       /\ (suffix (Path original) <> [] ->
           name (joinpath (parent (Path original)) (suffix (Path original)))
           = suffix (Path original)
           /\ parent (joinpath (parent (Path original)) (suffix (Path original)))
              = parent (Path original))
       /\ (forall fs',
             renamed_through os_rename calls fs fs' ->
             rename_files os_rename original_files new_names fs = (Ok tt, fs')).
Proof.
  intros Hj Hlen names calls. split; [apply discard_first_empty_cases|].
  assert (Hi : exists i, (i = j \/ i = S j) /\ names !! i = Some []).
  { destruct (discard_first_empty_cases new_names) as [E|E]; fold names in E.
    - exists (S j). split; [by right|]. by rewrite E.
    - exists j. split; [by left|]. rewrite E in Hj. done. }
  destruct Hi as (i & Hij & Hn).
  assert (Hlt : (i < length original_files)%nat).
  { rewrite Hlen. by eapply lookup_lt_Some. }
  destruct (lookup_lt_is_Some_2 _ _ Hlt) as [original Ho].
  exists i, original. repeat split; try done.
  - unfold calls. rewrite (rename_plan_lookup _ _ i original [] Ho Hn).
    reflexivity.
  - by apply joinpath_suffix.
  - by apply joinpath_suffix.
  - intros fs' H. unfold rename_files. fold names.
    rewrite bool_decide_eq_false_2 by auto.
    apply rename_loop_through. by rewrite <- rename_plan_zip.
Qed.
End RenameClaims.

(** *** Concrete runs *)

(** C1, witness: three files and two names. *)
Lemma rename_files_count_mismatch_witness :
  rename_files flat_rename three_files [lit "x"; lit "y"] three_files
  = (Raise (ValueError count_mismatch_message), three_files).
Proof.
  apply (rename_files_count_mismatch flat_rename three_files [lit "x"; lit "y"]).
  simpl. lia.
Defined.

(** C1, counterexample to the claim as first stated: with three files
    and two names the failure detail names neither count. *)
Lemma rename_files_mismatch_detail_names_no_count :
  rename_files flat_rename three_files [lit "x"; lit "y"] three_files
  = (Raise (ValueError count_mismatch_message), three_files)
  /\ names_count count_mismatch_message 3 = false
  /\ names_count count_mismatch_message 2 = false.
Proof. by vm_compute. Qed.

(** C7, witness: the second of two renames fails; the first stays. *)
Lemma rename_files_in_order_witness :
  rename_files flat_rename [lit "/d/a.pdf"; lit "/d/b.pdf"] [lit "x"; lit "y"]
    [lit "/d/a.pdf"]
  = (Raise (OSError {| errno := ENOENT; filename := lit "/d/b.pdf";
                       filename2 := lit "/d/y.pdf" |}),
     [lit "/d/x.pdf"]).
Proof.
  destruct (rename_files_in_order flat_rename
              [lit "/d/a.pdf"; lit "/d/b.pdf"] [lit "x"; lit "y"]
              [lit "/d/a.pdf"] eq_refl) as (_ & _ & _ & H & _).
  apply (H 1%nat).
  - reflexivity.
  - eapply through_cons; [reflexivity | apply through_nil].
  - reflexivity.
Defined.

(** The same lists fail at index 1 from one state and at index 0 from
    another, with the same exception; and two orderings of the same
    pairs fail at different indices with the same exception. *)
Lemma rename_failure_same_exception :
  let files := [lit "/d/a.pdf"; lit "/d/a.pdf"] in
  let names := [lit "x"; lit "x"] in
  let e := OSError {| errno := ENOENT; filename := lit "/d/a.pdf";
                      filename2 := lit "/d/x.pdf" |} in
  (rename_files flat_rename files names [lit "/d/a.pdf"]).1 = Raise e
  /\ failing_index flat_rename (rename_plan files names) [lit "/d/a.pdf"] 0
     = Some 1%nat
  /\ (rename_files flat_rename files names []).1 = Raise e
  /\ failing_index flat_rename (rename_plan files names) [] 0 = Some 0%nat
  /\ (rename_files flat_rename [lit "/d/b.pdf"; lit "/d/a.pdf"]
        [lit "y"; lit "x"] [lit "/d/b.pdf"]).1 = Raise e
  /\ failing_index flat_rename
       (rename_plan [lit "/d/b.pdf"; lit "/d/a.pdf"] [lit "y"; lit "x"])
       [lit "/d/b.pdf"] 0 = Some 1%nat
  /\ (rename_files flat_rename [lit "/d/a.pdf"; lit "/d/b.pdf"]
        [lit "x"; lit "y"] [lit "/d/b.pdf"]).1 = Raise e
  /\ failing_index flat_rename
       (rename_plan [lit "/d/a.pdf"; lit "/d/b.pdf"] [lit "x"; lit "y"])
       [lit "/d/b.pdf"] 0 = Some 0%nat.
Proof. by vm_compute. Qed.

(** C7, counterexample to the claim as first stated: no reading of the
    exception that the pass raises gives the index of the pair that
    failed. *)
Lemma rename_failure_carries_no_index :
  ~ exists index_of : os_error -> nat,
      forall files names fs e fs',
        rename_files flat_rename files names fs = (Raise (OSError e), fs') ->
        failing_index flat_rename
          (rename_plan files (discard_first_empty names)) fs 0
        = Some (index_of e).
Proof.
  intros [index_of H].
  pose proof (H [lit "/d/a.pdf"; lit "/d/a.pdf"] [lit "x"; lit "x"]
                [lit "/d/a.pdf"] _ _ eq_refl) as H1.
  pose proof (H [lit "/d/a.pdf"; lit "/d/a.pdf"] [lit "x"; lit "x"]
                [] _ _ eq_refl) as H0.
  vm_compute in H1, H0. congruence.
Qed.

(** C10, witness: the second new name is empty. *)
Lemma rename_files_inner_empty_name_witness :
  let files := [lit "/d/a.pdf"; lit "/d/b.pdf"] in
  let new_names := [lit "x"; []] in
  new_names !! 1%nat = Some []
  /\ length files = length (discard_first_empty new_names)
  /\ exists i original,
       (i = 0 \/ i = 1)%nat
       /\ files !! i = Some original
       /\ rename_plan files (discard_first_empty new_names) !! i
          = Some (path_str (Path original),
                  path_str (joinpath (parent (Path original))
                                     (suffix (Path original)))).
Proof.
  intros files new_names. split; [reflexivity|]. split; [reflexivity|].
  destruct (rename_files_inner_empty_name flat_rename files new_names 0
              files eq_refl eq_refl)
    as (_ & i & original & Hi & _ & Ho & Hc & _).
  exists i, original. auto.
Defined.

(** *** Occurrences that survive a replacement *)

Lemma char_in_spec c s : char_in c s = true <-> c ∈ s.
Proof.
  unfold char_in. rewrite existsb_exists. split.
  - intros (x & Hx & ->%eqc_true). by apply list_elem_of_In.
  - intros H. exists c. split; [by apply list_elem_of_In | by apply eqc_true].
Qed.

Lemma nonempty_length {A} (l : list A) : l <> [] -> (0 < length l)%nat.
Proof. destruct l; [done | simpl; lia]. Qed.

Lemma has_border_false a b :
  has_border a b = false ->
  forall p t, a = p ++ t -> t <> [] -> startswith b t = false.
Proof.
  induction a as [|x a IH]; intros H p t E Ht.
  - by destruct p, t.
  - cbn [has_border] in H. apply orb_false_iff in H as [H1 H2].
    destruct p as [|y p]; simpl in E.
    + by subst t.
    + injection E as -> ->. by apply (IH H2 p t).
Qed.

Lemma has_border_whole a b : a <> [] -> startswith b a = true -> has_border a b = true.
Proof. destruct a as [|x a]; [done|]. intros _ H. cbn [has_border]. by rewrite H. Qed.

Lemma has_border_cons x a b : has_border a b = true -> has_border (x :: a) b = true.
Proof. intros H. cbn [has_border]. rewrite H. apply orb_true_r. Qed.

(** A beginning of [s ++ u] is a beginning of [s], or [s] is a beginning
    of it. *)
Lemma startswith_app_cases s u p :
  startswith (s ++ u) p = true -> startswith s p = true \/ startswith p s = true.
Proof.
  revert p. induction s as [|x s IH]; intros p; [by right|].
  destruct p as [|y p]; [by left|]. simpl.
  intros [->%eqc_true H]%andb_true_iff.
  destruct (IH p H) as [H'|H'].
  - left. rewrite H'. apply andb_true_iff. split; [by apply eqc_true | done].
  - right. rewrite H'. apply andb_true_iff. split; [by apply eqc_true | done].
Qed.

(** An occurrence in [a ++ u] lies in [a], in [u], or across the two. *)
Lemma contains_app_cases a u c :
  contains (a ++ u) c = true ->
  contains a c = true \/ has_border a c = true \/ contains u c = true.
Proof.
  induction a as [|x a IH]; [auto|].
  change (contains ((x :: a) ++ u) c)
    with (startswith ((x :: a) ++ u) c || contains (a ++ u) c).
  intros [H|H]%orb_true_iff.
  - apply startswith_app_cases in H as [H|H].
    + left. by apply contains_startswith.
    + right; left. by apply has_border_whole.
  - destruct (IH H) as [H'|[H'|H']]; [|auto using has_border_cons|auto].
    left. by apply contains_cons_true.
Qed.

Section Survival.
Variables old new : str.
Hypothesis old_nonempty : old <> [].

(** An end of [c] that starts the result of the replacement starts the
    replaced text too, when [c] and [new] do not overlap. *)
Lemma startswith_replace_inv c t p q :
  contains c new = false ->
  has_border c new = false ->
  c = q ++ p -> p <> [] ->
  startswith (replace_from old new 0 t) p = true ->
  startswith t p = true.
Proof using old_nonempty.
  intros Hin Hbo. revert p q.
  induction t as [|x t1 IH]; intros p q Hc Hp; [by destruct p|].
  destruct (startswith (x :: t1) old) eqn:E.
  - apply startswith_spec in E as [q' Hq]. rewrite Hq.
    rewrite replace_from_match by done. intros H. exfalso.
    apply startswith_app_cases in H as [H|H].
    + by rewrite (has_border_false c new Hbo q p) in H.
    + apply startswith_spec in H as [p2 ->].
      apply contains_false in Hin. apply Hin. by exists q, p2.
  - rewrite replace_from_copy by done.
    destruct p as [|y p']; [done|]. simpl.
    intros [-> H]%andb_true_iff. apply andb_true_iff. split; [done|].
    destruct p' as [|z p'']; [done|].
    apply (IH (z :: p'') (q ++ [y])); [|done|done].
    by rewrite <- app_assoc.
Qed.

Lemma startswith_cons_replace_inv c x t :
  contains c new = false ->
  has_border c new = false ->
  startswith (x :: replace_from old new 0 t) c = true ->
  startswith (x :: t) c = true.
Proof using old_nonempty.
  intros Hin Hbo. destruct c as [|y c']; [done|]. simpl.
  intros [-> H]%andb_true_iff. apply andb_true_iff. split; [done|].
  destruct c' as [|z c'']; [done|].
  by apply (startswith_replace_inv (y :: z :: c'') t (z :: c'') [y]).
Qed.

(** An occurrence in the result was an occurrence before. *)
Lemma contains_replace_inv c s :
  overlap_free c new = true ->
  contains (replace_from old new 0 s) c = true ->
  contains s c = true.
Proof using old_nonempty.
  unfold overlap_free. rewrite !andb_true_iff, !negb_true_iff.
  intros [[[H1 H2] H3] H4]. remember (length s) as n eqn:Hn. revert s Hn.
  induction n as [n IH] using lt_wf_ind. intros s ->.
  destruct s as [|x s1]; [done|].
  destruct (startswith (x :: s1) old) eqn:E.
  - apply startswith_spec in E as [q Hq]. rewrite Hq.
    rewrite replace_from_match by done. intros H.
    apply contains_app_cases in H as [H|[H|H]]; [congruence..|].
    apply contains_app_true. apply (IH (length q)); [|done..].
    apply (f_equal length) in Hq. rewrite length_app in Hq.
    pose proof (nonempty_length old old_nonempty). simpl in *. lia.
  - rewrite replace_from_copy by done.
    change (contains (x :: replace_from old new 0 s1) c)
      with (startswith (x :: replace_from old new 0 s1) c
            || contains (replace_from old new 0 s1) c).
    intros [H|H]%orb_true_iff.
    + apply contains_startswith. by apply startswith_cons_replace_inv.
    + apply contains_cons_true. apply (IH (length s1)); [simpl; lia|done..].
Qed.

(** The replaced text does not occur in the result. *)
Lemma contains_replace_old s :
  overlap_free old new = true ->
  contains (replace_from old new 0 s) old = false.
Proof using old_nonempty.
  unfold overlap_free. rewrite !andb_true_iff, !negb_true_iff.
  intros [[[H1 H2] H3] H4]. remember (length s) as n eqn:Hn. revert s Hn.
  induction n as [n IH] using lt_wf_ind. intros s ->.
  destruct s as [|x s1].
  - apply contains_false. intros (p & q & H).
    pose proof (nonempty_length old old_nonempty) as Hl.
    apply (f_equal length) in H. rewrite !length_app in H. simpl in H. lia.
  - destruct (startswith (x :: s1) old) eqn:E.
    + apply startswith_spec in E as [q Hq]. rewrite Hq.
      rewrite replace_from_match by done.
      apply not_true_iff_false. intros H.
      apply contains_app_cases in H as [H|[H|H]]; [congruence..|].
      rewrite (IH (length q)) in H; [done| |done].
      apply (f_equal length) in Hq. rewrite length_app in Hq.
      pose proof (nonempty_length old old_nonempty). simpl in *. lia.
    + rewrite replace_from_copy by done.
      change (contains (x :: replace_from old new 0 s1) old)
        with (startswith (x :: replace_from old new 0 s1) old
              || contains (replace_from old new 0 s1) old).
      rewrite (IH (length s1)); [|simpl; lia|done].
      rewrite orb_false_r. apply not_true_iff_false. intros H.
      apply startswith_cons_replace_inv in H; [congruence | done..].
Qed.
End Survival.

Lemma overlap_free_nonempty a b : overlap_free a b = true -> a <> [] /\ b <> [].
Proof.
  unfold overlap_free. rewrite !andb_true_iff, !negb_true_iff.
  intros [[[H1 H2] _] _]. split; intros ->.
  - by destruct b.
  - by destruct a.
Qed.

(** ** Name generation *)

Lemma for_each_Forall2 {A B} (f : A -> result B) (P : A -> B -> Prop) l :
  (forall x, x ∈ l -> exists y, f x = Ok y /\ P x y) ->
  exists ys, for_each f l = Ok ys /\ Forall2 P l ys.
Proof.
  induction l as [|x l IH]; intros H; simpl.
  - by exists [].
  - destruct (H x) as (y & Hy & HP); [by left|].
    destruct IH as (ys & Hys & HF); [intros z Hz; apply H; by right|].
    exists (y :: ys). rewrite Hy, Hys. split; [done | by constructor].
Qed.

Lemma replace_nonempty_old s old new :
  old <> [] -> replace s old new = replace_from old new 0 s.
Proof. by destruct old. Qed.

Lemma nonempty_true {A} (l : list A) : nonempty l = true <-> l <> [].
Proof. by destruct l. Qed.

Lemma join_occurs sep (l : list str) x : x ∈ l -> occurs x (join sep l).
Proof.
  induction l as [|y l IH]; [by intros ?%not_elem_of_nil|].
  intros [->|Hin]%elem_of_cons.
  - destruct l as [|z l]; simpl.
    + exists [], []. by rewrite app_nil_r.
    + by exists [], (sep ++ join sep (z :: l)).
  - destruct (IH Hin) as (p & q & E). destruct l as [|z l]; [by apply not_elem_of_nil in Hin|].
    change (join sep (y :: z :: l)) with (y ++ sep ++ join sep (z :: l)).
    rewrite E. exists (y ++ sep ++ p), q. by rewrite <- !app_assoc.
Qed.

Section NameFacts.
Variable float_repr : spec_float -> str.

Lemma cell_text_value_str v : cell_text float_repr v (value_str float_repr v).
Proof.
  destruct v as [s|n|f]; unfold value_str; simpl; try constructor.
  destruct (is_integer f) eqn:E; simpl; by constructor.
Qed.

Lemma cell_text_functional v t1 t2 :
  cell_text float_repr v t1 -> cell_text float_repr v t2 -> t1 = t2.
Proof. intros H1 H2. destruct H1; inversion H2; congruence. Qed.

Lemma every_occurrence_replaced_functional old new s r1 r2 :
  every_occurrence_replaced old new s r1 ->
  every_occurrence_replaced old new s r2 -> r1 = r2.
Proof.
  destruct old as [|a old]; simpl; [congruence|].
  by apply replaces_all_functional.
Qed.

(** The relation [expands] fixes the name. *)
Lemma expands_functional row cols t n1 n2 :
  expands float_repr row cols t n1 -> expands float_repr row cols t n2 -> n1 = n2.
Proof.
  intros H1. revert n2.
  induction H1 as [t|col cols v txt t t' name Hv Htxt Hrep _ IH]; intros n2 H2.
  - by inversion H2.
  - inversion H2 as [|col' cols' v' txt' t0 t0' name' Hv' Htxt' Hrep' Hrest]; subst.
    assert (v' = v) as -> by congruence.
    assert (txt' = txt) as -> by (by eapply cell_text_functional).
    assert (t0' = t') as -> by (by eapply every_occurrence_replaced_functional).
    by apply IH.
Qed.

Lemma substitute_expands row cols t :
  has_fields cols row ->
  exists name, substitute float_repr row cols t = Ok name
               /\ expands float_repr row cols t name.
Proof.
  revert t. induction cols as [|col cols IH]; intros t H; simpl.
  - exists t. split; [done | constructor].
  - apply Forall_cons in H as [[v Hv] Hrest].
    unfold getitem. rewrite Hv. simpl.
    destruct (IH (replace t col (value_str float_repr v)) Hrest) as (name & Hn & He).
    exists name. split; [done|].
    econstructor; [done | apply cell_text_value_str | apply replace_every_occurrence | done].
Qed.

(** What [separated] says, field by field. *)
Lemma separated_spec cols row :
  separated float_repr cols row = true ->
  forall col col' v, col ∈ cols -> col' ∈ cols -> row !! col' = Some v ->
    overlap_free col (value_str float_repr v) = true.
Proof.
  unfold separated. rewrite forallb_forall. intros H col col' v Hcol Hcol' Hv.
  apply list_elem_of_In, H in Hcol. rewrite forallb_forall in Hcol.
  apply list_elem_of_In, Hcol in Hcol'. by rewrite Hv in Hcol'.
Qed.

(** Once a field has been replaced, its name stays away. *)
Lemma substitute_clean row (all seen todo : list str) t name :
  (forall col col' v, col ∈ all -> col' ∈ all -> row !! col' = Some v ->
     overlap_free col (value_str float_repr v) = true) ->
  (forall col, col ∈ seen ++ todo -> col ∈ all) ->
  (forall c, c ∈ seen -> contains t c = false) ->
  substitute float_repr row todo t = Ok name ->
  forall c, c ∈ seen ++ todo -> contains name c = false.
Proof.
  intros Hsep. revert seen t.
  induction todo as [|col todo IH]; intros seen t Hsub Hdone Hs; simpl in Hs.
  - injection Hs as <-. rewrite app_nil_r. done.
  - unfold getitem in Hs. destruct (row !! col) as [v|] eqn:Hv; [|done].
    simpl in Hs.
    assert (Hcol : col ∈ all) by (apply Hsub, elem_of_app; right; by left).
    pose proof (Hsep col col v Hcol Hcol Hv) as Hfree.
    destruct (overlap_free_nonempty _ _ Hfree) as [Hne _].
    rewrite replace_nonempty_old in Hs by done.
    intros c Hin.
    apply (IH (seen ++ [col]) (replace_from col (value_str float_repr v) 0 t)).
    + intros c' Hc'. apply Hsub. by rewrite <- app_assoc in Hc'.
    + intros c' [Hc' | ->%list_elem_of_singleton]%elem_of_app.
      * apply not_true_iff_false. intros Hocc.
        assert (Hc'all : c' ∈ all) by (apply Hsub, elem_of_app; by left).
        apply contains_replace_inv in Hocc; [|done|by apply (Hsep c' col)].
        rewrite (Hdone c' Hc') in Hocc. done.
      * by apply contains_replace_old.
    + done.
    + by rewrite <- app_assoc.
Qed.
(** C3.  When every selected field has a cell in every row,
    [generate_formatted_names] returns one name per row, in the order
    of the rows; the name of a row comes from the format string without
    its extension by replacing, field after field, every occurrence of
    the field's name by the text of the row's cell, where a float
    without fractional part shows as its integer ([2020.0] as ["2020"])
    and the text is stripped.  No extension is put back: for the table
    whose column [Year] holds [2020.0], the format ["Year-Report"] gives
    ["2020-Report"]. *)
Theorem generate_formatted_names_spec fl df cols format_string :
  Forall (has_fields cols) (rows df) ->
  exists names,
    generate_formatted_names float_repr fl df cols format_string = Ok names
    /\ length names = length (rows df)
    /\ (forall i row,
          rows df !! i = Some row ->
          exists name,
            names !! i = Some name
            /\ expands float_repr row cols (splitext fl format_string).1 name)
    /\ cell_text float_repr (VFloat float_2020) (lit "2020")
    /\ generate_formatted_names float_repr fl
         {| columns := [lit "Year"];
            rows := [{[ lit "Year" := VFloat float_2020 ]}] |}
         [lit "Year"] (lit "Year-Report")
       = Ok [lit "2020-Report"].
Proof.
  intros H. unfold generate_formatted_names.
  destruct (for_each_Forall2
              (fun row => substitute float_repr row cols (splitext fl format_string).1)
              (fun row name => expands float_repr row cols (splitext fl format_string).1 name)
              (rows df)) as (names & Hn & HF).
  { intros row Hrow. apply substitute_expands.
    rewrite Forall_forall in H. by apply H. }
  exists names. split; [done|]. split; [symmetry; by eapply Forall2_length|].
  split; [|split].
  - intros i row Hi. by destruct (Forall2_lookup_l _ _ _ _ _ HF Hi) as (name & ? & ?); exists name.
  - change (lit "2020") with (strip (str_of_int (int_of_float float_2020))).
    apply text_whole_float. by vm_compute.
  - destruct fl; simpl; unfold getitem; by rewrite lookup_singleton_eq.
Qed.
End NameFacts.

Section RoundTrip.
Variable float_repr : spec_float -> str.

(** C5 (as amended).  Whatever the order of the labels and the text of
    the entries, generating from the built file name over a table in
    which every selected field has a cell gives one name per row, in
    the order of the rows; and the name of a row holds no occurrence of
    a selected field's name when, in that row, no name of a selected
    field overlaps the text of a cell of a selected field: neither
    occurs in the other, and no non-empty end of one is a beginning of
    the other. *)
Theorem build_then_generate fl b df cols :
  Forall (has_fields cols) (rows df) ->
  exists names,
    generate_formatted_names float_repr fl df cols (build_filename b) = Ok names
    /\ length names = length (rows df)
    /\ forall i row name col,
         rows df !! i = Some row ->
         names !! i = Some name ->
         separated float_repr cols row = true ->
         col ∈ cols ->
         ~ occurs col name.
Proof.
  intros Hf. unfold generate_formatted_names.
  set (base := (splitext fl (build_filename b)).1).
  destruct (for_each_Forall2
              (fun row => substitute float_repr row cols base)
              (fun row name => substitute float_repr row cols base = Ok name)
              (rows df)) as (names & Hn & HF).
  { intros row Hrow. rewrite Forall_forall in Hf.
    destruct (substitute_expands float_repr row cols base (Hf row Hrow))
      as (name & E & _).
    by exists name. }
  exists names. split; [done|]. split; [symmetry; by eapply Forall2_length|].
  intros i row name col Hrow Hname Hsep Hcol.
  pose proof (Forall2_lookup_lr _ _ _ _ _ _ HF Hrow Hname) as Hsub.
  apply contains_false.
  apply (substitute_clean float_repr row cols [] cols base name).
  - by apply separated_spec.
  - done.
  - by intros c ?%not_elem_of_nil.
  - done.
  - done.
Qed.
End RoundTrip.

(** *** Concrete tables *)

(** C3, witness: the table of two names and the format ["Name.pdf"]. *)
Lemma generate_formatted_names_spec_witness :
  Forall (has_fields [lit "Name"]) (rows two_names)
  /\ generate_formatted_names no_float_text Posix two_names [lit "Name"]
       (lit "Name.pdf")
     = Ok [lit "Alpha"; lit "Beta"].
Proof.
  assert (H : Forall (has_fields [lit "Name"]) (rows two_names)).
  { repeat constructor; eexists; by vm_compute. }
  split; [exact H|].
  destruct (generate_formatted_names_spec no_float_text Posix two_names
              [lit "Name"] (lit "Name.pdf") H) as (names & E & _).
  rewrite E. f_equal. vm_compute in E. by injection E.
Defined.

(** C5, witness: the fields [Year] and [Name], put in the order
    [Name], [Year] with a hyphen between them, over a row whose name,
    ["Nina"], starts with the first letter of a field name. *)
Lemma build_then_generate_witness :
  let cols := [lit "Year"; lit "Name"] in
  let b := edit_entry 0 (lit "-")
             (reorder_label (new_builder cols (lit ".pdf"))
                {| text := lit "Name"; pair_index := 1 |} 0) in
  build_filename b = lit "Name-Year.pdf"
  /\ Forall (has_fields cols) (rows year_and_nina)
  /\ Forall (fun row => separated no_float_text cols row = true) (rows year_and_nina)
  /\ exists names,
       generate_formatted_names no_float_text Posix year_and_nina cols
         (build_filename b) = Ok names
       /\ names = [lit "Nina-2020"]
       /\ forall name col, name ∈ names -> col ∈ cols -> ~ occurs col name.
Proof.
  intros cols b.
  assert (H1 : Forall (has_fields cols) (rows year_and_nina)).
  { repeat constructor; eexists; by vm_compute. }
  assert (H2 : Forall (fun row => separated no_float_text cols row = true)
                 (rows year_and_nina)).
  { repeat constructor. }
  split; [by vm_compute|]. split; [exact H1|]. split; [exact H2|].
  destruct (build_then_generate no_float_text Posix b year_and_nina cols H1)
    as (names & E & _ & Hclean).
  exists names. split; [exact E|]. split.
  { vm_compute in E. by injection E as <-. }
  intros name col [i Hi]%list_elem_of_lookup Hcol.
  assert (i = 0%nat) as ->.
  { apply lookup_lt_Some in Hi. vm_compute in E. injection E as <-. simpl in Hi. lia. }
  by apply (Hclean 0%nat _ name col eq_refl Hi).
Defined.

(** C5, counterexample to the claim as first stated: the field [A]
    with the cell ["Alpha"].  The built file name is ["A.pdf"], the
    field is present, and the one generated name, ["Alpha"], holds the
    field name. *)
Lemma generated_name_holds_field_name :
  let cols := [lit "A"] in
  let df := {| columns := cols;
               rows := [ {[ lit "A" := VStr (lit "Alpha") ]} ] |} in
  let b := new_builder cols (lit ".pdf") in
  build_filename b = lit "A.pdf"
  /\ Forall (has_fields cols) (rows df)
  /\ generate_formatted_names no_float_text Posix df cols (build_filename b)
     = Ok [lit "Alpha"]
  /\ occurs (lit "A") (lit "Alpha").
Proof.
  intros cols df b. split; [by vm_compute|]. split.
  { repeat constructor; eexists; by vm_compute. }
  split; [by vm_compute|].
  by exists [], (lit "lpha").
Qed.

(** ** The checks of the confirm stage *)

Lemma match_class_plus_all matched s :
  (forall c, c ∈ s -> format_class c = true) ->
  match_class_plus matched s = matched || nonempty s.
Proof.
  revert matched. induction s as [|x s IH]; intros matched H; simpl.
  - by rewrite orb_false_r.
  - rewrite (H x) by by left. rewrite IH by (intros c Hc; apply H; by right).
    by rewrite orb_true_r.
Qed.

Lemma match_class_plus_other matched s c :
  c ∈ s -> format_class c = false -> c <> LF ->
  match_class_plus matched s = false.
Proof.
  intros Hin Hc Hlf. revert matched.
  induction s as [|x s IH]; intros matched; [by apply not_elem_of_nil in Hin|].
  simpl. apply elem_of_cons in Hin as [<-|Hin].
  - rewrite Hc. apply eqc_false in Hlf. rewrite Hlf. by rewrite andb_false_r.
  - destruct (format_class x); [by apply IH|].
    rewrite bool_decide_eq_false_2; [by rewrite andb_false_r|].
    intros ->. by apply not_elem_of_nil in Hin.
Qed.

(** The texts that the format check lets through. *)
Lemma format_matches_spec s :
  format_matches s = true <->
  exists body, body <> [] /\ (forall c, c ∈ body -> format_class c = true)
               /\ (s = body \/ s = body ++ [LF]).
Proof.
  unfold format_matches. split.
  - assert (G : forall matched pre t,
               (forall c, c ∈ pre -> format_class c = true) ->
               (matched = true -> pre <> []) ->
               match_class_plus matched t = true ->
               exists body, body <> []
                 /\ (forall c, c ∈ body -> format_class c = true)
                 /\ (pre ++ t = body \/ pre ++ t = body ++ [LF])).
    { intros matched pre t. revert matched pre.
      induction t as [|x t IH]; intros matched pre Hpre Hm; simpl.
      - intros ->. exists pre. rewrite app_nil_r. auto.
      - destruct (format_class x) eqn:Ex.
        + intros H. destruct (IH true (pre ++ [x])) as (body & ? & ? & Hb); try done.
          * intros c [? | ->%list_elem_of_singleton]%elem_of_app; auto.
          * intros _. by destruct pre.
          * exists body. by rewrite <- app_assoc in Hb.
        + intros H. apply andb_true_iff in H as [H H2].
          apply andb_true_iff in H as [H0 H1].
          apply eqc_true in H1. apply bool_decide_eq_true in H2. subst x t.
          exists pre. split; [by apply Hm|]. split; [done|]. by right. }
    intros H. apply (G false [] s); [by intros c ?%not_elem_of_nil | done | done].
  - intros (body & Hne & Hall & [-> | ->]).
    + rewrite match_class_plus_all by done. by destruct body.
    + assert (G : forall (b : str) matched,
                 (forall c, c ∈ b -> format_class c = true) ->
                 match_class_plus matched (b ++ [LF]) = matched || nonempty b).
      { induction b as [|x b IH]; intros matched Hb.
        - by destruct matched.
        - simpl. rewrite (Hb x) by by left.
          rewrite IH by (intros c Hc; apply Hb; by right).
          by rewrite orb_true_r. }
      rewrite G by done. by destruct body.
Qed.

Lemma validate_input_spec v :
  validate_input v = true <-> forall c, c ∈ v -> c ∈ ALLOWED_CHARS.
Proof.
  unfold validate_input. case_bool_decide as E.
  - subst. split; [by intros _ c ?%not_elem_of_nil | done].
  - rewrite forallb_forall. split.
    + intros H c Hc. by apply char_in_spec, H, list_elem_of_In.
    + intros H c Hc. by apply char_in_spec, H, list_elem_of_In.
Qed.

Section ConfirmStage.
Context {FS : Type}.
Variable os_rename : str -> str -> FS -> Z + FS.
Variable float_repr : spec_float -> str.
Variable fl : flavour.

(** C2 (as amended).  At confirm time a non-empty format string made
    of word characters (alphanumerics, underscore), hyphens, dots and
    spaces passes the check of invalid characters; a format string that
    holds a character which is neither alphanumeric nor one of hyphen,
    underscore, comma, semicolon, dot, space, nor a line feed, is
    rejected, and [start_renaming] then reports invalid characters and
    renames nothing.  The text of a separator entry is checked at every
    edit against the five characters hyphen, underscore, comma,
    semicolon and space only; an edit that fails the check leaves the
    entry as it was. *)
Theorem format_check_spec :
  (forall s, s <> [] -> (forall c, c ∈ s -> format_class c = true) ->
             format_matches s = true)
  /\ (forall s c, c ∈ s -> py_isalnum c = false -> c ∉ lit "-_,;. " -> c <> LF ->
                  format_matches s = false)
  /\ (forall app fs,
        missing_columns app = Ok [] ->
        format_matches (final_filename_format app) = false ->
        start_renaming os_rename float_repr fl app fs = (InvalidCharacters, app, fs))
  /\ (forall app fs,
        format_matches (final_filename_format app) = true ->
        (start_renaming os_rename float_repr fl app fs).1.1 <> InvalidCharacters)
  /\ (forall v, validate_input v = true <-> forall c, c ∈ v -> c ∈ lit "-_,; ")
  /\ (forall i v b, validate_input v = false -> edit_entry i v b = b).
Proof.
  split; [|split; [|split; [|split; [|split]]]].
  - intros s Hne Hall. unfold format_matches.
    rewrite match_class_plus_all by done. by destruct s.
  - intros s c Hin Halnum Hnot Hlf.
    apply (match_class_plus_other false s c); [done| |done].
    unfold format_class. rewrite Halnum. simpl.
    repeat (apply orb_false_iff; split); apply eqc_false; intros ->; apply Hnot;
      unfold lit; simpl; set_solver.
  - intros app fs Hm Hf. unfold start_renaming. rewrite Hm. simpl. by rewrite Hf.
  - intros app fs Hf. unfold start_renaming.
    destruct (missing_columns app) as [missing|e]; [|done].
    destruct (nonempty missing); [done|]. rewrite Hf. simpl.
    destruct (loaded app ≫= _) as [names|e]; [|done].
    destruct (negb (nonempty names)); [done|].
    by destruct (rename_files _ _ _ _) as [[]].
  - apply validate_input_spec.
  - intros i v b H. unfold edit_entry. by rewrite H.
Qed.

(** C6.  When a table is loaded and some selected field is not among
    its columns, [start_renaming] reports the missing columns and stops
    there: nothing is generated (the application keeps its old list of
    new names) and nothing is renamed.  The report lists every missing
    field, in the order of the selection, and names each of them. *)
Theorem start_renaming_missing_columns app df fs :
  dataframe app = Some df ->
  (exists col, col ∈ selected_options app /\ col ∉ columns df) ->
  let missing := filter (fun col => col ∉ columns df) (selected_options app) in
  start_renaming os_rename float_repr fl app fs
  = (MissingColumns (missing_columns_message missing), app, fs)
  /\ (forall col, col ∈ missing <-> col ∈ selected_options app /\ col ∉ columns df)
  /\ missing_columns_message missing
     = lit "The following columns were not found in the Excel file: "
       ++ join (lit ", ") missing
  /\ (forall col, col ∈ missing -> occurs col (missing_columns_message missing)).
Proof.
  intros Hdf (col & Hsel & Hcol) missing.
  assert (Hin : forall c, c ∈ missing <-> c ∈ selected_options app /\ c ∉ columns df).
  { intros c. unfold missing. rewrite list_elem_of_filter. tauto. }
  assert (Hm : missing_columns app = Ok missing).
  { unfold missing_columns, loaded. rewrite Hdf.
    destruct (selected_options app) eqn:E; [by apply not_elem_of_nil in Hsel|]. done. }
  split; [|split; [done|split; [done|]]].
  - unfold start_renaming. rewrite Hm.
    assert (Hne : nonempty missing = true).
    { apply nonempty_true. intros E. assert (H : col ∈ missing) by by apply Hin.
      rewrite E in H. by apply not_elem_of_nil in H. }
    by rewrite Hne.
  - intros c Hc. destruct (join_occurs (lit ", ") missing c Hc) as (p & q & E).
    unfold missing_columns_message. rewrite E.
    exists (lit "The following columns were not found in the Excel file: " ++ p), q.
    by rewrite <- app_assoc.
Qed.
End ConfirmStage.

(** *** Concrete checks *)

(** C2, witness: a usual file name passes, a slash is rejected, and a
    letter typed into a separator entry is refused. *)
Lemma format_check_spec_witness :
  format_matches (lit "Name-Year.pdf") = true
  /\ format_matches (lit "Name/Year.pdf") = false
  /\ edit_entry 0 (lit "a") (new_builder [lit "A"; lit "B"] (lit ".pdf"))
     = new_builder [lit "A"; lit "B"] (lit ".pdf").
Proof.
  destruct (format_check_spec flat_rename no_float_text Posix)
    as (Hpass & Hreject & _ & _ & _ & Hedit).
  split; [|split].
  - apply Hpass; [done|]. apply Forall_forall. by repeat constructor.
  - apply (Hreject _ "/"%char); [|done| |done]; compute_done.
  - by apply Hedit.
Defined.

(** C2, counterexample to the claim as first stated.  A text of
    allow-listed characters only, with a comma, fails the check; the
    built file name ["Name.pdf"] passes it although the dot is not on
    the allow-list; a letter, which is on the allow-list, is refused in
    a separator entry, while the comma that the entry accepts makes the
    built file name fail the check. *)
Lemma format_check_is_not_the_allow_list :
  (forallb allow_listed (lit "A,B") = true
   /\ format_matches (lit "A,B") = false)
  /\ (build_filename (new_builder [lit "Name"] (lit ".pdf")) = lit "Name.pdf"
      /\ existsb (fun c => negb (allow_listed c)) (lit "Name.pdf") = true
      /\ format_matches (lit "Name.pdf") = true)
  /\ (forallb allow_listed (lit "a") = true
      /\ validate_input (lit "a") = false)
  /\ (validate_input (lit ",") = true
      /\ build_filename (edit_entry 0 (lit ",")
                           (new_builder [lit "A"; lit "B"] (lit ".pdf")))
         = lit "A,B.pdf"
      /\ format_matches (lit "A,B.pdf") = false).
Proof. by vm_compute. Qed.

(** C6, witness: two of three selected fields are not in the table. *)
Lemma start_renaming_missing_columns_witness :
  start_renaming flat_rename no_float_text Posix three_selected
    [lit "/d/a.pdf"; lit "/d/b.pdf"]
  = (MissingColumns
       (lit "The following columns were not found in the Excel file: Year, Code"),
     three_selected, [lit "/d/a.pdf"; lit "/d/b.pdf"]).
Proof.
  destruct (start_renaming_missing_columns flat_rename no_float_text Posix
              three_selected two_names [lit "/d/a.pdf"; lit "/d/b.pdf"] eq_refl)
    as (H & _).
  - exists (lit "Year"). split; [by left | compute_done].
  - rewrite H. reflexivity.
Defined.

(** ** Reordering the labels *)

Lemma round_div_nearest a b :
  0 < b -> 2 * Z.abs (b * round_div a b - a) <= b.
Proof.
  intros Hb. unfold round_div.
  pose proof (Z.div_mod a b ltac:(lia)) as E.
  pose proof (Z.mod_pos_bound a b Hb) as Hr.
  destruct (2 * (a mod b) <? b) eqn:E1; [apply Z.ltb_lt in E1; lia|].
  apply Z.ltb_ge in E1.
  destruct (b <? 2 * (a mod b)) eqn:E2; [apply Z.ltb_lt in E2; lia|].
  apply Z.ltb_ge in E2. destruct (Z.even (a / b)); lia.
Qed.

Lemma round_div_bounds a b :
  0 < b -> a / b <= round_div a b <= a / b + 1.
Proof.
  intros Hb. unfold round_div.
  destruct (2 * (a mod b) <? b); [lia|].
  destruct (b <? 2 * (a mod b)); [lia|].
  destruct (Z.even (a / b)); lia.
Qed.

Lemma round_div_exact k b : 0 < b -> round_div (b * k) b = k.
Proof.
  intros Hb. unfold round_div.
  replace (b * k) with (k * b) by lia.
  rewrite Z.div_mul, Z.mod_mul by lia.
  replace (2 * 0 <? b) with true; [done|]. symmetry. apply Z.ltb_lt. lia.
Qed.

Lemma round_div_ge a b k : 0 < b -> b * k <= a -> k <= round_div a b.
Proof.
  intros Hb H. pose proof (round_div_bounds a b Hb).
  assert (k <= a / b) by (apply Z.div_le_lower_bound; lia). lia.
Qed.

Lemma round_div_nonpos a b : 0 < b -> a <= 0 -> round_div a b <= 0.
Proof.
  intros Hb H. unfold round_div.
  pose proof (Z.div_mod a b ltac:(lia)) as E.
  pose proof (Z.mod_pos_bound a b Hb) as Hr.
  assert (a / b <= 0) by (apply Z.div_le_upper_bound; lia).
  destruct (2 * (a mod b) <? b) eqn:E1; [lia|]. apply Z.ltb_ge in E1.
  assert (a / b <> 0) by nia.
  destruct (b <? 2 * (a mod b)); [lia|]. destruct (Z.even (a / b)); lia.
Qed.

(** Past the last slot the index is the last one; before the first it
    is zero. *)
Lemma target_index_beyond n drop_x :
  CELL_WIDTH * 2 * (Z.of_nat n - 1) <= drop_x ->
  target_index n drop_x = target_index n (CELL_WIDTH * 2 * (Z.of_nat n - 1)).
Proof.
  intros H. unfold target_index.
  rewrite round_div_exact by done.
  pose proof (round_div_ge drop_x (CELL_WIDTH * 2) (Z.of_nat n - 1) eq_refl H).
  lia.
Qed.

Lemma target_index_before n drop_x :
  drop_x <= 0 -> target_index n drop_x = target_index n 0.
Proof.
  intros H. unfold target_index.
  pose proof (round_div_nonpos drop_x (CELL_WIDTH * 2) eq_refl H).
  change (round_div 0 (CELL_WIDTH * 2)) with 0. lia.
Qed.

Lemma target_index_range n drop_x :
  (1 <= n)%nat -> 0 <= target_index n drop_x <= Z.of_nat n - 1.
Proof. unfold target_index. lia. Qed.

Lemma list_remove_length {A} `{EqDecision A} (x : A) l :
  x ∈ l -> S (length (list_remove x l)) = length l.
Proof.
  induction l as [|y l IH]; [by intros ?%not_elem_of_nil|]. simpl.
  destruct (decide (x = y)); [done|].
  intros [->|Hin]%elem_of_cons; [done|]. simpl. by rewrite IH.
Qed.

Lemma list_remove_perm {A} `{EqDecision A} (x : A) l :
  x ∈ l -> x :: list_remove x l ≡ₚ l.
Proof.
  induction l as [|y l IH]; [by intros ?%not_elem_of_nil|]. simpl.
  destruct (decide (x = y)) as [->|Hne]; [done|].
  intros [->|Hin]%elem_of_cons; [done|].
  rewrite Permutation_swap. by rewrite IH.
Qed.

Lemma list_insert_at_perm {A} i (x : A) l : list_insert_at i x l ≡ₚ x :: l.
Proof.
  unfold list_insert_at. rewrite <- Permutation_middle. by rewrite take_drop.
Qed.

Lemma list_insert_at_lookup {A} i (x : A) l :
  (i <= length l)%nat -> list_insert_at i x l !! i = Some x.
Proof.
  intros H. unfold list_insert_at.
  rewrite lookup_app_r by (rewrite length_take; lia).
  rewrite length_take. by replace (i - i `min` length l)%nat with 0%nat by lia.
Qed.

Lemma regrid_lookup lbls i lbl :
  lbls !! i = Some lbl -> regrid lbls !! i = Some (lbl, Z.of_nat i * 2).
Proof. intros H. unfold regrid. by rewrite list_lookup_imap, H. Qed.

(** C9.  A drop position is mapped to the nearest slot (slots are
    [2 * CELL_WIDTH] apart; a tie goes to the even slot) and that index
    is clamped to [0, n - 1] for [n] labels.  The dragged label is
    taken out and put back at that index: the labels are the same ones
    in the new order, and every label is laid out again, at column
    [2 * i] for index [i].  Every drop position at or past the last
    slot gives the same result as a drop on the last slot, and every
    drop position at or before slot zero the same as a drop on slot
    zero. *)
Theorem reorder_label_clamps b label drop_x :
  let n := length (labels b) in
  let slot := target_index n drop_x in
  let b' := reorder_label b label drop_x in
  2 * Z.abs (CELL_WIDTH * 2 * round_div drop_x (CELL_WIDTH * 2) - drop_x)
    <= CELL_WIDTH * 2
  /\ slot = Z.max 0 (Z.min (round_div drop_x (CELL_WIDTH * 2)) (Z.of_nat n - 1))
  /\ ((1 <= n)%nat -> 0 <= slot <= Z.of_nat n - 1)
  /\ (label ∈ labels b ->
      labels b' !! Z.to_nat slot = Some label /\ labels b' ≡ₚ labels b)
  /\ (forall i lbl, labels b' !! i = Some lbl ->
                    grid b' !! i = Some (lbl, Z.of_nat i * 2))
  /\ (CELL_WIDTH * 2 * (Z.of_nat n - 1) <= drop_x ->
      b' = reorder_label b label (CELL_WIDTH * 2 * (Z.of_nat n - 1)))
  /\ (drop_x <= 0 -> b' = reorder_label b label 0).
Proof.
  intros n slot b'.
  split; [by apply round_div_nearest|]. split; [done|].
  split; [apply target_index_range|]. split; [|split; [|split]].
  - intros Hin. subst b'. unfold reorder_label. simpl. fold n. fold slot.
    rewrite bool_decide_eq_true_2 by done.
    pose proof (list_remove_length label (labels b) Hin) as Hlen.
    assert (1 <= n)%nat by (unfold n; lia).
    pose proof (target_index_range n drop_x ltac:(done)) as Hr. fold slot in Hr.
    split.
    + apply list_insert_at_lookup. unfold n in *. lia.
    + rewrite list_insert_at_perm. by apply list_remove_perm.
  - intros i lbl H. subst b'. unfold reorder_label in *. simpl in *.
    by apply regrid_lookup.
  - intros H. subst b'. unfold reorder_label. fold n.
    by rewrite (target_index_beyond n drop_x H).
  - intros H. subst b'. unfold reorder_label. fold n.
    by rewrite (target_index_before n drop_x H).
Qed.

(** C9, witness: three labels; the first is dropped far to the right,
    and the last far to the left. *)
Lemma reorder_label_clamps_witness :
  let b := new_builder [lit "One"; lit "Two"; lit "Three"] (lit ".pdf") in
  let one := {| text := lit "One"; pair_index := 0 |} in
  let three := {| text := lit "Three"; pair_index := 2 |} in
  (CELL_WIDTH * 2 * (3 - 1) <= 5000
   /\ reorder_label b one 5000 = reorder_label b one 480
   /\ map text (labels (reorder_label b one 5000))
      = [lit "Two"; lit "Three"; lit "One"])
  /\ (-700 <= 0
      /\ reorder_label b three (-700) = reorder_label b three 0
      /\ map text (labels (reorder_label b three (-700)))
         = [lit "Three"; lit "One"; lit "Two"]).
Proof.
  intros b one three.
  destruct (reorder_label_clamps b one 5000) as (_ & _ & _ & _ & _ & H1 & _).
  destruct (reorder_label_clamps b three (-700)) as (_ & _ & _ & _ & _ & _ & H2).
  split.
  - split; [by vm_compute|]. split; [apply H1; by vm_compute | by vm_compute].
  - split; [by vm_compute|]. split; [apply H2; by vm_compute | by vm_compute].
Defined.

(** ** Natural order and sorting *)

Global Instance N_compare_order : CmpOrder N.compare.
Proof.
  split.
  - intros x y. apply N.compare_antisym.
  - intros x y z ->%N.compare_eq. done.
  - intros x y z. rewrite !N.compare_lt_iff. lia.
Qed.

Lemma cmp_le_trans {A} (cmp : A -> A -> comparison) `{!CmpOrder cmp} x y z :
  cmp x y <> Gt -> cmp y z <> Gt -> cmp x z <> Gt.
Proof.
  intros Hxy Hyz.
  destruct (cmp x y) eqn:Exy; [|clear Hxy|done].
  - by rewrite (cmp_eq_l x y z Exy).
  - destruct (cmp y z) eqn:Eyz; [|clear Hyz|done].
    + assert (Ezy : cmp z y = Eq) by by rewrite cmp_opp, Eyz.
      assert (Ezx : cmp z x = Gt).
      { rewrite (cmp_eq_l z y x Ezy), cmp_opp, Exy. done. }
      rewrite cmp_opp, Ezx. done.
    + by rewrite (cmp_lt_trans x y z Exy Eyz).
Qed.

Lemma cmp_refl {A} (cmp : A -> A -> comparison) `{!CmpOrder cmp} x :
  cmp x x = Eq.
Proof. pose proof (cmp_opp x x) as H. by destruct (cmp x x). Qed.

Lemma cmp_gt_lt {A} (cmp : A -> A -> comparison) `{!CmpOrder cmp} x y :
  cmp x y = Gt -> cmp y x = Lt.
Proof. intros H. by rewrite cmp_opp, H. Qed.

Global Instance lex_compare_order {A} (cmp : A -> A -> comparison)
  `{!CmpOrder cmp} : CmpOrder (lex_compare cmp).
Proof.
  split.
  - intros x. induction x as [|a x IH]; intros [|b y]; simpl; try done.
    rewrite (cmp_opp a b). destruct (cmp a b); simpl; auto.
  - intros x. induction x as [|a x IH]; intros [|b y] z; simpl; try done.
    destruct (cmp a b) eqn:Eab; try done. intros Hxy.
    destruct z as [|c z]; [done|]. simpl.
    rewrite (cmp_eq_l a b c Eab). destruct (cmp b c); auto.
  - intros x. induction x as [|a x IH]; intros [|b y] [|c z]; simpl; try done.
    destruct (cmp a b) eqn:Eab; try done.
    + intros Hxy. rewrite (cmp_eq_l a b c Eab).
      destruct (cmp b c); try done. by apply IH.
    + intros _. destruct (cmp b c) eqn:Ebc; try done.
      * intros _. assert (Ecb : cmp c b = Eq) by by rewrite cmp_opp, Ebc.
        assert (Eca : cmp c a = Gt).
        { rewrite (cmp_eq_l c b a Ecb), cmp_opp, Eab. done. }
        rewrite (cmp_opp c a), Eca. done.
      * intros _. by rewrite (cmp_lt_trans a b c Eab Ebc).
Qed.

Global Instance text_compare_order : CmpOrder text_compare.
Proof. unfold text_compare. apply _. Qed.

Global Instance chunk_compare_order : CmpOrder chunk_compare.
Proof.
  split.
  - intros [s|m] [t|n]; simpl; try done; apply cmp_opp.
  - intros [s|m] [t|n] [u|k]; simpl; try done; apply cmp_eq_l.
  - intros [s|m] [t|n] [u|k]; simpl; try done; apply cmp_lt_trans.
Qed.

Global Instance key_compare_order : CmpOrder key_compare.
Proof. unfold key_compare. apply _. Qed.

Lemma natural_leb_spec a b :
  natural_leb a b = true <-> key_compare (natsort_key a) (natsort_key b) <> Gt.
Proof. unfold natural_leb. by destruct (key_compare _ _). Qed.

Lemma natural_leb_total a b : natural_leb a b = false -> natural_leb b a = true.
Proof.
  unfold natural_leb.
  destruct (key_compare (natsort_key a) (natsort_key b)) eqn:E; try done.
  intros _. by rewrite (cmp_gt_lt key_compare _ _ E).
Qed.

Lemma natural_le_trans a b c : natural_le a b -> natural_le b c -> natural_le a c.
Proof.
  unfold natural_le. rewrite !natural_leb_spec. apply cmp_le_trans, _.
Qed.

Section Sorting.
Context {A : Type} (leb : A -> A -> bool).
Hypothesis leb_total : forall a b, leb a b = false -> leb b a = true.
Hypothesis leb_trans : forall a b c, leb a b = true -> leb b c = true -> leb a c = true.

Lemma insert_by_perm x l : insert_by leb x l ≡ₚ x :: l.
Proof.
  induction l as [|y l IH]; simpl; [done|].
  destruct (leb x y); [done|]. by rewrite IH, Permutation_swap.
Qed.

Lemma sort_by_perm l : sort_by leb l ≡ₚ l.
Proof.
  induction l as [|x l IH]; simpl; [done|]. by rewrite insert_by_perm, IH.
Qed.

Lemma insert_by_sorted x l :
  StronglySorted (fun a b => leb a b = true) l ->
  StronglySorted (fun a b => leb a b = true) (insert_by leb x l).
Proof using leb_total leb_trans.
  induction 1 as [|y l Hs IH Hall]; simpl.
  - by repeat constructor.
  - destruct (leb x y) eqn:E.
    + constructor; [by constructor|]. constructor; [done|].
      eapply Forall_impl; [exact Hall|]. intros z Hz. by eapply leb_trans.
    + constructor; [done|].
      rewrite insert_by_perm. constructor; [by apply leb_total | done].
Qed.

Lemma sort_by_sorted l :
  StronglySorted (fun a b => leb a b = true) (sort_by leb l).
Proof using leb_total leb_trans.
  induction l as [|x l IH]; simpl; [constructor | by apply insert_by_sorted].
Qed.
End Sorting.

Lemma natsorted_perm l : natsorted l ≡ₚ l.
Proof. apply sort_by_perm. Qed.

Lemma natsorted_sorted l : StronglySorted natural_le (natsorted l).
Proof.
  apply (sort_by_sorted natural_leb natural_leb_total).
  intros a b c. apply natural_le_trans.
Qed.

(** *** Numbers inside a name *)

Lemma lex_compare_app {A} (cmp : A -> A -> comparison) `{!CmpOrder cmp} a l1 l2 :
  lex_compare cmp (a ++ l1) (a ++ l2) = lex_compare cmp l1 l2.
Proof. induction a as [|x a IH]; simpl; [done|]. by rewrite (cmp_refl cmp x). Qed.

Lemma from_option_last {A B} (f : A -> B) d x (l : list A) :
  from_option f d (last (x :: l)) = from_option f (f x) (last l).
Proof.
  destruct l as [|y l]; [done|].
  change (last (x :: y :: l)) with (last (y :: l)).
  destruct (last (y :: l)) eqn:E; [done|]. by apply last_None in E.
Qed.

Lemma sep_inserter_from_app b l1 l2 :
  sep_inserter_from b (l1 ++ l2)
  = sep_inserter_from b l1
    ++ sep_inserter_from (from_option is_num b (last l1)) l2.
Proof.
  revert b. induction l1 as [|x l1 IH]; intros b; [done|].
  rewrite from_option_last. simpl. by rewrite IH, <- app_assoc.
Qed.

(** A decimal and a character that is none never share a piece. *)
Lemma push_apart x y l :
  is_decimal x <> is_decimal y -> push x (push y l) = push x [] ++ push y l.
Proof.
  unfold push. intros H.
  destruct (is_decimal x), (is_decimal y); try done;
    destruct (other_digit x), (other_digit y); try done;
    by destruct l as [|[]].
Qed.

Lemma push_app x l l' : l <> [] -> push x (l ++ l') = push x l ++ l'.
Proof.
  intros H. unfold push. destruct l as [|k l]; [done|].
  destruct (is_decimal x), (other_digit x); by destruct k.
Qed.

Lemma push_nonempty x l : push x l <> [].
Proof.
  unfold push. destruct (is_decimal x), (other_digit x); by destruct l as [|[]].
Qed.

Lemma pieces_app a b :
  (forall x y, last a = Some x -> head b = Some y -> is_decimal x <> is_decimal y) ->
  pieces (a ++ b) = pieces a ++ pieces b.
Proof.
  induction a as [|x a IH]; [done|]. intros H.
  destruct a as [|x' a'].
  - destruct b as [|y b]; [simpl; by rewrite app_nil_r|].
    simpl. apply push_apart. by apply H.
  - change (pieces ((x :: x' :: a') ++ b)) with (push x (pieces ((x' :: a') ++ b))).
    rewrite IH by (intros x0 y Hx0; by apply H).
    apply push_app. simpl. apply push_nonempty.
Qed.

Lemma pieces_decimals d :
  d <> [] -> Forall (fun c => is_decimal c = true) d -> pieces d = [Decimals d].
Proof.
  induction d as [|c d IH]; [done|]. intros _ [Hc Hd]%Forall_cons.
  destruct d as [|c' d']; simpl; unfold push at 1; rewrite Hc; [done|].
  change (push c' (pieces d')) with (pieces (c' :: d')). by rewrite IH.
Qed.

Lemma nfd_digit c :
  is_ascii_digit c = true -> nfd (ord c) = [ord c] /\ is_decimal (ord c) = true.
Proof. destruct c as [[] [] [] [] [] [] [] []]; by vm_compute. Qed.

Lemma nfd_other c :
  is_ascii_digit c = false ->
  nfd (ord c) <> [] /\ Forall (fun x => is_decimal x = false) (nfd (ord c)).
Proof.
  destruct c as [[] [] [] [] [] [] [] []]; vm_compute; try done;
    intros _; split; try done; by repeat constructor.
Qed.

Lemma normalize_app a b : normalize (a ++ b) = normalize a ++ normalize b.
Proof. apply flat_map_app. Qed.

Lemma normalize_digits d :
  Forall (fun c => is_ascii_digit c = true) d ->
  normalize d = map ord d /\ Forall (fun c => is_decimal c = true) (map ord d).
Proof.
  induction 1 as [|c d Hc _ [IH1 IH2]]; [done|].
  destruct (nfd_digit c Hc) as [E1 E2].
  change (normalize (c :: d)) with (nfd (ord c) ++ normalize d).
  rewrite E1, IH1. split; [done | by constructor].
Qed.

Lemma last_normalize p x :
  (forall c, last p = Some c -> is_ascii_digit c = false) ->
  last (normalize p) = Some x -> is_decimal x = false.
Proof.
  destruct p as [|c p _] using rev_ind; [done|].
  intros H. rewrite normalize_app. change (normalize [c]) with (nfd (ord c) ++ []).
  rewrite app_nil_r. destruct (nfd_other c) as [Hne Hall].
  { apply H. by rewrite last_snoc. }
  destruct (nfd (ord c)) as [|y l _] using rev_ind; [done|].
  rewrite app_assoc, last_snoc. intros [= ->].
  rewrite Forall_app, Forall_singleton in Hall. tauto.
Qed.

Lemma head_normalize t y :
  (forall c, head t = Some c -> is_ascii_digit c = false) ->
  head (normalize t) = Some y -> is_decimal y = false.
Proof.
  destruct t as [|c t]; [done|]. intros H.
  change (normalize (c :: t)) with (nfd (ord c) ++ normalize t).
  destruct (nfd_other c) as [Hne Hall]; [by apply H|].
  destruct (nfd (ord c)) as [|z l]; [done|]. simpl. intros [= ->].
  by apply Forall_cons in Hall as [? _].
Qed.

(** The key of a name around one of its numbers: the key of what is
    before, the number, the key of what is after. *)
Lemma natsort_key_number p :
  (forall c, last p = Some c -> is_ascii_digit c = false) ->
  exists before,
    forall d t,
      d <> [] -> Forall (fun c => is_ascii_digit c = true) d ->
      (forall c, head t = Some c -> is_ascii_digit c = false) ->
      exists after,
        natsort_key (p ++ d ++ t)
        = before ++ Num (int_of_digits (map ord d)) :: after.
Proof.
  intros Hp.
  set (cp := map component (pieces (normalize p))).
  exists (sep_inserter_from true cp
          ++ if from_option is_num true (last cp) then [Txt []] else []).
  intros d' t' Hne Hd Ht.
  destruct (normalize_digits d' Hd) as [En Hdec].
  exists (sep_inserter_from true (map component (pieces (normalize t')))).
  unfold natsort_key. rewrite !normalize_app, En.
  assert (Hd0 : exists x l, map ord d' = x :: l /\ is_decimal x = true).
  { destruct d' as [|c l]; [done|]. apply Forall_cons in Hdec as [? _].
    by exists (ord c), (map ord l). }
  destruct Hd0 as (x0 & l0 & E0 & Hx0).
  rewrite pieces_app.
  2: { intros x y Hx Hy. rewrite (last_normalize p x Hp Hx).
       rewrite E0 in Hy. simpl in Hy. injection Hy as <-. by rewrite Hx0. }
  rewrite pieces_app.
  2: { intros x y Hx Hy. rewrite (head_normalize t' y Ht Hy).
       assert (Hin : x ∈ map ord d').
       { apply list_elem_of_lookup. exists (pred (length (map ord d'))).
         by rewrite <- last_lookup. }
       rewrite Forall_forall in Hdec. by rewrite (Hdec x Hin). }
  rewrite (pieces_decimals (map ord d')) by (done || by rewrite E0).
  rewrite !map_app. fold cp. rewrite sep_inserter_from_app. simpl.
  by rewrite andb_true_r, <- app_assoc.
Qed.

(** After the same text that ends in no digit, the smaller number comes
    first, whatever follows the numbers. *)
Lemma natural_leb_number p d1 d2 t1 t2 :
  (forall c, last p = Some c -> is_ascii_digit c = false) ->
  d1 <> [] -> Forall (fun c => is_ascii_digit c = true) d1 ->
  d2 <> [] -> Forall (fun c => is_ascii_digit c = true) d2 ->
  (forall c, head t1 = Some c -> is_ascii_digit c = false) ->
  (forall c, head t2 = Some c -> is_ascii_digit c = false) ->
  (int_of_digits (map ord d1) < int_of_digits (map ord d2))%N ->
  natural_leb (p ++ d1 ++ t1) (p ++ d2 ++ t2) = true
  /\ natural_leb (p ++ d2 ++ t2) (p ++ d1 ++ t1) = false.
Proof.
  intros Hp Hn1 Hd1 Hn2 Hd2 Ht1 Ht2 Hlt.
  destruct (natsort_key_number p Hp) as (before & Hkey).
  destruct (Hkey d1 t1 Hn1 Hd1 Ht1) as (a1 & E1).
  destruct (Hkey d2 t2 Hn2 Hd2 Ht2) as (a2 & E2).
  assert (E : key_compare (natsort_key (p ++ d1 ++ t1)) (natsort_key (p ++ d2 ++ t2)) = Lt).
  { rewrite E1, E2. unfold key_compare. rewrite lex_compare_app by apply _.
    simpl. by apply N.compare_lt_iff in Hlt as ->. }
  unfold natural_leb. rewrite E.
  by rewrite (cmp_opp (cmp := key_compare)), E.
Qed.

(** Outside ASCII the key is taken from the normal form, and a
    superscript digit is a number of its own: the accented [e] sorts as
    [e] followed by a mark, hence before [z], and [a] with the
    superscript two sorts before ["a10"]. *)
Lemma natsort_key_latin1 :
  natsort_key e_acute_pdf = [Txt [101; 769; 46; 112; 100; 102]%N]
  /\ natsorted [lit "z.pdf"; e_acute_pdf] = [e_acute_pdf; lit "z.pdf"]
  /\ natsort_key a_squared = [Txt [97%N]; Num 2]
  /\ natsorted [lit "a10"; a_squared] = [a_squared; lit "a10"].
Proof. by vm_compute. Qed.

(** ** Discovery of the files *)

Lemma remove_dups_constant {A} `{EqDecision A} (l : list A) e :
  l <> [] -> (forall x, x ∈ l -> x = e) -> remove_dups l = [e].
Proof.
  induction l as [|x l IH]; [done|]. intros _ H. simpl.
  assert (x = e) as -> by (apply H; by left).
  destruct l as [|y l].
  - destruct (decide_rel _ e []) as [Hin|_]; [by apply not_elem_of_nil in Hin | done].
  - assert (y = e) as -> by (apply H; right; by left).
    destruct (decide_rel _ e (e :: l)) as [_|Hnin]; [|exfalso; apply Hnin; by left].
    apply IH; [done|]. intros z Hz. apply H. by right.
Qed.

(** C4 (as amended).  For a directory that exists, whose regular files
    (the entries that [is_file] accepts, in the order of [iterdir]) are
    at least two with suffixes that, lower-cased, are all the same
    [ext], and [ext] in the lower-cased allow-list,
    [get_file_paths_and_extension] returns [ext] and a list that holds
    the resolved path of every regular file, one entry per file, in
    natural order; the entries are pairwise distinct when the resolved
    paths of the files are.  In natural order a run of decimal digits
    counts by its value: two strings that agree up to such a run, the
    run being whole on both sides (no digit before it, none after it),
    come in the order of the values of the runs whatever follows; so
    ["file2"], whose key is the text ["file"] and the number 2, comes
    before ["file10"]. *)
Theorem discover_natural_order v directory_path allowed_extensions ext :
  let directory := Path directory_path in
  let files :=
    filter (fun file => fs_is_file v (path_str file))
           (map (make_child directory) (fs_listdir v (path_str directory))) in
  let resolved := map (fun file => fs_resolve v (path_str file)) files in
  fs_exists v (path_str directory) = true ->
  fs_is_dir v (path_str directory) = true ->
  (2 <= length files)%nat ->
  (forall file, file ∈ files -> lower (suffix file) = ext) ->
  ext ∈ map lower allowed_extensions ->
  exists file_paths,
    get_file_paths_and_extension v directory_path allowed_extensions
    = Ok (file_paths, ext)
    /\ file_paths ≡ₚ resolved
    /\ (NoDup resolved -> NoDup file_paths)
    /\ StronglySorted natural_le file_paths
    /\ (forall p d1 d2 t1 t2,
          (forall c, last p = Some c -> is_ascii_digit c = false) ->
          d1 <> [] -> Forall (fun c => is_ascii_digit c = true) d1 ->
          d2 <> [] -> Forall (fun c => is_ascii_digit c = true) d2 ->
          (forall c, head t1 = Some c -> is_ascii_digit c = false) ->
          (forall c, head t2 = Some c -> is_ascii_digit c = false) ->
          (int_of_digits (map ord d1) < int_of_digits (map ord d2))%N ->
          natural_leb (p ++ d1 ++ t1) (p ++ d2 ++ t2) = true
          /\ natural_leb (p ++ d2 ++ t2) (p ++ d1 ++ t1) = false)
    /\ natsort_key (lit "file2") = [Txt (map ord (lit "file")); Num 2]
    /\ natsort_key (lit "file10") = [Txt (map ord (lit "file")); Num 10]
    /\ natural_leb (lit "file2") (lit "file10") = true
    /\ natural_leb (lit "file10") (lit "file2") = false.
Proof.
  intros directory files resolved Hex Hdir Hlen Hsuf Hallowed.
  exists (natsorted resolved).
  split; [|split; [apply natsorted_perm|split; [|split; [apply natsorted_sorted|]]]].
  2: { intros H. by rewrite natsorted_perm. }
  2: { split; [apply natural_leb_number | done]. }
  unfold get_file_paths_and_extension. fold directory. rewrite Hex, Hdir. simpl.
  unfold directory_files. fold files.
  destruct files as [|f files'] eqn:Ef; [simpl in Hlen; lia|].
  rewrite (remove_dups_constant _ ext).
  - by rewrite bool_decide_eq_false_2 by auto.
  - done.
  - intros x (file & -> & Hin)%list_elem_of_fmap. by apply Hsuf.
Qed.

(** C4, witness: the directory [/a] of the sample tree. *)
Lemma discover_natural_order_witness :
  get_file_paths_and_extension sample_view (lit "/a") [lit ".pdf"]
  = Ok ([lit "/a/file1.pdf"; lit "/a/file2.PDF"; lit "/a/file10.pdf"], lit ".pdf")
  /\ NoDup [lit "/a/file1.pdf"; lit "/a/file2.PDF"; lit "/a/file10.pdf"].
Proof.
  destruct (discover_natural_order sample_view (lit "/a") [lit ".pdf"] (lit ".pdf"))
    as (file_paths & E & _ & Hnodup & _).
  - reflexivity.
  - reflexivity.
  - vm_compute. lia.
  - intros file Hfile. vm_compute in Hfile.
    repeat (apply elem_of_cons in Hfile as [->|Hfile]; [reflexivity|]).
    by apply not_elem_of_nil in Hfile.
  - by left.
  - assert (Hd : NoDup file_paths).
    { apply Hnodup. vm_compute. apply (bool_decide_unpack _). by vm_compute. }
    vm_compute in E. injection E as <-. split; [reflexivity | exact Hd].
Defined.

(** C4, counterexample to the claim as first stated: in the directory
    [/l] the link [b.pdf] lies beside its target [a.pdf].  Both are
    regular files with the extension [.pdf], and the list that
    discovery returns holds the path of [a.pdf] twice and the path of
    [b.pdf] not at all. *)
Lemma discover_link_beside_target :
  let files :=
    filter (fun file => fs_is_file linked_view (path_str file))
           (map (make_child (Path (lit "/l")))
                (fs_listdir linked_view (path_str (Path (lit "/l"))))) in
  map path_str files = [lit "/l/a.pdf"; lit "/l/b.pdf"]
  /\ map (fun file => lower (suffix file)) files = [lit ".pdf"; lit ".pdf"]
  /\ exists file_paths,
       get_file_paths_and_extension linked_view (lit "/l") [lit ".pdf"]
       = Ok (file_paths, lit ".pdf")
       /\ file_paths = [lit "/l/a.pdf"; lit "/l/a.pdf"]
       /\ ~ NoDup file_paths
       /\ lit "/l/b.pdf" ∉ file_paths.
Proof.
  intros files. split; [by vm_compute|]. split; [by vm_compute|].
  exists [lit "/l/a.pdf"; lit "/l/a.pdf"].
  split; [by vm_compute|]. split; [done|]. split.
  - intros H. apply NoDup_cons in H as [H _]. apply H. by left.
  - intros H. vm_compute in H.
    repeat (apply elem_of_cons in H as [H|H]; [done|]).
    by apply not_elem_of_nil in H.
Qed.

(** ** The wizard *)

Lemma keeps_refl app : keeps app app.
Proof. by split. Qed.

Lemma keeps_trans a b c : keeps a b -> keeps b c -> keeps a c.
Proof. intros [E1 H1] [E2 H2]. split; [congruence | auto]. Qed.

(** An assignment to a field other than the stage index and the
    Previous button keeps both. *)
Lemma keeps_same_pager app app' :
  current_page_index app' = current_page_index app ->
  prev_button app' = prev_button app ->
  keeps app app'.
Proof.
  intros E1 E2. split; [done|]. unfold prev_button_fresh, get_prev_button_state.
  by rewrite E1, E2.
Qed.

Lemma keeps_update_buttons app : keeps app (update_buttons app).
Proof. destruct app. by split. Qed.

Lemma keeps_set_directory_path v app : keeps app (set_directory_path v app).
Proof. apply keeps_same_pager; by destruct app. Qed.
Lemma keeps_set_excel_file_path v app : keeps app (set_excel_file_path v app).
Proof. apply keeps_same_pager; by destruct app. Qed.
Lemma keeps_set_files l e app : keeps app (set_files l e app).
Proof. apply keeps_same_pager; by destruct app. Qed.
Lemma keeps_set_extension e app : keeps app (set_extension e app).
Proof. apply keeps_same_pager; by destruct app. Qed.
Lemma keeps_set_dataframe d o app : keeps app (set_dataframe d o app).
Proof. apply keeps_same_pager; by destruct app. Qed.
Lemma keeps_set_new_names l app : keeps app (set_new_names l app).
Proof. apply keeps_same_pager; by destruct app. Qed.
Lemma keeps_set_selected_options l app : keeps app (set_selected_options l app).
Proof. apply keeps_same_pager; by destruct app. Qed.
Lemma keeps_set_final_filename_format v app :
  keeps app (set_final_filename_format v app).
Proof. apply keeps_same_pager; by destruct app. Qed.
Lemma keeps_set_command c app : keeps app (set_command c app).
Proof. apply keeps_same_pager; by destruct app. Qed.
Lemma keeps_set_loading_state b app : keeps app (set_loading_state b app).
Proof. apply keeps_same_pager; by destruct app. Qed.

Create HintDb keeps_db.
#[export] Hint Resolve keeps_refl keeps_update_buttons keeps_set_directory_path
  keeps_set_excel_file_path keeps_set_files keeps_set_extension
  keeps_set_dataframe keeps_set_new_names keeps_set_selected_options
  keeps_set_final_filename_format keeps_set_command keeps_set_loading_state
  : keeps_db.

(** Chains of assignments. *)
Ltac keeps_chain :=
  repeat first
    [ apply keeps_refl
    | eapply keeps_trans; [|solve [eauto with keeps_db]] ].

Section WizardFacts.
Context {W : Type}.
Variable fs_view : W -> FsView.
Variable writable : W -> str -> bool.
Variable readable : W -> str -> bool.
Variable split_pdf : str -> str -> Z -> W -> bool * W.
Variable read_excel : W -> str -> result DataFrame.
Variable os_rename : str -> str -> W -> Z + W.
Variable float_repr : spec_float -> str.
Variable fl : flavour.

Lemma keeps_files_loaded app : keeps app (files_loaded fl app).
Proof. unfold files_loaded. destruct (_ && _); keeps_chain. Qed.

Lemma keeps_load_original_names splits app w app' w' :
  load_original_names fs_view split_pdf fl splits app w = Some (app', w') ->
  keeps app app'.
Proof.
  revert app w. induction splits as [|d rest IH]; intros app w; simpl.
  - destruct (get_file_paths_and_extension _ _ _) as [[files ext]|e].
    + destruct (_ && _); [done|]. intros [= <- <-].
      eapply keeps_trans; [|apply keeps_files_loaded]. keeps_chain.
    + intros [= <- <-]. keeps_chain.
  - destruct (get_file_paths_and_extension _ _ _) as [[files ext]|e].
    + destruct (_ && _).
      * destruct d as [|[pages|]].
        -- intros [= <- <-]. keeps_chain.
        -- destruct (split_pdf _ _ _ _) as [[] w1].
           ++ intros H%IH. eapply keeps_trans; [|exact H]. keeps_chain.
           ++ intros [= <- <-]. keeps_chain.
        -- intros [= <- <-].
           eapply keeps_trans; [|apply keeps_files_loaded]. keeps_chain.
      * intros [= <- <-].
        eapply keeps_trans; [|apply keeps_files_loaded]. keeps_chain.
    + intros [= <- <-]. keeps_chain.
Qed.

Lemma keeps_select_directory folder splits app w app' w' :
  select_directory fs_view writable split_pdf fl folder splits app w = Some (app', w') ->
  keeps app app'.
Proof.
  unfold select_directory. destruct (negb (nonempty folder)); [by intros [= <- <-]; keeps_chain|].
  destruct (negb (writable w folder)); [by intros [= <- <-]; keeps_chain|].
  intros H%keeps_load_original_names. eapply keeps_trans; [|exact H]. keeps_chain.
Qed.

Lemma keeps_load_dataframe app w :
  keeps app (load_dataframe fs_view read_excel app w).
Proof.
  unfold load_dataframe.
  destruct (load_excel_dataframe _ _ _ _) as [[df options]|e]; [|keeps_chain].
  destruct (_ && _); keeps_chain.
Qed.

Lemma keeps_select_excel_file file_path app w :
  keeps app (select_excel_file fs_view readable read_excel fl file_path app w).
Proof.
  unfold select_excel_file. destruct (negb (nonempty file_path)); [keeps_chain|].
  case_bool_decide; [keeps_chain|].
  destruct (negb (readable w file_path)); [keeps_chain|].
  eapply keeps_trans; [|apply keeps_load_dataframe]. keeps_chain.
Qed.

Lemma keeps_process_selection items app : keeps app (process_selection items app).
Proof. unfold process_selection. keeps_chain. Qed.

Lemma keeps_process_drag_and_drop f app : keeps app (process_drag_and_drop f app).
Proof. unfold process_drag_and_drop. destruct f as [[|c f]|]; keeps_chain. Qed.

Lemma keeps_start_renaming app w :
  keeps app (start_renaming os_rename float_repr fl app w).1.2.
Proof.
  unfold start_renaming.
  destruct (missing_columns app) as [missing|e]; [|keeps_chain].
  destruct (nonempty missing); [keeps_chain|].
  destruct (negb (format_matches _)); [keeps_chain|].
  destruct (loaded app ≫= _) as [names|e]; [|keeps_chain].
  destruct (negb (nonempty names)); [simpl; keeps_chain|].
  destruct (rename_files _ _ _ _) as [[[]|e] w']; simpl; keeps_chain.
Qed.

Lemma keeps_click_button answers app w app' w' :
  click_button fs_view writable readable split_pdf read_excel os_rename
    float_repr fl answers app w = Some (app', w') ->
  keeps app app'.
Proof.
  unfold click_button. destruct (button app); [|by intros [= <- <-]; keeps_chain].
  destruct (button_command app), answers; try done.
  - apply keeps_select_directory.
  - apply keeps_load_original_names.
  - intros [= <- <-]. apply keeps_select_excel_file.
  - intros [= <- <-]. apply keeps_process_selection.
  - intros [= <- <-]. apply keeps_process_drag_and_drop.
  - pose proof (keeps_start_renaming app w) as H.
    destruct (start_renaming _ _ _ _ _) as [[r app1] w1]. simpl in H.
    intros [= <- <-]. eapply keeps_trans; [exact H|]. keeps_chain.
Qed.

(** [change_page] moves by [direction] or not at all, stays in range,
    and leaves both pager buttons as the new stage wants them. *)
Lemma change_page_spec direction app :
  let app' := change_page direction app in
  (app' = app
   \/ (current_page_index app' = current_page_index app + direction
       /\ 0 <= current_page_index app' < pages_count
       /\ next_button app' = get_next_button_state app'))
  /\ (prev_button_fresh app -> prev_button_fresh app').
Proof.
  unfold change_page.
  destruct ((0 <=? current_page_index app + direction)
            && (current_page_index app + direction <? pages_count)) eqn:E;
    [|by split; [left|]].
  apply andb_true_iff in E as [E1%Z.leb_le E2%Z.ltb_lt].
  destruct app. unfold show_page. simpl in *.
  repeat case_match; simpl; (split; [right; split; [done|split; [lia|done]] | done]).
Qed.

Lemma step_spec e app w app' w' :
  step fs_view writable readable split_pdf read_excel os_rename float_repr fl
    e (app, w) = Some (app', w') ->
  (current_page_index app' = current_page_index app
   \/ (current_page_index app' = current_page_index app + 1
       /\ next_button app = NORMAL /\ 0 <= current_page_index app' < pages_count)
   \/ (current_page_index app' = current_page_index app - 1
       /\ prev_button app = NORMAL /\ 0 <= current_page_index app' < pages_count))
  /\ (prev_button_fresh app -> prev_button_fresh app').
Proof.
  destruct e as [| |answers]; simpl.
  - intros [= <- <-]. unfold click_prev. case_decide as Hb; [|by split; [left|]].
    destruct (change_page_spec (-1) app) as [[->|(E & Hr & _)] Hp]; [by split; [left|]|].
    split; [|done]. right. right. split; [lia|done].
  - intros [= <- <-]. unfold click_next. case_decide as Hb; [|by split; [left|]].
    destruct (change_page_spec 1 app) as [[->|(E & Hr & _)] Hp]; [by split; [left|]|].
    split; [|done]. right. left. done.
  - intros [E Hp]%keeps_click_button. split; [by left | done].
Qed.

(** The stage index stays in [0, 3] and the Previous button stays
    right along any run from the initial window. *)
Lemma run_invariant events app w app' w' :
  0 <= current_page_index app < pages_count -> prev_button_fresh app ->
  run fs_view writable readable split_pdf read_excel os_rename float_repr fl
    events (app, w) = Some (app', w') ->
  0 <= current_page_index app' < pages_count /\ prev_button_fresh app'.
Proof.
  revert app w. induction events as [|e events IH]; intros app w Hr Hp; simpl.
  - by intros [= <- <-].
  - destruct (step _ _ _ _ _ _ _ _ e (app, w)) as [[app1 w1]|] eqn:Es; [|done].
    simpl. apply step_spec in Es as [Hi Hp1]. apply IH; [|auto].
    destruct Hi as [->|[(_ & _ & ?)|(_ & _ & ?)]]; done.
Qed.
End WizardFacts.

(** What the two pager buttons are set to. *)
Lemma stage_ready_select_folder app :
  current_page_index app = 0 ->
  (get_next_button_state app = NORMAL
   <-> directory_path app <> DIRECTORY_DEFAULT
       /\ (1 < length (original_files_list app))%nat).
Proof.
  intros E. unfold get_next_button_state, is_stage_ready. rewrite E. simpl.
  destruct (bool_decide _ && _) eqn:Eb.
  - apply andb_true_iff in Eb as [Hd%bool_decide_eq_true Hl%Z.ltb_lt].
    split; [|done]. intros _. split; [done | lia].
  - split; [done|]. intros [Hd Hl].
    apply andb_false_iff in Eb as [Hb%bool_decide_eq_false | Hb%Z.ltb_ge]; [done | lia].
Qed.

Lemma prev_button_enabled app :
  prev_button_fresh app -> 0 <= current_page_index app ->
  (prev_button app = NORMAL <-> current_page_index app <> 0).
Proof.
  unfold prev_button_fresh, get_prev_button_state. intros -> H.
  destruct (0 <? current_page_index app) eqn:E.
  - apply Z.ltb_lt in E. split; [lia | done].
  - apply Z.ltb_ge in E. split; [done | lia].
Qed.

(** Along every run from the initial window, in every world, the
    stage index is in [0, 3] and Previous is enabled exactly when the
    stage is not the first one. *)
Lemma run_from_initial {W} fs_view writable readable split_pdf read_excel
    os_rename float_repr fl events (w w' : W) app' :
  run fs_view writable readable split_pdf read_excel os_rename float_repr fl
    events (initial_application, w) = Some (app', w') ->
  0 <= current_page_index app' <= 3
  /\ (prev_button app' = NORMAL <-> current_page_index app' <> 0).
Proof.
  intros H. apply run_invariant in H as [Hr Hp]; [|done..].
  split; [unfold pages_count in Hr; lia|].
  apply prev_button_enabled; [done | lia].
Qed.

(** C8, the run that breaks the claim.  Stage 1: the folder [/a] with
    three PDF files is chosen, which enables Next; then the folder [/b]
    with a single PDF file is chosen and the offer to split it is
    declined.  The folder and the file list are reset, but the pager
    buttons are not set again: Next is still enabled, with no folder
    chosen and no file found, and a click on it leads to stage 2. *)
Theorem next_button_stale_after_declined_split :
  exists app,
    sample_run
      [ClickButton (DirectoryDialogs (lit "/a") []);
       ClickButton (DirectoryDialogs (lit "/b") [SplitCancelled])]
      (initial_application, tt) = Some (app, tt)
    /\ current_page_index app = 0
    /\ next_button app = NORMAL
    /\ directory_path app = DIRECTORY_DEFAULT
    /\ original_files_list app = []
    /\ is_stage_ready app = false
    /\ sample_step ClickNext (app, tt) = Some (click_next app, tt)
    /\ current_page_index (click_next app) = 1.
Proof. eexists. repeat split; by vm_compute. Qed.

(* ================================================================== *)
(** * Part IV: further properties of the code                          *)
(* ================================================================== *)

(** ** Discovery: when it succeeds, and how it fails *)

Lemma remove_dups_singleton_inv {A} `{EqDecision A} (l : list A) e x :
  remove_dups l = [e] -> x ∈ l -> x = e.
Proof.
  intros E Hx. apply elem_of_remove_dups in Hx. rewrite E in Hx.
  by apply list_elem_of_singleton in Hx.
Qed.

(** X1.  [get_file_paths_and_extension] returns a result exactly when
    the directory exists, is a directory, holds at least one regular
    file (an entry that [is_file] accepts), all its regular files have
    the same lower-cased suffix and that suffix is in the lower-cased
    allow-list; the result is then the natural sort of the resolved
    paths of the regular files, with that suffix. *)
Theorem discover_succeeds_iff v directory_path allowed_extensions file_paths ext :
  let directory := Path directory_path in
  let files :=
    filter (fun file => fs_is_file v (path_str file))
           (map (make_child directory) (fs_listdir v (path_str directory))) in
  get_file_paths_and_extension v directory_path allowed_extensions
  = Ok (file_paths, ext)
  <-> fs_exists v (path_str directory) = true
      /\ fs_is_dir v (path_str directory) = true
      /\ files <> []
      /\ (forall file, file ∈ files -> lower (suffix file) = ext)
      /\ ext ∈ map lower allowed_extensions
      /\ file_paths
         = natsorted (map (fun file => fs_resolve v (path_str file)) files).
Proof.
  cbv zeta. unfold get_file_paths_and_extension.
  fold (directory_files v (Path directory_path)).
  generalize (directory_files v (Path directory_path)) as files.
  generalize (path_str (Path directory_path)) as dir.
  intros dir files. split.
  - destruct (fs_exists v dir); [|done].
    destruct (fs_is_dir v dir); [|done]. simpl.
    destruct files as [|f files']; [done|].
    destruct (remove_dups _) as [|e [|e' l]] eqn:Er; [done| |done].
    case_bool_decide as Hin; [done|]. intros [= <- <-].
    split; [done|split; [done|split; [done|split; [|split; [|done]]]]].
    + intros file Hfile. apply (remove_dups_singleton_inv _ _ _ Er).
      apply list_elem_of_fmap. by exists file.
    + exact Hin.
  - intros (-> & -> & Hne & Hall & Hin & ->). simpl.
    destruct files as [|f files']; [done|].
    rewrite (remove_dups_constant _ ext).
    + by rewrite bool_decide_eq_false_2 by auto.
    + done.
    + intros x (file & -> & Hfile)%list_elem_of_fmap. by apply Hall.
Qed.

(** X2.  In a directory that exists, two regular files whose suffixes
    differ after lower-casing make [get_file_paths_and_extension] fail
    with the error of mixed extensions, whatever the allow-list is. *)
Theorem discover_mixed_extensions v directory_path allowed_extensions f1 f2 :
  let directory := Path directory_path in
  let files := directory_files v directory in
  fs_exists v (path_str directory) = true ->
  fs_is_dir v (path_str directory) = true ->
  f1 ∈ files -> f2 ∈ files ->
  lower (suffix f1) <> lower (suffix f2) ->
  get_file_paths_and_extension v directory_path allowed_extensions
  = Raise (ValueError (lit "Error: Mixed file extensions in the directory.")).
Proof.
  cbv zeta. unfold get_file_paths_and_extension.
  generalize (directory_files v (Path directory_path)) as files.
  generalize (path_str (Path directory_path)) as dir.
  intros dir files -> -> H1 H2 Hne. simpl.
  destruct files as [|f files']; [by apply not_elem_of_nil in H1|].
  destruct (remove_dups _) as [|e [|e' l]] eqn:Er; [| |done].
  - assert (Hin : lower (suffix f1) ∈ remove_dups
                    (map (fun file => lower (suffix file)) (f :: files'))).
    { apply elem_of_remove_dups, list_elem_of_fmap. by exists f1. }
    rewrite Er in Hin. by apply not_elem_of_nil in Hin.
  - exfalso. apply Hne.
    rewrite (remove_dups_singleton_inv _ e (lower (suffix f1)) Er),
            (remove_dups_singleton_inv _ e (lower (suffix f2)) Er); try done.
    + apply list_elem_of_fmap. by exists f2.
    + apply list_elem_of_fmap. by exists f1.
Qed.

(** X2, witness: a PDF file beside a text file. *)
Lemma discover_mixed_extensions_witness :
  get_file_paths_and_extension mixed_view (lit "/m") [lit ".pdf"; lit ".txt"]
  = Raise (ValueError (lit "Error: Mixed file extensions in the directory.")).
Proof.
  apply (discover_mixed_extensions mixed_view (lit "/m") [lit ".pdf"; lit ".txt"]
           (make_child (Path (lit "/m")) (lit "a.pdf"))
           (make_child (Path (lit "/m")) (lit "b.txt"))).
  - reflexivity.
  - reflexivity.
  - by vm_compute; left.
  - vm_compute. right. left.
  - by vm_compute.
Defined.

(** ** Where a file goes when it is renamed *)

Lemma rfind_from_absent c s i acc : c ∉ s -> rfind_from c s i acc = acc.
Proof.
  revert i acc. induction s as [|x s IH]; intros i acc H; simpl; [done|].
  apply not_elem_of_cons in H as [Hne Hs]. rewrite (IH _ _ Hs).
  destruct (eqc x c) eqn:E; [|done]. apply eqc_true in E. congruence.
Qed.

Lemma rfind_from_last_occurrence c pre rest i acc :
  c ∉ rest ->
  rfind_from c (pre ++ c :: rest) i acc = i + Z.of_nat (length pre).
Proof.
  intros Hrest. revert i acc.
  induction pre as [|x pre IH]; intros i acc; simpl.
  - rewrite (rfind_from_absent _ _ _ _ Hrest).
    unfold eqc. rewrite bool_decide_eq_true_2 by done. lia.
  - rewrite IH. lia.
Qed.

Lemma elem_of_drop_inv {A} (x : A) n (l : list A) : x ∈ drop n l -> x ∈ l.
Proof.
  intros H. rewrite <- (take_drop n l). apply elem_of_app. by right.
Qed.

Lemma rfind_from_after c s i acc :
  let r := rfind_from c s i acc in
  i <= r -> acc < i -> c ∉ drop (S (Z.to_nat (r - i))) s.
Proof.
  revert i acc. induction s as [|x s IH]; intros i acc; simpl.
  - intros _ _. apply not_elem_of_nil.
  - intros Hr Hacc. destruct (decide (c ∈ s)) as [Hin|Hnin].
    + specialize (IH (i + 1) (if eqc x c then i else acc)). simpl in IH.
      destruct (rfind_from_spec c s (i + 1) (if eqc x c then i else acc))
        as [E|[Hb _]].
      * exfalso. clear IH Hr.
        assert (Hlast : forall j a, a < j -> j <= rfind_from c s j a).
        { clear -Hin. induction s as [|y s IHs]; intros j a Ha.
          - by apply not_elem_of_nil in Hin.
          - simpl. apply elem_of_cons in Hin as [->|Hin].
            + unfold eqc. rewrite bool_decide_eq_true_2 by done.
              destruct (rfind_from_spec y s (j + 1) j) as [E|[Hb _]]; simpl in *; lia.
            + specialize (IHs Hin (j + 1) (if eqc y c then j else a)).
              assert ((if eqc y c then j else a) < j + 1) by (destruct (eqc y c); lia).
              lia. }
        specialize (Hlast (i + 1) (if eqc x c then i else acc)).
        assert ((if eqc x c then i else acc) < i + 1) by (destruct (eqc x c); lia).
        lia.
      * assert (Hd : c ∉ drop (S (Z.to_nat
                  (rfind_from c s (i + 1) (if eqc x c then i else acc) - (i + 1)))) s).
        { apply IH; [lia|]. destruct (eqc x c); lia. }
        replace (Z.to_nat (rfind_from c s (i + 1) (if eqc x c then i else acc) - i))
          with (S (Z.to_nat (rfind_from c s (i + 1)
                               (if eqc x c then i else acc) - (i + 1)))) by lia.
        exact Hd.
    + rewrite (rfind_from_absent _ _ _ _ Hnin) in *.
      intros Hd. apply Hnin. eapply elem_of_drop_inv; exact Hd.
Qed.

(** The dot that starts a suffix is the last dot of the name. *)
Lemma suffix_last_dot s rest :
  suffix (Path s) = "."%char :: rest -> "."%char ∉ rest.
Proof.
  unfold suffix. set (n := name (Path s)).
  destruct ((0 <? rfind n ".") && (rfind n "." <? Z.of_nat (length n) - 1)) eqn:E;
    [|done].
  apply andb_true_iff in E as [H0 H1]. apply Z.ltb_lt in H0.
  intros Hd. pose proof (rfind_from_after "." n 0 (-1)) as Ha. simpl in Ha.
  fold (rfind n ".") in Ha. rewrite Z.sub_0_r in Ha.
  specialize (Ha ltac:(lia) ltac:(lia)).
  replace (S (Z.to_nat (rfind n "."))) with (Z.to_nat (rfind n ".") + 1)%nat in Ha by lia.
  rewrite <- drop_drop, Hd in Ha. exact Ha.
Qed.

Lemma Path_single c :
  c <> [] -> c <> lit "." -> "/"%char ∉ c ->
  Path c = {| root := []; parts := [c] |}.
Proof.
  intros Hne Hdot Hsep. unfold Path. f_equal.
  - destruct c as [|x c]; [done|]. apply not_elem_of_cons in Hsep as [Hx _].
    unfold parse_root. simpl. unfold eqc.
    rewrite bool_decide_eq_false_2 by congruence. done.
  - rewrite (split_on_single _ _ Hsep), filter_cons.
    by rewrite decide_True.
Qed.

Lemma parent_joinpath_single (dir : PurePath) c :
  c <> [] -> c <> lit "." -> "/"%char ∉ c ->
  name (joinpath dir c) = c /\ parent (joinpath dir c) = dir.
Proof.
  intros Hne Hdot Hsep. unfold joinpath. rewrite (Path_single c Hne Hdot Hsep). simpl.
  split.
  - unfold name. simpl. by rewrite last_last.
  - unfold parent. simpl. destruct (parts dir ++ [c]) eqn:E.
    + by apply app_eq_nil in E as [_ ?].
    + rewrite <- E, removelast_last. by destruct dir.
Qed.

(** X3.  A new name that is not empty, is not a single dot and holds no
    slash keeps the file in its directory: the destination has the
    parent of the original path and the name [new ++ suffix]; when the
    original has a suffix, the destination has the same suffix. *)
Theorem destination_plain_name original new :
  new <> [] -> new <> lit "." -> "/"%char ∉ new ->
  let dest := destination_path original new in
  name dest = new ++ suffix (Path original)
  /\ parent dest = parent (Path original)
  /\ (suffix (Path original) <> [] -> suffix dest = suffix (Path original)).
Proof.
  intros Hne Hdot Hsep. cbv zeta. unfold destination_path.
  set (sfx := suffix (Path original)).
  assert (Hs : sfx = [] \/ exists rest, sfx = "."%char :: rest /\ rest <> []
                                        /\ ("/"%char ∉ sfx) /\ ("."%char ∉ rest)).
  { destruct (decide (sfx = [])) as [|Hn]; [by left|right].
    destruct (suffix_shape original Hn) as (rest & E & Hr & Hs).
    exists rest. repeat split; try done. by apply (suffix_last_dot original). }
  assert (Hc : new ++ sfx <> [] /\ new ++ sfx <> lit "." /\ "/"%char ∉ (new ++ sfx)).
  { split; [|split].
    - intros [? _]%app_eq_nil. done.
    - destruct Hs as [->|(rest & -> & Hr & _)].
      + by rewrite app_nil_r.
      + destruct new as [|a [|b new]]; [done| |done].
        destruct rest; [done|done].
    - rewrite elem_of_app. intros [?|H]; [done|].
      destruct Hs as [E|(rest & _ & _ & Hs & _)]; [|done].
      rewrite E in H. by apply not_elem_of_nil in H. }
  destruct Hc as (Hc1 & Hc2 & Hc3).
  destruct (parent_joinpath_single (parent (Path original)) (new ++ sfx) Hc1 Hc2 Hc3)
    as [Hname Hparent].
  split; [done|split; [done|]].
  intros Hn. destruct Hs as [?|(rest & E & Hr & _ & Hlast)]; [done|].
  unfold suffix at 1. rewrite Hname, E. unfold rfind.
  rewrite (rfind_from_last_occurrence _ _ _ _ _ Hlast).
  rewrite length_app. simpl length.
  assert (0 < length new)%nat by (destruct new; [done|simpl; lia]).
  assert (0 < length rest)%nat by (destruct rest; [done|simpl; lia]).
  rewrite (proj2 (Z.ltb_lt _ _)) by lia. rewrite (proj2 (Z.ltb_lt _ _)) by lia.
  simpl. replace (Z.to_nat (0 + Z.of_nat (length new))) with (length new) by lia.
  by rewrite drop_app_length.
Qed.

(** X3, witness: [/a/file10.pdf] renamed to [report]. *)
Lemma destination_plain_name_witness :
  let dest := destination_path (lit "/a/file10.pdf") (lit "report") in
  name dest = lit "report.pdf"
  /\ parent dest = Path (lit "/a")
  /\ (suffix (Path (lit "/a/file10.pdf")) <> [] -> suffix dest = lit ".pdf").
Proof.
  apply (destination_plain_name (lit "/a/file10.pdf") (lit "report")).
  - done.
  - done.
  - by vm_compute; intros H; repeat (apply elem_of_cons in H as [H|H]; [done|]);
      apply not_elem_of_nil in H.
Defined.

(** X4.  A new name that begins with a slash is taken as an absolute
    path: the directory of the original file plays no part in the
    destination, which is the path [new ++ suffix] itself. *)
Theorem destination_absolute_name original new :
  startswith new (lit "/") = true ->
  destination_path original new = Path (new ++ suffix (Path original))
  /\ root (destination_path original new) <> [].
Proof.
  intros H. unfold destination_path, joinpath.
  destruct new as [|c new]; [done|]. simpl in H.
  apply andb_true_iff in H as [H _]. apply eqc_true in H. subst c.
  assert (E : root (Path (("/"%char :: new) ++ suffix (Path original))) <> []).
  { simpl. unfold parse_root. simpl. by destruct (_ || _). }
  destruct (root (Path (("/"%char :: new) ++ suffix (Path original)))) eqn:Er; [done|].
  split; [done|]. by rewrite Er.
Qed.

(** X4, witness: [/a/file10.pdf] renamed to [/tmp/x]. *)
Lemma destination_absolute_name_witness :
  destination_path (lit "/a/file10.pdf") (lit "/tmp/x") = Path (lit "/tmp/x.pdf")
  /\ root (destination_path (lit "/a/file10.pdf") (lit "/tmp/x")) <> [].
Proof.
  apply (destination_absolute_name (lit "/a/file10.pdf") (lit "/tmp/x")).
  reflexivity.
Defined.

(** ** Name generation: failures and templates without fields *)

Section NameGenerationEdges.
Variable float_repr : spec_float -> str.

Lemma substitute_app row (pre rest : list str) t :
  has_fields pre row ->
  exists t', substitute float_repr row (pre ++ rest) t
             = substitute float_repr row rest t'.
Proof.
  revert t. induction pre as [|col pre IH]; intros t H; simpl.
  - by exists t.
  - apply Forall_cons in H as [[v Hv] Hpre].
    unfold getitem. rewrite Hv. simpl. by apply IH.
Qed.

Lemma substitute_missing row pre col post t :
  has_fields pre row -> row !! col = None ->
  substitute float_repr row (pre ++ col :: post) t = Raise (KeyError col).
Proof.
  intros Hpre Hcol. destruct (substitute_app row pre (col :: post) t Hpre) as [t' ->].
  simpl. unfold getitem. by rewrite Hcol.
Qed.

Lemma substitute_raises row cols t e :
  substitute float_repr row cols t = Raise e ->
  exists col, e = KeyError col /\ col ∈ cols /\ row !! col = None.
Proof.
  revert t. induction cols as [|col cols IH]; intros t; simpl; [done|].
  unfold getitem. destruct (row !! col) as [v|] eqn:Hv; simpl.
  - intros (c & -> & Hin & Hc)%IH. exists c. split; [done|]. split; [by right|done].
  - intros [= <-]. exists col. split; [done|]. split; [by left|done].
Qed.

(** X5.  When every row before row [i] has all the selected columns,
    and row [i] has the columns [pre] but not the column [col] selected
    next, [generate_formatted_names] ends with the [KeyError] of [col]:
    no name is returned, not even those of the rows before. *)
Theorem generate_formatted_names_key_error fl df pre col post format_string
    before row after :
  rows df = before ++ row :: after ->
  Forall (has_fields (pre ++ col :: post)) before ->
  has_fields pre row ->
  row !! col = None ->
  generate_formatted_names float_repr fl df (pre ++ col :: post) format_string
  = Raise (KeyError col).
Proof.
  intros Hrows Hbefore Hpre Hcol. unfold generate_formatted_names.
  rewrite Hrows. clear Hrows.
  generalize ((splitext fl format_string).1) as base. intros base.
  induction before as [|r before IH]; simpl.
  - by rewrite (substitute_missing row pre col post base Hpre Hcol).
  - apply Forall_cons in Hbefore as [Hr Hbefore].
    destruct (substitute_expands float_repr r _ base Hr) as (n & -> & _). simpl.
    by rewrite (IH Hbefore).
Qed.

Lemma for_each_raises {A B} (f : A -> result B) l e :
  for_each f l = Raise e -> exists x, x ∈ l /\ f x = Raise e.
Proof.
  induction l as [|x l IH]; simpl; [done|].
  destruct (f x) as [y|e'] eqn:Hx; simpl.
  - destruct (for_each f l) as [ys|e''] eqn:Hl; simpl; [done|].
    intros [= <-]. destruct (IH eq_refl) as (z & Hz & Hf).
    exists z. split; [by right|done].
  - intros [= <-]. exists x. split; [by left|done].
Qed.

(** X6.  [generate_formatted_names] fails in one way only: with the
    [KeyError] of a selected column that some row of the table does not
    have. *)
Theorem generate_formatted_names_failure fl df cols format_string e :
  generate_formatted_names float_repr fl df cols format_string = Raise e ->
  exists col row,
    e = KeyError col /\ col ∈ cols /\ row ∈ rows df /\ row !! col = None.
Proof.
  unfold generate_formatted_names.
  intros (row & Hrow & Hs)%for_each_raises.
  apply substitute_raises in Hs as (col & -> & Hc & Hn).
  by exists col, row.
Qed.

Lemma replace_from_absent old new s :
  contains s old = false -> replace_from old new 0 s = s.
Proof.
  induction s as [|x s IH]; [done|]. intros H.
  cbn [contains] in H. apply orb_false_iff in H as [Hs Hc].
  rewrite (replace_from_copy _ _ _ _ Hs). by rewrite (IH Hc).
Qed.

Lemma substitute_no_field row cols t :
  has_fields cols row ->
  (forall col, col ∈ cols -> col <> [] /\ ~ occurs col t) ->
  substitute float_repr row cols t = Ok t.
Proof.
  induction cols as [|col cols IH]; intros Hf Hc; simpl; [done|].
  apply Forall_cons in Hf as [[v Hv] Hf]. unfold getitem. rewrite Hv. simpl.
  destruct (Hc col) as [Hne Hno]; [by left|].
  rewrite (replace_nonempty_old _ _ _ Hne), replace_from_absent
    by by apply contains_false.
  apply IH; [done|]. intros c Hin. apply Hc. by right.
Qed.

(** X7.  When no selected column name occurs in the template without
    its extension, every row is given that same text as its name: the
    cells are read and left unused. *)
Theorem generate_formatted_names_no_field fl df cols format_string :
  Forall (has_fields cols) (rows df) ->
  (forall col, col ∈ cols ->
     col <> [] /\ ~ occurs col (splitext fl format_string).1) ->
  generate_formatted_names float_repr fl df cols format_string
  = Ok (replicate (length (rows df)) (splitext fl format_string).1).
Proof.
  intros Hf Hc. unfold generate_formatted_names.
  induction (rows df) as [|r l IH]; simpl; [done|].
  apply Forall_cons in Hf as [Hr Hl].
  rewrite (substitute_no_field r cols _ Hr Hc). simpl. by rewrite (IH Hl).
Qed.
End NameGenerationEdges.

(** X5, witness: the column [Year] is selected and the table has only
    the column [Name]. *)
Lemma generate_formatted_names_key_error_witness :
  generate_formatted_names no_float_text Posix two_names
    [lit "Name"; lit "Year"] (lit "Name-Year.pdf")
  = Raise (KeyError (lit "Year")).
Proof.
  apply (generate_formatted_names_key_error no_float_text Posix two_names
           [lit "Name"] (lit "Year") [] (lit "Name-Year.pdf")
           [] {[ lit "Name" := VStr (lit "Alpha") ]}
           [ {[ lit "Name" := VStr (lit "Beta") ]} ]).
  - reflexivity.
  - constructor.
  - repeat constructor; eexists; by vm_compute.
  - by vm_compute.
Defined.

(** X7, witness: the template [fixed.pdf] with the column [Name]
    selected. *)
Lemma generate_formatted_names_no_field_witness :
  generate_formatted_names no_float_text Posix two_names [lit "Name"]
    (lit "fixed.pdf")
  = Ok [lit "fixed"; lit "fixed"].
Proof.
  apply (generate_formatted_names_no_field no_float_text Posix two_names
           [lit "Name"] (lit "fixed.pdf")).
  - repeat constructor; eexists; by vm_compute.
  - intros col ->%list_elem_of_singleton. split; [done|].
    apply contains_false. by vm_compute.
Defined.

(** X6, witness: the column [Year] is selected and the table has only
    the column [Name]. *)
Lemma generate_formatted_names_failure_witness :
  exists col row,
    KeyError (lit "Year") = KeyError col /\ col ∈ [lit "Year"]
    /\ row ∈ rows two_names /\ row !! col = None.
Proof.
  apply (generate_formatted_names_failure no_float_text Posix two_names
           [lit "Year"] (lit "Year.pdf") (KeyError (lit "Year"))).
  reflexivity.
Defined.

(** ** The template and its extension *)

Lemma rfind_absent s c : c ∉ s -> rfind s c = -1.
Proof. apply rfind_from_absent. Qed.

Lemma rfind_last_occurrence pre rest c :
  c ∉ rest -> rfind (pre ++ c :: rest) c = Z.of_nat (length pre).
Proof.
  intros H. unfold rfind. by rewrite (rfind_from_last_occurrence _ _ _ _ _ H).
Qed.

Lemma sep_index_absent fl p :
  "/"%char ∉ p -> "\"%char ∉ p -> sep_index fl p = -1.
Proof.
  intros H1 H2. unfold sep_index.
  destruct fl; rewrite ?(rfind_absent _ _ H1), ?(rfind_absent _ _ H2); lia.
Qed.

(** X8.  Taking the extension off a built file name gives back the
    text built from the labels and the entries: when the extension of
    the builder is a dot followed by characters other than dots and
    separators, and the built text holds no separator and a character
    other than a dot, [os.path.splitext] splits the file name into
    that text and the extension. *)
Theorem build_filename_splitext fl b e :
  let body := build_from 0 (labels b) (entries b) in
  extension b = "."%char :: e ->
  "."%char ∉ e -> "/"%char ∉ e -> "\"%char ∉ e ->
  "/"%char ∉ body -> "\"%char ∉ body ->
  (exists c, c ∈ body /\ c <> "."%char) ->
  splitext fl (build_filename b) = (body, extension b).
Proof.
  intros body Hext Hdot Hs1 Hs2 Hb1 Hb2 (c & Hc & Hcd).
  unfold build_filename. fold body. rewrite Hext. unfold splitext.
  rewrite sep_index_absent.
  - rewrite (rfind_last_occurrence _ _ _ Hdot). unfold slice. simpl.
    rewrite Nat2Z.id, Nat.sub_0_r, take_app_length, drop_app_length.
    rewrite (proj2 (Z.ltb_lt _ _)) by lia.
    change (Z.to_nat (-1 + 1)) with 0%nat. rewrite drop_0, take_app_length.
    cbn [andb].
    assert (existsb (fun c0 => negb (eqc c0 ".")) body = true) as ->; [|done].
    apply existsb_exists. exists c. split; [by apply list_elem_of_In|].
    apply negb_true_iff. by apply eqc_false.
  - rewrite elem_of_app, elem_of_cons. intros [?|[?|?]]; done.
  - rewrite elem_of_app, elem_of_cons. intros [?|[?|?]]; done.
Qed.

(** X8, witness: the template of the columns [Year] and [Name] with a
    dash between them. *)
Lemma build_filename_splitext_witness :
  splitext Posix
    (build_filename (edit_entry 0 (lit "-")
                       (new_builder [lit "Year"; lit "Name"] (lit ".pdf"))))
  = (lit "Year-Name", lit ".pdf").
Proof.
  apply (build_filename_splitext Posix
           (edit_entry 0 (lit "-") (new_builder [lit "Year"; lit "Name"] (lit ".pdf")))
           (lit "pdf")).
  - reflexivity.
  - by vm_compute; intros H; repeat (apply elem_of_cons in H as [H|H]; [done|]);
      apply not_elem_of_nil in H.
  - by vm_compute; intros H; repeat (apply elem_of_cons in H as [H|H]; [done|]);
      apply not_elem_of_nil in H.
  - by vm_compute; intros H; repeat (apply elem_of_cons in H as [H|H]; [done|]);
      apply not_elem_of_nil in H.
  - by vm_compute; intros H; repeat (apply elem_of_cons in H as [H|H]; [done|]);
      apply not_elem_of_nil in H.
  - by vm_compute; intros H; repeat (apply elem_of_cons in H as [H|H]; [done|]);
      apply not_elem_of_nil in H.
  - exists "Y"%char. split; [by vm_compute; left | done].
Defined.

(** ** The template builder: what its window keeps *)

Lemma new_builder_labels_NoDup words ext : NoDup (labels (new_builder words ext)).
Proof.
  simpl. apply NoDup_alt. intros i j x.
  rewrite !list_lookup_imap. 
  destruct (words !! i) eqn:Ei; [|done]. destruct (words !! j) eqn:Ej; [|done].
  simpl. intros [= <-] [= _ E]. done.
Qed.

Lemma reorder_label_perm b label drop_x :
  label ∈ labels b -> labels (reorder_label b label drop_x) ≡ₚ labels b.
Proof.
  intros Hin. simpl. rewrite bool_decide_eq_true_2 by done.
  rewrite list_insert_at_perm. by apply list_remove_perm.
Qed.

(** X9.  Whatever the user drops and types in the builder window, in
    any order: the labels stay a rearrangement of the labels the window
    was made with, with no label twice; there is one entry fewer than
    words; every entry holds only allowed characters; the extension is
    unchanged; every label sits in the grid column twice its index; and
    no file name is recorded before the user accepts. *)
Theorem builder_run_invariant words ext events :
  let b0 := new_builder words ext in
  let b := builder_run events b0 in
  Forall (drops_within (labels b0)) events ->
  labels b ≡ₚ labels b0
  /\ NoDup (labels b)
  /\ length (entries b) = (length words - 1)%nat
  /\ Forall (fun entry => forall c, c ∈ entry -> c ∈ ALLOWED_CHARS) (entries b)
  /\ extension b = extension b0
  /\ grid b = regrid (labels b)
  /\ final_filename b = None.
Proof.
  intros b0 b Hev. subst b.
  set (Inv := fun b : DragAndDropFixedInputs =>
         labels b ≡ₚ labels b0
         /\ NoDup (labels b)
         /\ length (entries b) = (length words - 1)%nat
         /\ Forall (fun entry => forall c, c ∈ entry -> c ∈ ALLOWED_CHARS) (entries b)
         /\ extension b = extension b0
         /\ grid b = regrid (labels b)
         /\ final_filename b = None).
  change (Inv (builder_run events b0)).
  assert (H0 : Inv b0).
  { split; [done|]. split; [apply new_builder_labels_NoDup|].
    split; [by simpl; rewrite length_replicate|].
    split; [|done]. simpl. apply Forall_replicate. by intros c ?%not_elem_of_nil. }
  cut (forall b, Inv b -> Inv (builder_run events b)); [by auto|].
  clear H0. induction events as [|e events IH]; intros b H0; [exact H0|].
  apply Forall_cons in Hev as [He Hev]. simpl. apply (IH Hev).
  destruct H0 as (Hp & Hnd & Hlen & Hent & Hext & Hgrid & Hfin).
  destruct e as [label drop_x|i v]; simpl in He |- *.
  - assert (Hin : label ∈ labels b) by by rewrite Hp.
    pose proof (reorder_label_perm b label drop_x Hin) as Hp'. simpl in Hp'.
    split; [by simpl; rewrite Hp'|]. split; [by simpl; rewrite Hp'|]. done.
  - unfold edit_entry. destruct (validate_input v) eqn:Hv; [|done].
    split; [done|]. split; [done|]. split; [by simpl; rewrite length_insert|].
    split; [|done]. simpl. apply Forall_insert; [done|]. by apply validate_input_spec.
Qed.

(** X9, witness: a drop and two edits, one of them refused. *)
Lemma builder_run_invariant_witness :
  let b0 := new_builder [lit "Year"; lit "Name"] (lit "pdf") in
  let b := builder_run [DropLabel {| text := lit "Name"; pair_index := 1 |} 0;
                        KeyInEntry 0 (lit "-"); KeyInEntry 0 (lit "-x")] b0 in
  build_filename b = lit "Name-Year.pdf"
  /\ labels b ≡ₚ labels b0
  /\ NoDup (labels b)
  /\ length (entries b) = 1%nat
  /\ Forall (fun entry => forall c, c ∈ entry -> c ∈ ALLOWED_CHARS) (entries b)
  /\ extension b = extension b0
  /\ grid b = regrid (labels b)
  /\ final_filename b = None.
Proof.
  split; [by vm_compute|].
  apply (builder_run_invariant [lit "Year"; lit "Name"] (lit "pdf")
           [DropLabel {| text := lit "Name"; pair_index := 1 |} 0;
            KeyInEntry 0 (lit "-"); KeyInEntry 0 (lit "-x")]).
  repeat constructor.
Defined.

Lemma build_from_chars c i lbls ents :
  c ∈ build_from i lbls ents <->
  (exists l, l ∈ lbls /\ c ∈ text l)
  \/ (exists j entry, (i <= j < i + length lbls)%nat
                      /\ ents !! j = Some entry /\ c ∈ entry).
Proof.
  revert i. induction lbls as [|l lbls IH]; intros i; simpl.
  - split; [by intros ?%not_elem_of_nil|].
    intros [(l & ?%not_elem_of_nil & _)|(j & entry & ? & _)]; [done|lia].
  - rewrite !elem_of_app, IH. split.
    + intros [H|[H|[(l' & Hl & Hc)|(j & entry & Hj & He & Hc)]]].
      * left. exists l. split; [by left|done].
      * right. destruct (ents !! i) as [entry|] eqn:E; simpl in H;
          [|by apply not_elem_of_nil in H].
        exists i, entry. split; [lia|done].
      * left. exists l'. split; [by right|done].
      * right. exists j, entry. split; [lia|done].
    + intros [(l' & [->|Hl]%elem_of_cons & Hc)|(j & entry & Hj & He & Hc)].
      * by left.
      * right. right. left. by exists l'.
      * destruct (decide (j = i)) as [->|Hne].
        -- right. left. by rewrite He.
        -- right. right. right. exists j, entry. split; [lia|done].
Qed.

(** X10.  For a builder whose label texts and extension pass the
    character class of the confirm check and whose entries hold only
    allowed characters, none of them beyond the labels: the built file
    name passes the confirm check exactly when no entry holds a comma
    or a semicolon. *)
Theorem built_name_check b :
  extension b <> [] ->
  (forall c, c ∈ extension b -> format_class c = true) ->
  Forall (fun l => forall c, c ∈ text l -> format_class c = true) (labels b) ->
  Forall (fun entry => validate_input entry = true) (entries b) ->
  (length (entries b) <= length (labels b))%nat ->
  format_matches (build_filename b) = true
  <-> forall entry, entry ∈ entries b ->
        (","%char ∉ entry) /\ (";"%char ∉ entry).
Proof.
  intros Hne Hext Hlab Hent Hlen. unfold build_filename. split.
  - intros Hm entry Hin.
    assert (Hbad : forall c, c ∈ entry -> format_class c = false -> c <> LF -> False).
    { intros c Hc Hcl Hlf.
      apply list_elem_of_lookup in Hin as [j Hj].
      pose proof (lookup_lt_Some _ _ _ Hj) as Hjl.
      unfold format_matches in Hm.
      rewrite (match_class_plus_other false _ c) in Hm; [done| |done|done].
      apply elem_of_app. left. apply build_from_chars. right.
      exists j, entry. split; [lia|done]. }
    split; intros Hc; by apply (Hbad _ Hc).
  - intros Hclean. apply format_matches_spec.
    exists (build_from 0 (labels b) (entries b) ++ extension b).
    split; [by intros [_ ?]%app_eq_nil|]. split; [|by left].
    intros c [Hc|Hc]%elem_of_app; [|by apply Hext].
    apply build_from_chars in Hc as [(l & Hl & Hc)|(j & entry & _ & Hj & Hc)].
    + rewrite Forall_forall in Hlab. by apply (Hlab l).
    + assert (Hin : entry ∈ entries b) by by eapply list_elem_of_lookup_2.
      rewrite Forall_forall in Hent.
      pose proof (proj1 (validate_input_spec entry) (Hent _ Hin) c Hc) as Ha.
      destruct (Hclean entry Hin) as [H1 H2].
      unfold ALLOWED_CHARS in Ha. simpl in Ha.
      apply elem_of_cons in Ha as [->|Ha]; [done|].
      apply elem_of_cons in Ha as [->|Ha]; [done|].
      apply elem_of_cons in Ha as [->|Ha]; [done|].
      apply elem_of_cons in Ha as [->|Ha]; [done|].
      apply elem_of_cons in Ha as [->|Ha]; [done|].
      by apply not_elem_of_nil in Ha.
Qed.

(** X10, witness: the columns [Year] and [Name] with a dash between. *)
Lemma built_name_check_witness :
  let b := edit_entry 0 (lit "-") (new_builder [lit "Year"; lit "Name"] (lit ".pdf")) in
  format_matches (build_filename b) = true
  <-> forall entry, entry ∈ entries b ->
        (","%char ∉ entry) /\ (";"%char ∉ entry).
Proof.
  apply (built_name_check
           (edit_entry 0 (lit "-") (new_builder [lit "Year"; lit "Name"] (lit ".pdf")))).
  - by vm_compute.
  - intros c Hc. vm_compute in Hc.
    repeat (apply elem_of_cons in Hc as [->|Hc]; [reflexivity|]).
    by apply not_elem_of_nil in Hc.
  - vm_compute. repeat constructor;
      intros c Hc; repeat (apply elem_of_cons in Hc as [->|Hc]; [reflexivity|]);
      by apply not_elem_of_nil in Hc.
  - by repeat constructor.
  - vm_compute. lia.
Defined.

Lemma list_remove_at {A} `{EqDecision A} (l : list A) i x :
  NoDup l -> l !! i = Some x -> list_remove x l = take i l ++ drop (S i) l.
Proof.
  revert i. induction l as [|y l IH]; intros i Hnd Hi; [done|].
  apply NoDup_cons in Hnd as [Hy Hnd]. simpl.
  destruct i as [|i]; simpl in Hi.
  - injection Hi as ->. by rewrite decide_True.
  - rewrite decide_False.
    + simpl. by rewrite (IH i Hnd Hi).
    + intros ->. apply Hy. by eapply list_elem_of_lookup_2.
Qed.

Lemma round_div_near a b k :
  0 < b -> 2 * Z.abs (a - b * k) < b -> round_div a b = k.
Proof.
  intros Hb H. pose proof (round_div_nearest a b Hb). nia.
Qed.

(** X11.  A label dropped within half a slot of the slot it is in stays
    where it is: the order of the labels, and so the built file name,
    is unchanged. *)
Theorem reorder_label_same_slot b label i drop_x :
  NoDup (labels b) ->
  labels b !! i = Some label ->
  2 * Z.abs (drop_x - CELL_WIDTH * 2 * Z.of_nat i) < CELL_WIDTH * 2 ->
  labels (reorder_label b label drop_x) = labels b
  /\ build_filename (reorder_label b label drop_x) = build_filename b.
Proof.
  intros Hnd Hi Hx.
  assert (E : labels (reorder_label b label drop_x) = labels b).
  { simpl. rewrite bool_decide_eq_true_2 by by eapply list_elem_of_lookup_2.
    pose proof (lookup_lt_Some _ _ _ Hi) as Hlt.
    unfold target_index. rewrite (round_div_near drop_x _ (Z.of_nat i)) by done.
    replace (Z.to_nat (Z.max 0 (Z.min (Z.of_nat i) (Z.of_nat (length (labels b)) - 1))))
      with i by lia.
    rewrite (list_remove_at _ i label Hnd Hi). unfold list_insert_at.
    rewrite take_app_le by (rewrite length_take; lia).
    rewrite take_take, Nat.min_id.
    rewrite drop_app_ge by (rewrite length_take; lia).
    rewrite length_take, Nat.min_l, Nat.sub_diag, drop_0 by lia.
    rewrite <- (take_drop_middle _ _ _ Hi) at 3. done. }
  split; [done|]. unfold build_filename. by rewrite E.
Qed.

(** X11, witness: the second of two labels dropped 100 pixels left of
    its slot. *)
Lemma reorder_label_same_slot_witness :
  let b := new_builder [lit "Year"; lit "Name"] (lit ".pdf") in
  let label := {| text := lit "Name"; pair_index := 1 |} in
  labels (reorder_label b label 140) = labels b
  /\ build_filename (reorder_label b label 140) = build_filename b.
Proof.
  apply (reorder_label_same_slot
           (new_builder [lit "Year"; lit "Name"] (lit ".pdf"))
           {| text := lit "Name"; pair_index := 1 |} 1 140).
  - apply new_builder_labels_NoDup.
  - reflexivity.
  - vm_compute. reflexivity.
Defined.

(** ** The wizard: what a click can and cannot do *)

Section WizardEdges.
Context {W : Type}.
Variable fs_view : W -> FsView.
Variable writable : W -> str -> bool.
Variable readable : W -> str -> bool.
Variable split_pdf : str -> str -> Z -> W -> bool * W.
Variable read_excel : W -> str -> result DataFrame.
Variable os_rename : str -> str -> W -> Z + W.
Variable float_repr : spec_float -> str.
Variable fl : flavour.

Lemma rename_loop_raises pairs (fs fs' : W) e :
  rename_loop os_rename pairs fs = (Raise e, fs') -> exists oe, e = OSError oe.
Proof.
  revert fs. induction pairs as [|[original new] pairs IH]; intros fs; simpl; [done|].
  unfold rename_one. destruct (os_rename _ _ fs) as [n|fs1].
  - intros [= <- <-]. by eexists.
  - apply IH.
Qed.

Lemma rename_files_raises files names (fs fs' : W) e :
  rename_files os_rename files names fs = (Raise e, fs') ->
  (e = ValueError count_mismatch_message /\ fs' = fs) \/ exists oe, e = OSError oe.
Proof.
  unfold rename_files. case_bool_decide.
  - intros [= <- <-]. by left.
  - intros Hr%rename_loop_raises. by right.
Qed.

Lemma start_renaming_application app (fs : W) :
  let out := start_renaming os_rename float_repr fl app fs in
  out.1.2 = app \/ exists names, out.1.2 = set_new_names names app.
Proof.
  cbv zeta. unfold start_renaming.
  destruct (missing_columns app) as [missing|e]; [|by left].
  destruct (nonempty missing); [by left|].
  destruct (negb (format_matches _)); [by left|].
  destruct (_ ≫= _) as [names|e]; [|by left].
  destruct (negb (nonempty names)); [right; by eexists|].
  destruct (rename_files os_rename _ names fs) as [[[]|e] fs']; right; by eexists.
Qed.

(** X12.  [start_renaming] changes the files only through
    [rename_files]: either the file system is as it was and success is
    not reported, or the table is loaded, the names generated from it
    are at least one, [rename_files] has been run on the files of the
    window and these names, the file system is the one it left, and the
    report is success when it returned and the exception it raised
    otherwise.  Of the window [start_renaming] changes at most the list
    of new names. *)
Theorem start_renaming_leaves_files app (fs : W) :
  let out := start_renaming os_rename float_repr fl app fs in
  ((out.2 = fs /\ out.1.1 <> Renamed)
   \/ exists df names,
        dataframe app = Some df
        /\ generate_formatted_names float_repr fl df (selected_options app)
             (final_filename_format app) = Ok names
        /\ names <> []
        /\ out.1.2 = set_new_names names app
        /\ match rename_files os_rename (original_files_list app) names fs with
           | (Ok _, fs') => out.1.1 = Renamed /\ out.2 = fs'
           | (Raise e, fs') => out.1.1 = Failed e /\ out.2 = fs'
           end)
  /\ (out.1.2 = app \/ exists names, out.1.2 = set_new_names names app).
Proof.
  cbv zeta. split; [|apply start_renaming_application].
  unfold start_renaming.
  destruct (missing_columns app) as [missing|e]; [|by left].
  destruct (nonempty missing); [by left|].
  destruct (negb (format_matches _)); [by left|].
  unfold loaded. destruct (dataframe app) as [df|]; [|by left]. simpl.
  destruct (generate_formatted_names _ _ _ _ _) as [names|e] eqn:Eg; [|by left].
  simpl.
  destruct names as [|name names]; [by left|]. simpl.
  right. exists df, (name :: names).
  replace (original_files_list (set_new_names (name :: names) app))
    with (original_files_list app) by by destruct app.
  by destruct (rename_files os_rename _ (name :: names) fs) as [[[]|e] fs'].
Qed.

Lemma change_page_button direction app :
  button (change_page direction app) = button app.
Proof.
  unfold change_page. destruct (_ && _); [|done].
  unfold show_page. destruct app. simpl.
  by repeat destruct (_ =? _).
Qed.

Lemma disabled_button_stuck events app (w : W) app' w' :
  button app = DISABLED ->
  run fs_view writable readable split_pdf read_excel os_rename float_repr fl
    events (app, w) = Some (app', w') ->
  button app' = DISABLED /\ w' = w.
Proof.
  revert app. induction events as [|e events IH]; intros app Hb; simpl.
  - by intros [= <- <-].
  - destruct e as [| |answers]; simpl.
    + apply IH. unfold click_prev. destruct (decide _); [|done].
      by rewrite change_page_button.
    + apply IH. unfold click_next. destruct (decide _); [|done].
      by rewrite change_page_button.
    + unfold click_button. rewrite Hb. simpl. by apply IH.
Qed.

Lemma discover_ext_allowed v directory_path allowed files ext :
  get_file_paths_and_extension v directory_path allowed = Ok (files, ext) ->
  ext ∈ map lower allowed.
Proof.
  unfold get_file_paths_and_extension.
  destruct (negb _); [done|]. destruct (negb _); [done|].
  destruct (directory_files _ _); [done|].
  destruct (remove_dups _) as [|e [|e' l']]; [done| |done].
  case_bool_decide as Hin; [done|]. by intros [= _ <-].
Qed.

(** X13.  When the folder holds a single PDF file, the user asks for a
    split and [split_pdf] fails, [load_original_names] returns with the
    main button still disabled and the folder set to the [split]
    folder; from then on no sequence of clicks enables the button
    again or changes anything outside the window. *)
Theorem failed_split_disables_main_button file ext n rest app (w w1 : W) :
  get_file_paths_and_extension (fs_view w) (directory_path app) [lit ".pdf"]
  = Ok ([file], ext) ->
  split_pdf file (path_join (directory_path app) (lit "split")) n w = (false, w1) ->
  exists app1,
    load_original_names fs_view split_pdf fl (SplitConfirmed (Some n) :: rest) app w
    = Some (app1, w1)
    /\ button app1 = DISABLED
    /\ directory_path app1 = path_join (directory_path app) (lit "split")
    /\ forall events app' w',
         run fs_view writable readable split_pdf read_excel os_rename float_repr fl
           events (app1, w1) = Some (app', w') ->
         button app' = DISABLED /\ w' = w1.
Proof.
  intros Hd Hs. pose proof (discover_ext_allowed _ _ _ _ _ Hd) as He.
  apply list_elem_of_singleton in He. change (lower (lit ".pdf")) with (lit ".pdf") in He.
  subst ext. destruct app as [dp ep files df nn ao so ef ff ci pb nb bc bs].
  cbn [load_original_names set_loading_state directory_path] in *.
  rewrite Hd. cbn [length set_files directory_path set_directory_path head default].
  rewrite bool_decide_eq_true_2 by done.
  rewrite bool_decide_eq_true_2 by done. cbn [andb].
  unfold id. rewrite Hs.
  eexists. split; [reflexivity|]. split; [done|]. split; [done|].
  intros events app' w'. by apply disabled_button_stuck.
Qed.
End WizardEdges.

(** X13, witness: the folder [/b] of the sample tree, with a splitter
    that fails. *)
Lemma failed_split_disables_main_button_witness :
  exists app1,
    load_original_names (fun _ : unit => sample_view) (fun _ _ _ w => (false, w)) Posix
      [SplitConfirmed (Some 1)]
      (set_directory_path (lit "/b") initial_application) tt
    = Some (app1, tt)
    /\ button app1 = DISABLED
    /\ directory_path app1 = lit "/b/split"
    /\ forall events app' w',
         sample_run events (app1, tt) = Some (app', w') ->
         button app' = DISABLED /\ w' = tt.
Proof.
  apply (failed_split_disables_main_button (fun _ : unit => sample_view)
           (fun _ _ => true) (fun _ _ => true) (fun _ _ _ w => (false, w))
           (fun _ _ => Raise AttributeError) (fun _ _ _ => inl ENOENT)
           (fun _ => lit "nan") Posix
           (lit "/b/only.pdf") (lit ".pdf") 1 []
           (set_directory_path (lit "/b") initial_application) tt tt).
  - by vm_compute.
  - reflexivity.
Defined.

Lemma builder_run_final_filename events b :
  final_filename (builder_run events b) = final_filename b
  /\ extension (builder_run events b) = extension b.
Proof.
  revert b. induction events as [|e events IH]; intros b; [done|]. simpl.
  destruct (IH (builder_step b e)) as [-> ->].
  destruct e as [label drop_x|i v]; cbn [builder_step]; [by split|].
  unfold edit_entry. by destruct (validate_input v).
Qed.

Lemma new_builder_extension_nonempty words ext :
  extension (new_builder words ext) <> [].
Proof.
  cbn [new_builder extension]. destruct (startswith ext (lit ".")) eqn:E.
  - intros ->. by vm_compute in E.
  - intros H. by vm_compute in H.
Qed.

(** X14.  On the stage of the output format, closing the builder with
    a confirmed Accept records the built file name as the template and
    enables Next; closing it in any other way empties the template and
    disables Next, whatever was built before. *)
Theorem show_filename_selector_next events accepted app :
  let b := builder_run events
             (new_builder (selected_options app) (extension_from_files app)) in
  let app' := show_filename_selector events accepted app in
  current_page_index app = 2 ->
  (accepted = true ->
     final_filename_format app' = build_filename b /\ next_button app' = NORMAL)
  /\ (accepted = false ->
        final_filename_format app' = [] /\ next_button app' = DISABLED).
Proof.
  cbv zeta. intros Hidx. unfold show_filename_selector.
  set (b := builder_run events _).
  destruct (builder_run_final_filename events
              (new_builder (selected_options app) (extension_from_files app)))
    as [Hfin Hext].
  fold b in Hfin, Hext.
  assert (Hne : build_filename b <> []).
  { unfold build_filename. intros [_ H]%app_eq_nil. rewrite Hext in H.
    by apply new_builder_extension_nonempty in H. }
  split; intros ->.
  - simpl final_filename. destruct (build_filename b) as [|c f]; [done|].
    unfold process_drag_and_drop. destruct app. simpl in *. by subst.
  - rewrite Hfin. simpl. destruct app. simpl in *. by subst.
Qed.

(** X14, witness: two columns selected, a dash typed between them. *)
Lemma show_filename_selector_next_witness :
  let app := set_page 2 (set_selected_options [lit "Year"; lit "Name"] three_selected) in
  let app' := show_filename_selector [KeyInEntry 0 (lit "-")] true app in
  (true = true ->
     final_filename_format app' = lit "Year-Name.pdf" /\ next_button app' = NORMAL)
  /\ (true = false ->
        final_filename_format app' = [] /\ next_button app' = DISABLED).
Proof.
  apply (show_filename_selector_next [KeyInEntry 0 (lit "-")] true
           (set_page 2 (set_selected_options [lit "Year"; lit "Name"] three_selected))).
  reflexivity.
Defined.

(** ** The wizard: what holds on every stage *)

Section WizardInvariant.
Context {W : Type}.
Variable fs_view : W -> FsView.
Variable writable : W -> str -> bool.
Variable readable : W -> str -> bool.
Variable split_pdf : str -> str -> Z -> W -> bool * W.
Variable read_excel : W -> str -> result DataFrame.
Variable os_rename : str -> str -> W -> Z + W.
Variable float_repr : spec_float -> str.
Variable fl : flavour.

Lemma folder_frame_refl app : folder_frame app app.
Proof. unfold folder_frame. auto 10. Qed.

Lemma folder_frame_trans a b c :
  folder_frame a b -> folder_frame b c -> folder_frame a c.
Proof.
  unfold folder_frame. intros (A1&A2&A3&A4&A5&A6) (B1&B2&B3&B4&B5&B6).
  split; [congruence|]. split; [congruence|]. split; [congruence|].
  split; [congruence|]. split; [congruence|].
  destruct B6 as [B6|B6]; [|by right]. rewrite B6. exact A6.
Qed.

Lemma folder_frame_files_loaded app : folder_frame app (files_loaded fl app).
Proof.
  unfold files_loaded, folder_frame. destruct app. simpl.
  destruct (_ && _); simpl; auto 10.
Qed.

Lemma folder_frame_load_original_names splits app (w : W) app' w' :
  load_original_names fs_view split_pdf fl splits app w = Some (app', w') ->
  folder_frame app app'.
Proof.
  revert app w. induction splits as [|d rest IH]; intros app w.
  - cbn [load_original_names].
    destruct (get_file_paths_and_extension _ _ _) as [[files ext]|e].
    + destruct (_ && _); [done|]. intros [= <- <-].
      eapply folder_frame_trans; [|apply folder_frame_files_loaded].
      unfold folder_frame. destruct app. simpl. auto 10.
    + intros [= <- <-]. unfold folder_frame. destruct app. simpl. auto 10.
  - cbn [load_original_names].
    destruct (get_file_paths_and_extension _ _ _) as [[files ext]|e].
    + destruct (_ && _).
      * destruct d as [|[n|]].
        -- intros [= <- <-]. unfold folder_frame. destruct app. simpl. auto 10.
        -- destruct (split_pdf _ _ _ _) as [[] w1].
           ++ intros H%IH. eapply folder_frame_trans; [|exact H].
              unfold folder_frame. destruct app. simpl. auto 10.
           ++ intros [= <- <-]. unfold folder_frame. destruct app. simpl. auto 10.
        -- intros [= <- <-].
           eapply folder_frame_trans; [|apply folder_frame_files_loaded].
           unfold folder_frame. destruct app. simpl. auto 10.
      * intros [= <- <-].
        eapply folder_frame_trans; [|apply folder_frame_files_loaded].
        unfold folder_frame. destruct app. simpl. auto 10.
    + intros [= <- <-]. unfold folder_frame. destruct app. simpl. auto 10.
Qed.

Lemma folder_frame_select_directory folder splits app (w : W) app' w' :
  select_directory fs_view writable split_pdf fl folder splits app w = Some (app', w') ->
  folder_frame app app'.
Proof.
  unfold select_directory.
  destruct (negb (nonempty folder)); [intros [= <- <-]; apply folder_frame_refl|].
  destruct (negb (writable w folder)); [intros [= <- <-]; apply folder_frame_refl|].
  intros H%folder_frame_load_original_names.
  eapply folder_frame_trans; [|exact H].
  unfold folder_frame. destruct app. simpl. auto 10.
Qed.

Lemma wizard_invariant_folder_frame app app' :
  current_page_index app = 0 ->
  stage_of_command (button_command app) = 0 ->
  button_command app <> CmdShowItemSelector ->
  wizard_invariant app -> folder_frame app app' -> wizard_invariant app'.
Proof.
  intros Hidx Hcmd Hns [H1 H2 H3 H4 H5 H6 H7 H8] (E1 & E2 & E3 & E4 & E5 & E6).
  split; rewrite ?E1, ?E2, ?E3, ?E4, ?E5; try done; try lia.
  - destruct E6 as [-> | ->]; [done|by rewrite Hidx].
  - intros Hc. destruct E6 as [E6|E6]; [by rewrite E6 in Hc|by rewrite Hc in E6].
Qed.

Lemma wizard_invariant_initial : wizard_invariant initial_application.
Proof. split; simpl; try done; try (unfold pages_count; lia). Qed.

Lemma wizard_invariant_change_page direction app :
  (direction = -1 \/ (direction = 1 /\ next_button app = NORMAL)) ->
  wizard_invariant app -> wizard_invariant (change_page direction app).
Proof.
  intros Hd Hinv. unfold change_page.
  destruct ((0 <=? _) && (_ <? pages_count)) eqn:Hr; [|done].
  apply andb_true_iff in Hr as [Hr1 Hr2]. apply Z.leb_le in Hr1. apply Z.ltb_lt in Hr2.
  destruct Hinv as [H1 H2 H3 H4 H5 H6 H7 H8].
  destruct app as [dp ep files df nn ao so ef ff ci pb nb bc bs].
  unfold pages_count in *. simpl in *.
  assert (Hnew : ci + direction = 0 \/ ci + direction = 1
                 \/ ci + direction = 2 \/ ci + direction = 3) by lia.
  assert (Hready1 : ci = 1 -> nb = NORMAL -> so <> [] /\ ep <> EXCEL_DEFAULT).
  { intros -> Hn. specialize (H5 eq_refl). rewrite Hn in H5.
    unfold get_next_button_state, is_stage_ready in H5. simpl in H5.
    destruct (bool_decide (ep <> EXCEL_DEFAULT)) eqn:Eb; simpl in H5; [|done].
    apply bool_decide_eq_true in Eb. by destruct so. }
  assert (Hready2 : ci = 2 -> nb = NORMAL -> ff <> []).
  { intros -> Hn. specialize (H6 eq_refl). rewrite Hn in H6.
    unfold get_next_button_state, is_stage_ready in H6. simpl in H6. by destruct ff. }
  destruct Hnew as [E|[E|[E|E]]]; rewrite E; simpl;
    (split; simpl; try done; try lia).
  - intros _. destruct Hd as [->|[-> Hn]]; [apply H7; lia|].
    destruct (decide (ci = 1)) as [->|]; [by apply Hready1|apply H7; lia].
  - intros _. destruct Hd as [->|[-> Hn]]; [apply H7; lia|].
    destruct (decide (ci = 1)) as [->|]; [by apply Hready1|apply H7; lia].
  - intros _. destruct Hd as [->|[-> Hn]]; [lia|].
    apply Hready2; [lia|done].
Qed.
Lemma wizard_invariant_load_dataframe app (w : W) :
  current_page_index app = 1 ->
  stage_of_command (button_command app) = 1 ->
  wizard_invariant app ->
  wizard_invariant (load_dataframe fs_view read_excel app w).
Proof.
  intros Hidx Hcmd [H1 H2 H3 H4 H5 H6 H7 H8]. unfold load_dataframe.
  destruct app as [dp ep files df nn ao so ef ff ci pb nb bc bs]. simpl in *. subst ci.
  destruct (load_excel_dataframe _ _ _ _) as [[d options]|e]; simpl.
  - destruct (nonempty options && negb (df_empty d)); simpl;
      (split; simpl; try done; try lia).
  - split; simpl; try done; lia.
Qed.

Lemma wizard_invariant_select_excel_file file_path app (w : W) :
  button_command app = CmdSelectExcelFile ->
  wizard_invariant app ->
  wizard_invariant (select_excel_file fs_view readable read_excel fl file_path app w).
Proof.
  intros Hcmd Hinv. unfold select_excel_file.
  destruct (negb (nonempty file_path)); [done|].
  case_bool_decide; [done|].
  destruct (negb (readable w file_path)); [done|].
  pose proof (inv_command _ Hinv) as Hidx. rewrite Hcmd in Hidx. simpl in Hidx.
  apply wizard_invariant_load_dataframe.
  - destruct app; simpl in *; done.
  - destruct app; simpl in *; by subst.
  - destruct Hinv as [H1 H2 H3 H4 H5 H6 H7 H8].
    destruct app as [dp ep files df nn ao so ef ff ci pb nb bc bs]. simpl in *.
    subst ci bc. split; simpl; try done; lia.
Qed.

Lemma wizard_invariant_process_selection items app :
  button_command app = CmdShowItemSelector ->
  wizard_invariant app -> wizard_invariant (process_selection items app).
Proof.
  intros Hcmd Hinv. pose proof (inv_command _ Hinv) as Hidx.
  rewrite Hcmd in Hidx. simpl in Hidx.
  destruct Hinv as [H1 H2 H3 H4 H5 H6 H7 H8]. unfold process_selection.
  destruct app as [dp ep files df nn ao so ef ff ci pb nb bc bs]. simpl in *.
  subst ci bc. split; simpl; try done; try lia. intros _. by apply H3.
Qed.

Lemma wizard_invariant_process_drag_and_drop f app :
  button_command app = CmdShowFilenameSelector ->
  wizard_invariant app -> wizard_invariant (process_drag_and_drop f app).
Proof.
  intros Hcmd Hinv. pose proof (inv_command _ Hinv) as Hidx.
  rewrite Hcmd in Hidx. simpl in Hidx.
  destruct Hinv as [H1 H2 H3 H4 H5 H6 H7 H8]. unfold process_drag_and_drop.
  destruct app as [dp ep files df nn ao so ef ff ci pb nb bc bs]. simpl in *.
  subst ci bc. destruct f as [[|c f]|]; (split; simpl; try done; try lia).
Qed.

Lemma wizard_invariant_new_names app names :
  wizard_invariant app ->
  wizard_invariant (set_loading_state false (set_new_names names app))
  /\ wizard_invariant (set_loading_state false app).
Proof.
  intros [H1 H2 H3 H4 H5 H6 H7 H8].
  destruct app as [dp ep files df nn ao so ef ff ci pb nb bc bs]. simpl in *.
  by split; split.
Qed.

Lemma wizard_invariant_click_button answers app (w : W) app' w' :
  wizard_invariant app ->
  click_button fs_view writable readable split_pdf read_excel os_rename
    float_repr fl answers app w = Some (app', w') ->
  wizard_invariant app'.
Proof.
  intros Hinv. unfold click_button. destruct (button app); [|by intros [= <- <-]].
  pose proof (inv_command _ Hinv) as Hidx.
  destruct (button_command app) eqn:Hcmd, answers; try done; simpl in Hidx.
  - intros H%folder_frame_select_directory.
    eapply wizard_invariant_folder_frame; [done| | |exact Hinv|exact H];
      by rewrite Hcmd.
  - intros H%folder_frame_load_original_names.
    eapply wizard_invariant_folder_frame; [done| | |exact Hinv|exact H];
      by rewrite Hcmd.
  - intros [= <- <-]. by apply wizard_invariant_select_excel_file.
  - intros [= <- <-]. by apply wizard_invariant_process_selection.
  - intros [= <- <-]. by apply wizard_invariant_process_drag_and_drop.
  - pose proof (start_renaming_application os_rename float_repr fl app w) as Ha.
    destruct (start_renaming os_rename float_repr fl app w) as [[r app1] w1].
    simpl in Ha. intros [= <- <-].
    destruct Ha as [->|[names ->]].
    + by apply (wizard_invariant_new_names app []).
    + by apply (wizard_invariant_new_names app names).
Qed.

Lemma wizard_invariant_run events app (w : W) app' w' :
  wizard_invariant app ->
  run fs_view writable readable split_pdf read_excel os_rename float_repr fl
    events (app, w) = Some (app', w') ->
  wizard_invariant app'.
Proof.
  revert app w. induction events as [|e events IH]; intros app w Hinv; simpl.
  - by intros [= <- <-].
  - destruct e as [| |answers]; simpl.
    + apply IH. unfold click_prev. destruct (decide _); [|done].
      apply wizard_invariant_change_page; [by left|done].
    + apply IH. unfold click_next. destruct (decide _) as [Hn|]; [|done].
      apply wizard_invariant_change_page; [by right|done].
    + destruct (click_button _ _ _ _ _ _ _ _ _ _ _) as [[app1 w1]|] eqn:E; [|done].
      simpl. apply IH. by eapply wizard_invariant_click_button.
Qed.

(** X15.  In every run from the initial window in which each click is
    handled to its end, the dialogs and the window it opens closed,
    before the next click is taken: the method bound to the main button
    is one of the stage shown, so renaming can only be started from the
    last stage; from the third stage on, columns are selected, a
    spreadsheet is chosen and its table is loaded; on the last stage
    the template is not empty; and [start_renaming], run there, never
    fails for want of a table. *)
Theorem run_keeps_wizard_invariant events (w : W) app' w' :
  run fs_view writable readable split_pdf read_excel os_rename float_repr fl
    events (initial_application, w) = Some (app', w') ->
  stage_of_command (button_command app') = current_page_index app'
  /\ (2 <= current_page_index app' ->
        selected_options app' <> [] /\ excel_file_path app' <> EXCEL_DEFAULT
        /\ dataframe app' <> None)
  /\ (current_page_index app' = 3 -> final_filename_format app' <> [])
  /\ (forall fs, 2 <= current_page_index app' ->
        (start_renaming os_rename float_repr fl app' fs).1.1 <> Failed AttributeError).
Proof.
  intros Hrun.
  pose proof (wizard_invariant_run _ _ _ _ _ wizard_invariant_initial Hrun) as Hinv.
  assert (Hloaded : 2 <= current_page_index app' ->
            selected_options app' <> [] /\ excel_file_path app' <> EXCEL_DEFAULT
            /\ dataframe app' <> None).
  { intros Hi. destruct (inv_past_1 _ Hinv Hi) as [Hs He].
    split; [done|]. split; [done|]. by apply (inv_selected _ Hinv). }
  split; [apply (inv_command _ Hinv)|]. split; [done|].
  split; [intros Hi; apply (inv_past_2 _ Hinv); lia|].
  intros fs Hi. destruct (Hloaded Hi) as (Hs & _ & Hdf).
  unfold start_renaming, missing_columns, loaded.
  destruct (selected_options app') as [|col cols] eqn:Eso; [done|].
  destruct (dataframe app') as [df|] eqn:Edf; [|done]. simpl.
  destruct (nonempty _); [done|].
  destruct (negb (format_matches _)); [done|].
  destruct (generate_formatted_names _ _ _ _ _) as [names|e] eqn:Eg; simpl.
  - destruct (negb (nonempty names)); [done|].
    destruct (rename_files os_rename _ names fs) as [[[]|e] fs'] eqn:E; simpl; [done|].
    destruct (rename_files_raises os_rename _ _ _ _ _ E) as [[-> _]|[oe ->]]; done.
  - unfold generate_formatted_names in Eg.
    apply for_each_raises in Eg as (r & _ & Hr).
    by apply substitute_raises in Hr as (c & -> & _).
Qed.
End WizardInvariant.

(** X15, witness: the clicks that lead to the last stage. *)
Lemma run_keeps_wizard_invariant_witness :
  exists app' w',
    office_run to_last_stage (initial_application, []) = Some (app', w')
    /\ current_page_index app' = 3
    /\ button_command app' = CmdStartRenaming
    /\ final_filename_format app' <> []
    /\ dataframe app' <> None.
Proof.
  destruct (office_run to_last_stage (initial_application, []))
    as [[app' w']|] eqn:E; [|by vm_compute in E].
  exists app', w'. split; [done|].
  destruct (run_keeps_wizard_invariant (fun _ => office_view) (fun _ _ => true)
              (fun _ _ => true) (fun _ _ _ w => (false, w)) (fun _ _ => Ok two_names)
              flat_rename (fun _ => lit "nan") Posix to_last_stage [] app' w' E)
    as (H1 & H2 & H3 & _).
  assert (Hi : current_page_index app' = 3).
  { vm_compute in E. by injection E as <- <-. }
  split; [done|]. rewrite Hi in H1, H2.
  split; [by destruct (button_command app')|].
  split; [by apply H3|]. by apply H2.
Defined.

(** ** Splitting a PDF file *)

Section SplitterFacts.
Import PdfSplitter.
Context {W Page : Type}.
Variable path_exists : W -> str -> bool.
Variable makedirs : str -> W -> bool * W.
Variable read_pages : W -> str -> option (list Page).
Variable write_pdf : str -> list Page -> W -> bool * W.

Lemma chunk_pages_spec (pages : list Page) i p :
  0 <= i -> 0 < p ->
  chunk_pages pages i (Z.min (i + p) (Z.of_nat (length pages)))
  = Some (take (Z.to_nat p) (drop (Z.to_nat i) pages)).
Proof.
  intros Hi Hp. unfold chunk_pages, range. simpl.
  set (total := Z.of_nat (length pages)).
  set (stop := Z.min (i + p) total).
  set (m := Z.to_nat (range_length i stop 1)).
  assert (Hm : m = Z.to_nat (stop - i)).
  { unfold m, range_length. simpl. destruct (i <? stop) eqn:E.
    - rewrite Z.div_1_r. lia.
    - apply Z.ltb_ge in E. lia. }
  apply mapM_Some. apply Forall2_same_length_lookup_2.
  - rewrite length_map, length_seq, length_take, length_drop. lia.
  - intros k x y Hx Hy. rewrite list_lookup_fmap in Hx.
    destruct (seq 0 m !! k) as [k'|] eqn:Ek; [|done].
    apply lookup_seq in Ek as [-> Hk]. simpl in Hx. injection Hx as <-.
    apply lookup_take_Some in Hy as [Hy _]. rewrite lookup_drop in Hy.
    pose proof (lookup_lt_Some _ _ _ Hy) as Hlt.
    unfold page_at. fold total.
    rewrite (proj2 (Z.ltb_ge _ _)) by lia.
    rewrite (proj2 (Z.leb_le _ _)) by lia.
    rewrite (proj2 (Z.ltb_lt _ _)) by lia. simpl.
    rewrite <- Hy. f_equal. lia.
Qed.

Lemma write_chunks_plan (pages : list Page) out p m a (w : W) :
  0 < p ->
  write_chunks write_pdf pages out p
    (map (fun k => 0 + Z.of_nat k * p) (seq a m)) w
  = write_all write_pdf
      (map (fun k =>
              (path_join out (lit "split_" ++ str_of_int (Z.of_nat k + 1) ++ lit ".pdf"),
               take (Z.to_nat p) (drop (k * Z.to_nat p) pages)))
           (seq a m)) w.
Proof.
  intros Hp. revert a w. induction m as [|m IH]; intros a w; [done|].
  cbn [seq map write_chunks write_all].
  rewrite chunk_pages_spec by lia.
  replace (Z.to_nat (0 + Z.of_nat a * p)) with (a * Z.to_nat p)%nat by lia.
  unfold output_filename.
  replace ((0 + Z.of_nat a * p) / p) with (Z.of_nat a)
    by (rewrite Z.add_0_l, Z.div_mul; lia).
  destruct (write_pdf _ _ w) as [[] w']; [apply IH|done].
Qed.

Lemma concat_chunks {A} (l : list A) n m :
  (0 < n)%nat -> (length l <= m * n)%nat ->
  concat (map (fun k => take n (drop (k * n) l)) (seq 0 m)) = l.
Proof.
  intros Hn. revert l. induction m as [|m IH]; intros l Hl.
  - destruct l; [done|simpl in Hl; lia].
  - cbn [seq map concat]. rewrite <- seq_shift, map_map. simpl.
    rewrite drop_0.
    rewrite (map_ext _ (fun k => take n (drop (k * n) (drop n l)))).
    + rewrite IH; [apply take_drop|]. rewrite length_drop. lia.
    + intros k. rewrite drop_drop. repeat f_equal; lia.
Qed.

(** X16.  For a chunk size above zero, once the output folder is there
    and the pages are read, [split_pdf] writes the files [split_1.pdf],
    [split_2.pdf], ... into the folder, in this order and up to the
    first write that fails.  The pages of these files, taken in order,
    are the pages of the document; every file holds at least one page
    and at most the chunk size; and their number is the page count over
    the chunk size, rounded up. *)
Theorem split_pdf_writes_plan input out p (w w0 : W) pages :
  let plan := split_plan pages out p in
  0 < p ->
  with_folder path_exists makedirs out w = (true, w0) ->
  read_pages w0 input = Some pages ->
  split_pdf path_exists makedirs read_pages write_pdf input out p w
  = write_all write_pdf plan w0
  /\ concat (map snd plan) = pages
  /\ Forall (fun f => (1 <= length f.2 <= Z.to_nat p)%nat) plan
  /\ Z.of_nat (length plan) = (Z.of_nat (length pages) + p - 1) / p.
Proof.
  intros plan Hp Hf Hr. subst plan. unfold split_plan.
  set (total := Z.of_nat (length pages)).
  set (n := Z.to_nat ((total + p - 1) / p)).
  assert (Hn0 : 0 <= (total + p - 1) / p) by (apply Z.div_pos; lia).
  assert (Hup : total <= Z.of_nat n * p).
  { unfold n. rewrite Z2Nat.id by done.
    pose proof (Z.mul_succ_div_gt (total + p - 1) p Hp). lia. }
  assert (Hlow : Z.of_nat n * p < total + p).
  { unfold n. rewrite Z2Nat.id by done.
    pose proof (Z.mul_div_le (total + p - 1) p Hp). lia. }
  split; [|split; [|split]].
  - unfold split_pdf. unfold with_folder in Hf. rewrite Hf. simpl. rewrite Hr.
    unfold range. rewrite (proj2 (Z.eqb_neq _ _)) by lia.
    fold total.
    assert (Z.to_nat (range_length 0 total p) = n) as ->.
    { unfold range_length. rewrite (proj2 (Z.ltb_lt _ _) Hp).
      destruct (0 <? total) eqn:E.
      - unfold n. f_equal.
        replace (total + p - 1) with (total - 0 - 1 + 1 * p) by lia.
        rewrite Z.div_add by lia. lia.
      - apply Z.ltb_ge in E. assert (total = 0) as -> by lia.
        unfold n. rewrite Z.div_small; lia. }
    by apply write_chunks_plan.
  - rewrite map_map. simpl.
    apply concat_chunks; [lia|]. unfold total in Hup. nia.
  - apply Forall_forall. intros f (k & -> & Hk)%list_elem_of_fmap.
    apply elem_of_seq in Hk. simpl.
    rewrite length_take, length_drop.
    assert (Z.of_nat k * p < total) by nia.
    unfold total in *. nia.
  - rewrite length_map, length_seq. unfold n. lia.
Qed.

(** X17.  With a chunk size of zero [split_pdf] fails, and with a
    negative one it succeeds whenever the folder is there and the
    document can be read; in both cases no file is written: the world
    is as the making of the folder left it. *)
Theorem split_pdf_no_chunk input out p (w : W) :
  let start := with_folder path_exists makedirs out w in
  let r := split_pdf path_exists makedirs read_pages write_pdf input out p w in
  p <= 0 ->
  r.2 = start.2
  /\ (p = 0 -> r.1 = false)
  /\ (p < 0 -> r.1 = start.1 && bool_decide (is_Some (read_pages start.2 input))).
Proof.
  cbv zeta. intros Hp. unfold split_pdf, with_folder.
  destruct (if negb (path_exists w out) then makedirs out w else (true, w))
    as [[] w0]; simpl; [|done].
  destruct (read_pages w0 input) as [pages|]; simpl; [|done].
  unfold range. destruct (p =? 0) eqn:E; simpl.
  - apply Z.eqb_eq in E. split; [done|]. split; [done|lia].
  - apply Z.eqb_neq in E. unfold range_length.
    rewrite (proj2 (Z.ltb_ge _ _)) by lia.
    rewrite (proj2 (Z.ltb_ge _ _)) by lia. simpl.
    split; [done|]. split; [lia|]. done.
Qed.
End SplitterFacts.

(** X16, witness: five pages in chunks of two. *)
Lemma split_pdf_writes_plan_witness :
  sample_split 2
  = (true, [(lit "/in/split/split_1.pdf", [1; 2]%nat);
            (lit "/in/split/split_2.pdf", [3; 4]%nat);
            (lit "/in/split/split_3.pdf", [5]%nat)])
  /\ Z.of_nat (length (split_plan [1; 2; 3; 4; 5]%nat (lit "/in/split") 2))
     = 3.
Proof.
  destruct (split_pdf_writes_plan (fun _ _ => true) (fun _ w => (true, w))
              (fun _ _ => Some [1; 2; 3; 4; 5]%nat)
              (fun file pages w => (true, w ++ [(file, pages)]))
              (lit "/in/doc.pdf") (lit "/in/split") 2 [] [] [1; 2; 3; 4; 5]%nat)
    as (H1 & _ & _ & H4); [lia|reflexivity|reflexivity|].
  split; [|exact H4]. unfold sample_split. rewrite H1. by vm_compute.
Defined.

(** X17, witness: a chunk size of zero. *)
Lemma split_pdf_no_chunk_witness :
  (sample_split 0).2 = [] /\ (sample_split 0).1 = false.
Proof.
  destruct (split_pdf_no_chunk (fun _ _ => true) (fun _ w => (true, w))
              (fun _ _ => Some [1; 2; 3; 4; 5]%nat)
              (fun file pages w => (true, w ++ [(file, pages)]))
              (lit "/in/doc.pdf") (lit "/in/split") 0 [])
    as (H1 & H2 & _); [lia|].
  split; [exact H1|by apply H2].
Defined.

(** ** The paginated selector *)

Section SelectorFacts.
Import PaginatedSelection.

Lemma ceil_div_pos a b : 0 < b -> ceil_div a b = Some ((a + b - 1) / b).
Proof.
  intros Hb. unfold ceil_div. rewrite (proj2 (Z.eqb_neq _ _)) by lia. f_equal.
  pose proof (Z.div_mod (- a) b ltac:(lia)).
  pose proof (Z.mod_pos_bound (- a) b Hb).
  pose proof (Z.div_mod (a + b - 1) b ltac:(lia)).
  pose proof (Z.mod_pos_bound (a + b - 1) b Hb).
  nia.
Qed.

Lemma ceil_bounds a b :
  0 < b -> 0 <= a ->
  a <= (a + b - 1) / b * b < a + b /\ 0 <= (a + b - 1) / b.
Proof.
  intros Hb Ha.
  pose proof (Z.div_mod (a + b - 1) b ltac:(lia)).
  pose proof (Z.mod_pos_bound (a + b - 1) b Hb).
  split; [nia|]. apply Z.div_pos; lia.
Qed.

Lemma py_slice_page {A} (l : list A) ipp k :
  0 < ipp -> 0 <= k ->
  py_slice l (k * ipp) ((k + 1) * ipp)
  = take (Z.to_nat ipp) (drop (Z.to_nat k * Z.to_nat ipp) l).
Proof.
  intros Hi Hk. unfold py_slice, slice_index.
  set (n := Z.of_nat (length l)).
  rewrite (proj2 (Z.ltb_ge _ _)) by nia.
  rewrite (proj2 (Z.ltb_ge _ _)) by nia.
  replace (Z.to_nat k * Z.to_nat ipp)%nat with (Z.to_nat (k * ipp)) by nia.
  destruct (Z_lt_le_dec (k * ipp) n) as [Hlt|Hge].
  - replace (Z.min (k * ipp) n) with (k * ipp) by lia.
    destruct (Z_le_gt_dec ((k + 1) * ipp) n) as [Hle|Hgt].
    + f_equal. lia.
    + replace (Z.min ((k + 1) * ipp) n) with n by lia.
      rewrite !take_ge; [done| |]; rewrite length_drop; unfold n in *; nia.
  - replace (Z.min (k * ipp) n) with n by lia.
    replace (Z.min ((k + 1) * ipp) n) with n by nia.
    rewrite (drop_ge l (Z.to_nat (k * ipp))) by (unfold n in *; lia).
    rewrite Z.sub_diag. by rewrite take_nil.
Qed.

Lemma displayed_alter (frames : list (list (str * Z))) c opt row :
  (c < length frames)%nat ->
  concat (map (map fst) (alter (fun frame => frame ++ [(opt, row)]) c frames))
  ≡ₚ concat (map (map fst) frames) ++ [opt].
Proof.
  revert c. induction frames as [|f frames IH]; intros c Hc; simpl in *; [lia|].
  destruct c as [|c]; simpl.
  - rewrite map_app. simpl. rewrite <- !app_assoc.
    apply Permutation_app_head. apply Permutation_app_comm.
  - rewrite <- app_assoc. apply Permutation_app_head. apply IH. lia.
Qed.

Lemma set_column_frames_twice f1 f2 s :
  set_column_frames f2 (set_column_frames f1 s) = set_column_frames f2 s.
Proof. by destruct s. Qed.

Lemma place_options_spec rows index opts s :
  0 < rows -> 0 <= index ->
  index + Z.of_nat (length opts) <= rows * Z.of_nat (length (column_frames s)) ->
  (forall o, o ∈ opts -> is_Some (variables s !! o)) ->
  (forall o, o ∈ selected_items s -> variables s !! o = Some 1) ->
  exists frames,
    place_options rows index opts s = Some (set_column_frames frames s)
    /\ length frames = length (column_frames s)
    /\ concat (map (map fst) frames)
       ≡ₚ concat (map (map fst) (column_frames s)) ++ opts.
Proof.
  intros Hrows. revert index s.
  induction opts as [|opt opts IH]; intros index s Hi Hlen Hvars Hticks.
  - exists (column_frames s). simpl. rewrite app_nil_r.
    split; [by destruct s|done].
  - cbn [place_options]. rewrite (proj2 (Z.eqb_neq _ _)) by lia.
    simpl length in Hlen.
    assert (Hs : (if bool_decide (opt ∈ selected_items s)
                  then _ ← variables s !! opt;
                       Some (set_variables (<[opt := 1]> (variables s)) s)
                  else Some s) = Some s).
    { case_bool_decide as Hsel; [|done].
      rewrite (Hticks _ Hsel). simpl. f_equal.
      rewrite insert_id by by apply Hticks. by destruct s. }
    rewrite Hs. simpl.
    assert (Hcol : 0 <= index / rows < Z.of_nat (length (column_frames s))).
    { split; [apply Z.div_pos; lia|]. apply Z.div_lt_upper_bound; lia. }
    unfold frame_index.
    rewrite (proj2 (Z.ltb_ge _ _)) by lia.
    rewrite (proj2 (Z.leb_le _ _)) by lia.
    rewrite (proj2 (Z.ltb_lt _ _)) by lia. simpl.
    destruct (Hvars opt) as [v Hv]; [by left|]. rewrite Hv. simpl.
    set (frames1 := alter _ _ (column_frames s)).
    assert (Hl1 : length frames1 = length (column_frames s))
      by apply length_alter.
    destruct (IH (index + 1) (set_column_frames frames1 s)) as (frames & E & Hl & Hp).
    + lia.
    + replace (column_frames (set_column_frames frames1 s)) with frames1
        by by destruct s.
      rewrite Hl1. lia.
    + intros o Ho. replace (variables (set_column_frames frames1 s))
        with (variables s) by by destruct s.
      apply Hvars. by right.
    + intros o. replace (variables (set_column_frames frames1 s))
        with (variables s) by by destruct s.
      replace (selected_items (set_column_frames frames1 s))
        with (selected_items s) by by destruct s.
      apply Hticks.
    + exists frames. rewrite E, set_column_frames_twice.
      replace (column_frames (set_column_frames frames1 s)) with frames1 in *
        by by destruct s.
      split; [done|]. split; [congruence|].
      rewrite Hp. unfold frames1. rewrite displayed_alter by lia.
      by rewrite <- app_assoc.
Qed.

Lemma create_buttons_spec s :
  0 < num_columns s ->
  Z.of_nat (length (column_frames s)) = num_columns s ->
  (forall o, o ∈ page_options s -> is_Some (variables s !! o)) ->
  (forall o, o ∈ selected_items s -> variables s !! o = Some 1) ->
  exists frames,
    create_buttons s = Some (set_column_frames frames s)
    /\ length frames = length (column_frames s)
    /\ concat (map (map fst) frames) ≡ₚ page_options s.
Proof.
  intros Hnc Hfr Hvars Hticks. unfold create_buttons. cbv zeta.
  set (s1 := set_column_frames (map (fun _ => []) (column_frames s)) s).
  assert (Hpage : page_options s1 = page_options s) by by destruct s.
  assert (Hcf : column_frames s1 = map (fun _ => []) (column_frames s)) by by destruct s.
  assert (Hempty : concat (map (map fst) (column_frames s1)) = []).
  { rewrite Hcf. clear. induction (column_frames s); [done|simpl; done]. }
  rewrite !Hpage. remember (page_options s) as po eqn:Ep.
  destruct po as [|o opts]; cbn [nonempty negb].
  - exists (map (fun _ => []) (column_frames s)). fold s1.
    split; [done|]. split; [by rewrite length_map|]. by rewrite <- Hcf, Hempty.
  - replace (num_columns s1) with (num_columns s) by by destruct s.
    rewrite (ceil_div_pos _ _ Hnc). cbn [mbind option_bind].
    set (len := Z.of_nat (length (o :: opts))).
    assert (Hlen : 0 < len) by (unfold len; simpl; lia).
    destruct (ceil_bounds len (num_columns s) Hnc ltac:(lia)) as [[Hb1 Hb2] Hb3].
    destruct (place_options_spec ((len + num_columns s - 1) / num_columns s) 0
                (o :: opts) s1) as (frames & E & Hl & Hp).
    + nia.
    + lia.
    + rewrite Hcf, length_map, Hfr. fold len. nia.
    + intros x Hx. replace (variables s1) with (variables s) by by destruct s.
      by apply Hvars.
    + intros x. replace (variables s1) with (variables s) by by destruct s.
      replace (selected_items s1) with (selected_items s) by by destruct s.
      apply Hticks.
    + exists frames. rewrite E. unfold s1. rewrite set_column_frames_twice.
      split; [done|]. split; [by rewrite Hl, Hcf, length_map|].
      by rewrite Hp, Hempty.
Qed.
Lemma page_options_subseteq s : page_options s ⊆ filtered_options s.
Proof.
  unfold page_options, py_slice. apply sublist_subseteq.
  etrans; [apply sublist_take|apply sublist_drop].
Qed.

Lemma selector_invariant_create options ipp nc s :
  0 < nc ->
  all_options s = options -> items_per_page s = ipp -> num_columns s = nc ->
  Z.of_nat (length (column_frames s)) = nc ->
  filtered_options s `sublist_of` options ->
  total_items s = Z.of_nat (length (filtered_options s)) ->
  total_pages s = (total_items s + ipp - 1) / ipp ->
  1 <= current_page s <= Z.max 1 (total_pages s) ->
  (forall o, is_Some (variables s !! o) <-> o ∈ options) ->
  (forall o, o ∈ selected_items s <-> variables s !! o = Some 1) ->
  exists s', create_buttons s = Some s' /\ selector_invariant options ipp nc s'.
Proof.
  intros Hnc H1 H2 H3 H4 H5 H6 H7 H8 H9 H10.
  destruct (create_buttons_spec s) as (frames & E & Hl & Hp).
  - by rewrite H3.
  - by rewrite H3.
  - intros o Ho. apply H9. apply (sublist_subseteq _ _ H5).
    by apply page_options_subseteq.
  - intros o. apply H10.
  - exists (set_column_frames frames s). split; [done|].
    destruct s as [ao fo nc' ip cp si vs ti tp cf cl]. simpl in *.
    split; simpl; try done. lia.
Qed.

Lemma foldl_variables_lookup (l : list str) (m : gmap str Z) o :
  (is_Some (foldl (fun m opt => <[opt := 0]> m) m l !! o)
   <-> is_Some (m !! o) \/ o ∈ l)
  /\ (forall v, foldl (fun m opt => <[opt := 0]> m) m l !! o = Some v ->
                m !! o = Some v \/ v = 0).
Proof.
  revert m. induction l as [|x l IH]; intros m; simpl.
  - split; [|by left]. split; [by left|]. by intros [?|?%not_elem_of_nil].
  - destruct (IH (<[x := 0]> m)) as [IH1 IH2]. split.
    + rewrite IH1, lookup_insert_is_Some, elem_of_cons. split.
      * intros [[->|[_ ?]]|?]; auto.
      * intros [?|[->|?]]; auto. destruct (decide (x = o)); auto.
    + intros v Hv. destruct (IH2 v Hv) as [Hm|?]; [|by right].
      apply lookup_insert_Some in Hm as [[_ <-]|[_ Hm]]; [by right|by left].
Qed.

Lemma selector_invariant_init options ipp nc :
  0 < ipp -> 0 < nc ->
  exists s, init options ipp nc = Some s /\ selector_invariant options ipp nc s.
Proof.
  intros Hi Hnc. unfold init, update_total_pages. simpl.
  rewrite (ceil_div_pos _ _ Hi). simpl.
  apply selector_invariant_create; simpl; try done.
  - rewrite length_replicate. lia.
  - pose proof (ceil_bounds (Z.of_nat (length options)) ipp Hi ltac:(lia)). lia.
  - intros o. destruct (foldl_variables_lookup options ∅ o) as [-> _].
    rewrite lookup_empty. split; [intros [[? ?]|?]; done|by right].
  - intros o. split; [by intros ?%not_elem_of_empty|].
    intros Ho. destruct (foldl_variables_lookup options ∅ o) as [_ H].
    destruct (H 1 Ho) as [?|?]; done.
Qed.

Lemma selector_invariant_click options ipp nc opt s :
  selector_invariant options ipp nc s ->
  exists s', click_checkbutton opt s = Some s' /\ selector_invariant options ipp nc s'
             /\ closed s' = closed s.
Proof.
  intros Hinv. unfold click_checkbutton. case_bool_decide as Hd; [|by exists s].
  assert (Hin : opt ∈ options).
  { apply (sublist_subseteq _ _ (sel_filtered _ _ _ _ Hinv)).
    apply page_options_subseteq. by rewrite <- (sel_displayed _ _ _ _ Hinv). }
  destruct (proj2 (sel_vars _ _ _ _ Hinv opt) Hin) as [v Hv]. rewrite Hv. simpl.
  unfold select_option.
  replace (variables (set_variables (<[opt := if v =? 1 then 0 else 1]> (variables s)) s))
    with (<[opt := if v =? 1 then 0 else 1]> (variables s)) by by destruct s.
  rewrite lookup_insert_eq. simpl.
  destruct Hinv as [H1 H2 H3 H4 H5 H6 H7 H8 H9 H10 H11].
  destruct s as [ao fo nc' ip cp si vs ti tp cf cl]. simpl in *.
  destruct (v =? 1) eqn:E; simpl.
  - apply Z.eqb_eq in E. subst v. eexists. split; [done|]. split; [|done].
    split; simpl; try done.
    + intros o. rewrite lookup_insert_is_Some. rewrite H9. split.
      * intros [<-|[_ ?]]; done.
      * intros ?. destruct (decide (opt = o)); auto.
    + intros o. destruct (decide (o = opt)) as [->|Hne].
      * rewrite lookup_insert_eq, elem_of_difference, elem_of_singleton.
        split; [by intros [_ ?]|done].
      * rewrite lookup_insert_ne by done.
        rewrite <- H10, elem_of_difference, elem_of_singleton.
        split; [by intros [? _]|by intros ?].
  - eexists. split; [done|]. split; [|done].
    split; simpl; try done.
    + intros o. rewrite lookup_insert_is_Some. rewrite H9. split.
      * intros [<-|[_ ?]]; done.
      * intros ?. destruct (decide (opt = o)); auto.
    + intros o. destruct (decide (o = opt)) as [->|Hne].
      * rewrite lookup_insert_eq, elem_of_union, elem_of_singleton.
        split; auto.
      * rewrite lookup_insert_ne by done.
        rewrite <- H10, elem_of_union, elem_of_singleton.
        split; [intros [?|?]; done|auto].
Qed.

Lemma selector_invariant_step options ipp nc e s :
  0 < ipp -> 0 < nc ->
  selector_invariant options ipp nc s ->
  exists s', selector_step e s = Some s' /\ selector_invariant options ipp nc s'.
Proof.
  intros Hi Hnc Hinv. unfold selector_step.
  destruct (closed s); [by exists s|].
  destruct e as [opt| | |search_text|confirmed|].
  - destruct (selector_invariant_click options ipp nc opt s Hinv) as (s' & E & H & _).
    by exists s'.
  - unfold prev_page. destruct (1 <? current_page s) eqn:E; [|by exists s].
    apply Z.ltb_lt in E. destruct Hinv as [H1 H2 H3 H4 H5 H6 H7 H8 H9 H10 H11].
    apply selector_invariant_create; try done;
      destruct s as [ao fo nc' ip cp si vs ti tp cf cl]; simpl in *; try done. lia.
  - unfold next_page. destruct (current_page s <? total_pages s) eqn:E; [|by exists s].
    apply Z.ltb_lt in E. destruct Hinv as [H1 H2 H3 H4 H5 H6 H7 H8 H9 H10 H11].
    apply selector_invariant_create; try done;
      destruct s as [ao fo nc' ip cp si vs ti tp cf cl]; simpl in *; try done. lia.
  - unfold filter_options, update_total_pages.
    destruct Hinv as [H1 H2 H3 H4 H5 H6 H7 H8 H9 H10 H11].
    destruct s as [ao fo nc' ip cp si vs ti tp cf cl]. simpl in *. subst ao ip nc'.
    destruct (nonempty (lower search_text)); simpl;
      rewrite (ceil_div_pos _ _ Hi); simpl;
      (apply selector_invariant_create; simpl; try done; try apply sublist_filter;
       match goal with
       | |- context [Z.of_nat (length ?l)] =>
           pose proof (ceil_bounds (Z.of_nat (length l)) ipp Hi ltac:(lia))
       end; lia).
  - exists (accept confirmed s). split; [done|].
    destruct Hinv as [H1 H2 H3 H4 H5 H6 H7 H8 H9 H10 H11].
    unfold accept. destruct confirmed; [|by split].
    destruct s as [ao fo nc' ip cp si vs ti tp cf cl]. by split.
  - exists (cancel s). split; [done|].
    destruct Hinv as [H1 H2 H3 H4 H5 H6 H7 H8 H9 H10 H11].
    destruct s as [ao fo nc' ip cp si vs ti tp cf cl]. by split.
Qed.

Lemma selector_invariant_run options ipp nc events s :
  0 < ipp -> 0 < nc ->
  selector_invariant options ipp nc s ->
  exists s', selector_run events s = Some s' /\ selector_invariant options ipp nc s'.
Proof.
  intros Hi Hnc. revert s. induction events as [|e events IH]; intros s Hinv; simpl.
  - by exists s.
  - destruct (selector_invariant_step options ipp nc e s Hi Hnc Hinv) as (s1 & -> & H1).
    simpl. by apply IH.
Qed.

(** X18.  A selector made with a page size and a number of columns
    above zero never raises, whatever the user clicks and types; and at
    every moment the page shown is one of the pages there are (the
    first when nothing matches), the checkbuttons on display are those
    of the options of that page, the options listed are a subsequence
    of all the options, and the variable of an option is 1 exactly when
    the option is selected. *)
Theorem selector_never_raises options ipp nc events :
  0 < ipp -> 0 < nc ->
  exists s,
    (s0 ← init options ipp nc; selector_run events s0) = Some s
    /\ selector_invariant options ipp nc s.
Proof.
  intros Hi Hnc.
  destruct (selector_invariant_init options ipp nc Hi Hnc) as (s0 & -> & H0). simpl.
  by apply selector_invariant_run.
Qed.
End SelectorFacts.

(** X18, witness: three options on pages of two, in three columns. *)
Lemma selector_never_raises_witness :
  exists s,
    (s0 ← PaginatedSelection.init [lit "Year"; lit "Name"; lit "Code"] 2 3;
     PaginatedSelection.selector_run
       [PaginatedSelection.ClickCheckbutton (lit "Name");
        PaginatedSelection.ClickNextPage;
        PaginatedSelection.KeyRelease (lit "e");
        PaginatedSelection.ClickCancel] s0) = Some s
    /\ selector_invariant [lit "Year"; lit "Name"; lit "Code"] 2 3 s.
Proof.
  apply (selector_never_raises [lit "Year"; lit "Name"; lit "Code"] 2 3
           [PaginatedSelection.ClickCheckbutton (lit "Name");
            PaginatedSelection.ClickNextPage;
            PaginatedSelection.KeyRelease (lit "e");
            PaginatedSelection.ClickCancel]); lia.
Defined.

Section SelectorPages.
Import PaginatedSelection.

(** X19.  For a page size above zero, the pages from the first to the
    last that [update_total_pages] counts hold, one after the other,
    the options listed, each option of the list once; no page is empty
    and none holds more options than the page size. *)
Theorem pages_cover_options s s' :
  0 < items_per_page s ->
  update_total_pages s = Some s' ->
  concat (map (fun k => page_options (set_current_page (Z.of_nat k + 1) s'))
              (seq 0 (Z.to_nat (total_pages s'))))
  = filtered_options s
  /\ (forall p, 1 <= p <= total_pages s' ->
        (1 <= length (page_options (set_current_page p s'))
           <= Z.to_nat (items_per_page s))%nat).
Proof.
  intros Hi. unfold update_total_pages. rewrite (ceil_div_pos _ _ Hi). simpl.
  intros [= <-]. destruct s as [ao fo nc ip cp si vs ti tp cf cl]. simpl in *.
  pose proof (ceil_bounds (Z.of_nat (length fo)) ip Hi ltac:(lia)) as [[Hb1 Hb2] Hb3].
  set (tp' := (Z.of_nat (length fo) + ip - 1) / ip) in *.
  assert (Hpage : forall k, 0 <= k ->
            page_options (MkSelector ao fo nc ip (k + 1) si vs
                            (Z.of_nat (length fo)) tp' cf cl)
            = take (Z.to_nat ip) (drop (Z.to_nat k * Z.to_nat ip) fo)).
  { intros k Hk. unfold page_options. simpl.
    replace (k + 1 - 1) with k by lia. by apply py_slice_page. }
  split.
  - rewrite (map_ext _ (fun k => take (Z.to_nat ip) (drop (k * Z.to_nat ip) fo))).
    + apply concat_chunks; [lia|]. nia.
    + intros k. rewrite Hpage by lia. by rewrite Nat2Z.id.
  - intros p Hp. replace p with ((p - 1) + 1) by lia. rewrite Hpage by lia.
    rewrite length_take, length_drop. nia.
Qed.

Lemma place_options_selected rows index opts s s' :
  place_options rows index opts s = Some s' ->
  selected_items s' = selected_items s /\ closed s' = closed s.
Proof.
  revert index s. induction opts as [|opt opts IH]; intros index s; cbn [place_options].
  - by intros [= <-].
  - destruct (rows =? 0); [done|].
    destruct (if bool_decide (opt ∈ selected_items s)
              then _ ← variables s !! opt;
                   Some (set_variables (<[opt := 1]> (variables s)) s)
              else Some s) as [s1|] eqn:E1; [|done]. simpl.
    assert (H1 : selected_items s1 = selected_items s /\ closed s1 = closed s).
    { case_bool_decide; [|by injection E1 as <-].
      destruct (variables s !! opt); [|done]. simpl in E1. injection E1 as <-.
      by destruct s. }
    destruct (frame_index _ _) as [c|]; [|done]. simpl.
    destruct (variables s1 !! opt); [|done]. simpl.
    intros [H2 H3]%IH. destruct H1 as [<- <-]. split; [rewrite H2|rewrite H3].
    + by destruct s1.
    + by destruct s1.
Qed.

Lemma create_buttons_selected s s' :
  create_buttons s = Some s' ->
  selected_items s' = selected_items s /\ closed s' = closed s.
Proof.
  unfold create_buttons. cbv zeta.
  destruct (negb (nonempty _)); [intros [= <-]; by destruct s|].
  destruct (ceil_div _ _) as [rows|]; [|done]. simpl.
  intros [-> ->]%place_options_selected. by destruct s.
Qed.

Lemma selector_step_selected e s s' :
  selector_step e s = Some s' ->
  (forall opt, e <> ClickCheckbutton opt) ->
  selected_items s' = selected_items s.
Proof.
  unfold selector_step. destruct (closed s); [by intros [= <-]|].
  destruct e as [opt| | |search_text|confirmed|]; intros H Hne.
  - by destruct (Hne opt).
  - unfold prev_page in H. destruct (1 <? current_page s); [|by injection H as <-].
    apply create_buttons_selected in H as [-> _]. by destruct s.
  - unfold next_page in H. destruct (_ <? _); [|by injection H as <-].
    apply create_buttons_selected in H as [-> _]. by destruct s.
  - unfold filter_options, update_total_pages in H.
    destruct (ceil_div _ _) as [tp|]; [|done]. simpl in H.
    apply create_buttons_selected in H as [-> _].
    destruct s. simpl. by destruct (nonempty _).
  - injection H as <-. unfold accept. destruct confirmed; by destruct s.
  - injection H as <-. by destruct s.
Qed.

(** X20.  Searching, turning pages and closing the window never change
    the selection: after any events other than clicks on checkbuttons
    the selected options are those selected before, also the ones that
    a search has taken off the list. *)
Theorem selection_changes_by_click_only events s s' :
  selector_run events s = Some s' ->
  Forall (fun e => forall opt, e <> ClickCheckbutton opt) events ->
  selected_items s' = selected_items s.
Proof.
  revert s. induction events as [|e events IH]; intros s; simpl.
  - by intros [= <-].
  - destruct (selector_step e s) as [s1|] eqn:E; [|done]. simpl.
    intros Hrun [He Hev]%Forall_cons.
    rewrite (IH s1 Hrun Hev). by eapply selector_step_selected.
Qed.

Lemma selector_run_app events1 events2 s :
  selector_run (events1 ++ events2) s
  = s1 ← selector_run events1 s; selector_run events2 s1.
Proof.
  revert s. induction events1 as [|e events1 IH]; intros s; simpl; [done|].
  destruct (selector_step e s) as [s1|]; [|done]. simpl. apply IH.
Qed.

(** X21.  Cancel does not discard the selection: when the selector of
    the wizard, still open after some events, is closed with Cancel,
    the wizard takes the options selected at that moment as the
    selected columns, in the order the set lists them.  They are
    columns of the table; and on the second stage, with a spreadsheet
    chosen, Next is enabled exactly when some option is selected. *)
Theorem show_item_selector_cancel list_of events app s :
  (forall X : gset str, list_of X ≡ₚ elements X) ->
  (s0 ← init (available_options app) 20 3; selector_run events s0) = Some s ->
  closed s = false ->
  let app' := process_selection (list_of (selected_items s)) app in
  show_item_selector list_of (events ++ [ClickCancel]) app = Some app'
  /\ selected_options app' ≡ₚ elements (selected_items s)
  /\ (forall o, o ∈ selected_options app' -> o ∈ available_options app)
  /\ (current_page_index app = 1 -> excel_file_path app <> EXCEL_DEFAULT ->
      (next_button app' = NORMAL <-> selected_items s <> ∅)).
Proof.
  intros Hlist Hrun Hopen app'.
  destruct (init (available_options app) 20 3) as [s0|] eqn:E0; [|done].
  simpl in Hrun.
  destruct (selector_invariant_init (available_options app) 20 3 ltac:(lia) ltac:(lia))
    as (s0' & E0' & Hinv0).
  rewrite E0 in E0'. injection E0' as <-.
  destruct (selector_invariant_run (available_options app) 20 3 events s0
              ltac:(lia) ltac:(lia) Hinv0) as (s' & Es & Hinv).
  rewrite Hrun in Es. injection Es as <-.
  assert (Hsel : selected_options app' = list_of (selected_items s))
    by (unfold app', process_selection; by destruct app).
  split; [|split; [|split]].
  - unfold show_item_selector. rewrite E0. simpl.
    rewrite selector_run_app, Hrun. simpl.
    unfold selector_step. rewrite Hopen. simpl.
    replace (closed (cancel s)) with true by by destruct s.
    replace (selected_items (cancel s)) with (selected_items s) by by destruct s.
    done.
  - by rewrite Hsel.
  - intros o. rewrite Hsel, Hlist, elem_of_elements.
    intros Ho%(sel_ticks _ _ _ _ Hinv). apply (sel_vars _ _ _ _ Hinv). by eexists.
  - intros Hidx Hpath.
    assert (Hnb : next_button app' = NORMAL <-> list_of (selected_items s) <> []).
    { unfold app', process_selection, update_buttons, get_next_button_state,
        is_stage_ready.
      destruct app as [dp ep files df nn ao so ef ff ci pb nb bc bs]. simpl in *.
      subst ci. simpl. rewrite bool_decide_eq_true_2 by done. simpl.
      by destruct (list_of (selected_items s)). }
    rewrite Hnb. split.
    + intros Hne He. apply Hne. apply Permutation_nil_r. rewrite Hlist, He.
      by rewrite elements_empty.
    + intros Hne Hnil. apply Hne. apply leibniz_equiv.
      apply elements_empty_inv. apply Permutation_nil_r. by rewrite <- Hlist, Hnil.
Qed.
End SelectorPages.

(** X19, witness: five options on pages of two. *)
Lemma pages_cover_options_witness :
  let s' := PaginatedSelection.set_totals 5 3 sample_selector in
  concat (map (fun k => PaginatedSelection.page_options
                          (PaginatedSelection.set_current_page (Z.of_nat k + 1) s'))
              (seq 0 (Z.to_nat (PaginatedSelection.total_pages s'))))
  = PaginatedSelection.filtered_options sample_selector
  /\ (forall p, 1 <= p <= PaginatedSelection.total_pages s' ->
        (1 <= length (PaginatedSelection.page_options
                        (PaginatedSelection.set_current_page p s'))
           <= Z.to_nat (PaginatedSelection.items_per_page sample_selector))%nat).
Proof.
  apply (pages_cover_options sample_selector
           (PaginatedSelection.set_totals 5 3 sample_selector)).
  - reflexivity.
  - reflexivity.
Defined.

(** X20, witness: an option is ticked, then a search hides it. *)
Lemma selection_changes_by_click_only_witness :
  exists s s',
    (s0 ← PaginatedSelection.init [lit "Year"; lit "Name"; lit "Code"] 2 3;
     PaginatedSelection.selector_run
       [PaginatedSelection.ClickCheckbutton (lit "Year")] s0) = Some s
    /\ PaginatedSelection.selector_run
         [PaginatedSelection.KeyRelease (lit "code");
          PaginatedSelection.ClickNextPage;
          PaginatedSelection.ClickCancel] s = Some s'
    /\ PaginatedSelection.filtered_options s' = [lit "Code"]
    /\ PaginatedSelection.selected_items s' = PaginatedSelection.selected_items s.
Proof.
  destruct (s0 ← PaginatedSelection.init [lit "Year"; lit "Name"; lit "Code"] 2 3;
            PaginatedSelection.selector_run
              [PaginatedSelection.ClickCheckbutton (lit "Year")] s0)
    as [s|] eqn:E; [|by vm_compute in E].
  destruct (PaginatedSelection.selector_run
              [PaginatedSelection.KeyRelease (lit "code");
               PaginatedSelection.ClickNextPage;
               PaginatedSelection.ClickCancel] s) as [s'|] eqn:E'.
  - exists s, s'. split; [done|]. split; [done|]. split.
    + vm_compute in E. injection E as <-. vm_compute in E'. by injection E' as <-.
    + apply (selection_changes_by_click_only _ _ _ E'). by repeat constructor.
  - vm_compute in E. injection E as <-. by vm_compute in E'.
Defined.

(** X21, witness: the column [Name] is ticked and the window
    cancelled. *)
Lemma show_item_selector_cancel_witness :
  exists s,
    (s0 ← PaginatedSelection.init [lit "Name"] 20 3;
     PaginatedSelection.selector_run
       [PaginatedSelection.ClickCheckbutton (lit "Name")] s0) = Some s
    /\ show_item_selector elements
         [PaginatedSelection.ClickCheckbutton (lit "Name");
          PaginatedSelection.ClickCancel] three_selected
       = Some (process_selection
                 (elements (PaginatedSelection.selected_items s)) three_selected)
    /\ elements (PaginatedSelection.selected_items s) = [lit "Name"].
Proof.
  destruct (s0 ← PaginatedSelection.init [lit "Name"] 20 3;
            PaginatedSelection.selector_run
              [PaginatedSelection.ClickCheckbutton (lit "Name")] s0)
    as [s|] eqn:E; [|by vm_compute in E].
  exists s. split; [done|].
  destruct (show_item_selector_cancel elements
              [PaginatedSelection.ClickCheckbutton (lit "Name")] three_selected s)
    as (H1 & _).
  - done.
  - exact E.
  - vm_compute in E. by injection E as <-.
  - split; [exact H1|]. vm_compute in E. by injection E as <-.
Defined.

(** ** The wizard: composed steps *)

Section WizardSteps.
Context {W : Type}.
Variable fs_view : W -> FsView.
Variable writable : W -> str -> bool.
Variable split_pdf : str -> str -> Z -> W -> bool * W.
Variable os_rename : str -> str -> W -> Z + W.
Variable float_repr : spec_float -> str.
Variable fl : flavour.

Lemma filter_missing_nil (cols present : list str) :
  (forall col, col ∈ cols -> col ∈ present) ->
  filter (fun col => col ∉ present) cols = [].
Proof.
  induction cols as [|c cols IH]; intros H; [done|].
  rewrite filter_cons, decide_False.
  - apply IH. intros col Hc. apply H. by right.
  - intros Hn. apply Hn. apply H. by left.
Qed.

(** X22.  When the name generated for the first row is empty and there
    are as many rows as files, [start_renaming] renames nothing: the
    empty name is dropped, the counts then differ by one, and the
    failure shown is the count mismatch. *)
Theorem start_renaming_blank_first_name app df rest (fs : W) :
  dataframe app = Some df ->
  (forall col, col ∈ selected_options app -> col ∈ columns df) ->
  format_matches (final_filename_format app) = true ->
  generate_formatted_names float_repr fl df (selected_options app)
    (final_filename_format app) = Ok ([] :: rest) ->
  length (original_files_list app) = S (length rest) ->
  start_renaming os_rename float_repr fl app fs
  = (Failed (ValueError count_mismatch_message), set_new_names ([] :: rest) app, fs).
Proof.
  intros Hdf Hcols Hfmt Hgen Hlen. unfold start_renaming, missing_columns, loaded.
  rewrite Hdf. simpl.
  assert (Hmiss : (match selected_options app with
                   | [] => Ok []
                   | _ :: _ =>
                       Ok (filter (fun col => col ∉ columns df) (selected_options app))
                   end) = Ok []).
  { destruct (selected_options app) eqn:E; [done|].
    rewrite <- E in *. by rewrite filter_missing_nil. }
  rewrite Hmiss. simpl. rewrite Hfmt. simpl. rewrite Hgen. simpl.
  unfold rename_files. simpl.
  replace (original_files_list (set_new_names ([] :: rest) app))
    with (original_files_list app) by by destruct app.
  rewrite bool_decide_eq_true_2 by lia. done.
Qed.

(** X23.  Next followed by Previous brings back the stage it started
    from with the data of the window untouched: the result is the
    window with its pager buttons brought up to date and the main
    button bound to the first method of the stage.  On the last stage
    Next changes nothing, and on the first Previous changes nothing. *)
Theorem change_page_there_and_back app :
  (0 <= current_page_index app <= 2 ->
   change_page (-1) (change_page 1 app)
   = show_page (current_page_index app) (update_buttons app))
  /\ (current_page_index app = 3 -> change_page 1 app = app)
  /\ (current_page_index app = 0 -> change_page (-1) app = app).
Proof.
  destruct app as [dp ep files df nn ao so ef ff ci pb nb bc bs].
  unfold change_page. simpl. split; [|split].
  - intros H. assert (ci = 0 \/ ci = 1 \/ ci = 2) as [-> | [-> | ->]] by lia; reflexivity.
  - by intros ->.
  - by intros ->.
Qed.

(** X24.  Choosing a writable folder in which discovery finds two or
    more PDF files, on the first stage: the folder and the files are
    recorded, the extension kept is that of the first path as
    [os.path.splitext] gives it, the main button is enabled and bound
    to choosing a folder again, no split is asked for, and Next is
    enabled unless the folder is named like the placeholder text. *)
Theorem select_directory_loads folder splits app (w : W) files ext :
  folder <> [] ->
  writable w folder = true ->
  get_file_paths_and_extension (fs_view w) folder [lit ".pdf"] = Ok (files, ext) ->
  (2 <= length files)%nat ->
  current_page_index app = 0 ->
  exists app',
    select_directory fs_view writable split_pdf fl folder splits app w = Some (app', w)
    /\ directory_path app' = folder
    /\ original_files_list app' = files
    /\ extension_from_files app' = (splitext fl (default [] (head files))).2
    /\ button app' = NORMAL
    /\ button_command app' = CmdSelectDirectory
    /\ (next_button app' = NORMAL <-> folder <> DIRECTORY_DEFAULT).
Proof.
  intros Hne Hw Hd Hlen Hidx. pose proof (discover_ext_allowed _ _ _ _ _ Hd) as He.
  apply list_elem_of_singleton in He. change (lower (lit ".pdf")) with (lit ".pdf") in He.
  subst ext. unfold select_directory.
  rewrite (proj2 (nonempty_true folder) Hne), Hw. simpl.
  destruct app as [dp ep fs df nn ao so ef ff ci pb nb bc bs]. simpl in Hidx. subst ci.
  assert (Hload : forall app0,
            directory_path app0 = folder ->
            load_original_names fs_view split_pdf fl splits app0 w
            = Some (files_loaded fl (set_files files (lit ".pdf")
                                        (set_loading_state true app0)), w)).
  { intros app0 Hdir.
    assert (Hdir' : directory_path (set_loading_state true app0) = folder)
      by by destruct app0.
    destruct splits; cbn [load_original_names]; rewrite Hdir', Hd;
      rewrite (bool_decide_eq_false_2 (length files = 1%nat)) by lia; done. }
  rewrite Hload by done. eexists. split; [reflexivity|].
  unfold files_loaded. simpl.
  destruct files as [|f1 [|f2 files]]; [simpl in Hlen; lia|simpl in Hlen; lia|].
  simpl. split; [done|]. split; [done|]. split; [done|]. split; [done|].
  split; [done|]. unfold get_next_button_state, is_stage_ready. simpl.
  rewrite (proj2 (Z.ltb_lt 1 _)) by lia.
  case_bool_decide; simpl.
  - done.
  - split; [done|]. intros Hn. by destruct Hn.
Qed.
End WizardSteps.

(** X22, witness: the template [Name.pdf] over a table whose first row
    has a blank name, with two files. *)
Lemma start_renaming_blank_first_name_witness :
  start_renaming flat_rename no_float_text Posix
    (set_final_filename_format (lit "Name.pdf")
       (set_dataframe blank_first [lit "Name"]
          (set_selected_options [lit "Name"] three_selected)))
    [lit "/d/a.pdf"; lit "/d/b.pdf"]
  = (Failed (ValueError count_mismatch_message),
     set_new_names [[]; lit "Beta"]
       (set_final_filename_format (lit "Name.pdf")
          (set_dataframe blank_first [lit "Name"]
             (set_selected_options [lit "Name"] three_selected))),
     [lit "/d/a.pdf"; lit "/d/b.pdf"]).
Proof.
  apply (start_renaming_blank_first_name flat_rename no_float_text Posix
           (set_final_filename_format (lit "Name.pdf")
              (set_dataframe blank_first [lit "Name"]
                 (set_selected_options [lit "Name"] three_selected)))
           blank_first [lit "Beta"] [lit "/d/a.pdf"; lit "/d/b.pdf"]).
  - reflexivity.
  - intros col Hc. exact Hc.
  - reflexivity.
  - by vm_compute.
  - reflexivity.
Defined.

(** X24, witness: the folder [/a] of the sample tree. *)
Lemma select_directory_loads_witness :
  exists app',
    select_directory (fun _ : unit => sample_view) (fun _ _ => true)
      (fun _ _ _ w => (false, w)) Posix (lit "/a") [] initial_application tt
    = Some (app', tt)
    /\ directory_path app' = lit "/a"
    /\ original_files_list app'
       = [lit "/a/file1.pdf"; lit "/a/file2.PDF"; lit "/a/file10.pdf"]
    /\ extension_from_files app'
       = (splitext Posix
            (default [] (head [lit "/a/file1.pdf"; lit "/a/file2.PDF";
                               lit "/a/file10.pdf"]))).2
    /\ button app' = NORMAL
    /\ button_command app' = CmdSelectDirectory
    /\ (next_button app' = NORMAL <-> lit "/a" <> DIRECTORY_DEFAULT).
Proof.
  apply (select_directory_loads (fun _ : unit => sample_view) (fun _ _ => true)
           (fun _ _ _ w => (false, w)) Posix (lit "/a") [] initial_application tt
           [lit "/a/file1.pdf"; lit "/a/file2.PDF"; lit "/a/file10.pdf"] (lit ".pdf")).
  - done.
  - reflexivity.
  - by vm_compute.
  - simpl. lia.
  - reflexivity.
Defined.

(** ** The spreadsheet stage and the untouched builder *)

Section ExcelStage.
Context {W : Type}.
Variable fs_view : W -> FsView.
Variable readable : W -> str -> bool.
Variable read_excel : W -> str -> result DataFrame.
Variable fl : flavour.

(** X25.  Choosing another spreadsheet keeps the columns selected for
    the one before: on the second stage, with columns selected, a
    readable file with an Excel extension becomes the chosen file, the
    selected columns stay as they are and Next stays enabled, whatever
    the loading of the new file gives; when the file loads with a
    column and a row, its table and its columns replace the old ones
    and the main button opens the column selector. *)
Theorem select_excel_file_keeps_selection file_path app (w : W) :
  let app' := select_excel_file fs_view readable read_excel fl file_path app w in
  current_page_index app = 1 ->
  selected_options app <> [] ->
  file_path <> [] ->
  (splitext fl (lower file_path)).2 ∈ VALID_EXTENSIONS ->
  readable w file_path = true ->
  excel_file_path app' = file_path
  /\ selected_options app' = selected_options app
  /\ next_button app' = NORMAL
  /\ button app' = NORMAL
  /\ (forall df,
        load_excel_dataframe fs_view read_excel w file_path = Ok (df, columns df) ->
        columns df <> [] -> rows df <> [] ->
        dataframe app' = Some df /\ available_options app' = columns df
        /\ button_command app' = CmdShowItemSelector).
Proof.
  intros app' Hidx Hsel Hne Hext Hread. subst app'.
  assert (Hdef : file_path <> EXCEL_DEFAULT).
  { intros ->. destruct fl; vm_compute in Hext;
      repeat (apply elem_of_cons in Hext as [Hext|Hext]; [done|]);
      by apply not_elem_of_nil in Hext. }
  unfold select_excel_file.
  rewrite (proj2 (nonempty_true file_path) Hne). simpl.
  rewrite bool_decide_eq_false_2 by (intros Hn; by apply Hn).
  rewrite Hread. simpl. unfold load_dataframe.
  destruct app as [dp ep files df0 nn ao so ef ff ci pb nb bc bs]. simpl in *. subst ci.
  assert (Hnext : get_next_button_state
                    (MkApp dp file_path files df0 nn ao so ef ff 1 pb nb bc bs) = NORMAL).
  { unfold get_next_button_state, is_stage_ready. simpl.
    rewrite bool_decide_eq_true_2 by done. by destruct so. }
  unfold update_buttons. rewrite Hnext. simpl.
  destruct (load_excel_dataframe fs_view read_excel w file_path) as [[d options]|e] eqn:El;
    simpl.
  - destruct (nonempty options && negb (df_empty d)) eqn:Ec; simpl.
    + split; [done|]. split; [done|]. split; [done|]. split; [done|].
      intros df [= -> ->] _ _. done.
    + split; [done|]. split; [done|]. split; [done|]. split; [done|].
      intros df [= -> ->] Hc Hr. exfalso.
      unfold df_empty in Ec. destruct (columns df); [done|].
      destruct (rows df); [done|]. done.
  - split; [done|]. split; [done|]. split; [done|]. split; [done|]. by intros df.
Qed.
End ExcelStage.

(** X25, witness: the file [/d/other.XLSX] chosen while the column
    [Name] is selected. *)
Lemma select_excel_file_keeps_selection_witness :
  let app := set_page 1 (set_selected_options [lit "Name"] three_selected) in
  let app' := select_excel_file (fun _ : unit => office_view) (fun _ _ => true)
                (fun _ _ => Ok year_and_name) Posix (lit "/d/other.XLSX") app tt in
  excel_file_path app' = lit "/d/other.XLSX"
  /\ selected_options app' = [lit "Name"]
  /\ next_button app' = NORMAL
  /\ button app' = NORMAL
  /\ dataframe app' = Some year_and_name.
Proof.
  destruct (select_excel_file_keeps_selection (fun _ : unit => office_view)
              (fun _ _ => true) (fun _ _ => Ok year_and_name) Posix
              (lit "/d/other.XLSX")
              (set_page 1 (set_selected_options [lit "Name"] three_selected)) tt)
    as (H1 & H2 & H3 & H4 & H5).
  - reflexivity.
  - done.
  - done.
  - vm_compute. right. left.
  - reflexivity.
  - split; [exact H1|]. split; [exact H2|]. split; [exact H3|]. split; [exact H4|].
    by destruct (H5 year_and_name eq_refl).
Defined.

Lemma build_from_empty_entries i lbls (ents : list str) :
  (forall j entry, ents !! j = Some entry -> entry = []) ->
  build_from i lbls ents = concat (map text lbls).
Proof.
  intros He. revert i. induction lbls as [|l lbls IH]; intros i; simpl; [done|].
  rewrite IH. destruct (ents !! i) as [entry|] eqn:E; simpl; [|done].
  by rewrite (He _ _ E).
Qed.

Lemma imap_text (f : nat -> str -> DraggableLabel) words :
  (forall i w, text (f i w) = w) -> map text (imap f words) = words.
Proof.
  revert f. induction words as [|w words IH]; intros f Hf; [done|].
  simpl. rewrite Hf. f_equal. apply IH. intros i w'. apply Hf.
Qed.

(** X26.  The builder as it is made, before the user touches it, gives
    the words run together, followed by the extension with a dot put
    before it when it has none. *)
Theorem new_builder_filename words ext :
  build_filename (new_builder words ext)
  = concat words ++ (if startswith ext (lit ".") then ext else lit "." ++ ext)
  /\ startswith (extension (new_builder words ext)) (lit ".") = true.
Proof.
  split.
  - unfold build_filename. rewrite build_from_empty_entries.
    + cbn [new_builder labels extension]. by rewrite imap_text.
    + cbn [new_builder entries]. intros j entry [-> _]%lookup_replicate. done.
  - cbn [new_builder extension]. destruct (startswith ext (lit ".")) eqn:E; [done|].
    reflexivity.
Qed.
